(** * CelestiaValidator: the tokenizer and the validating parser engine

    A shallow embedding of [celvalidate/tokenizer.py], [celvalidate/parser.py]
    and [celvalidate/filenames.py], followed by the properties of the
    specification that were checked against it.

    Conventions of the embedding.
    - A Python [str] is a list of Unicode code points ([N]).
    - Line numbers and columns only ever count up from zero: they are [nat].
    - A method that mutates [self] is a function of the state monad [M] below;
      an exception leaves the mutations made before it in place, as in Python.
    - The text of a diagnostic is kept as the pieces of its f-string, so that
      [{x!r}] needs no model of [repr]. *)

From Stdlib Require Import List ZArith NArith Lia String Ascii Bool.
From stdpp Require Import base gmap sets list strings.
Import ListNotations.

Set Default Proof Using "Type".

(** ** Strings *)

Definition char := N.
Definition pystr := list char.

Definition ch (a : ascii) : char := N_of_ascii a.
Definition py (s : string) : pystr := map N_of_ascii (list_ascii_of_string s).
Arguments ch a%_char.
Arguments py s%_string.

Definition in_range (lo hi : ascii) (c : char) : bool :=
  (N_of_ascii lo <=? c)%N && (c <=? N_of_ascii hi)%N.
Arguments in_range (lo hi)%_char c.

Definition is_digit (c : char) : bool := in_range "0" "9" c.
Definition is_hex (c : char) : bool :=
  in_range "0" "9" c || in_range "a" "f" c || in_range "A" "F" c.
Definition is_name_start (c : char) : bool :=
  in_range "A" "Z" c || in_range "a" "z" c || (c =? ch "_")%N.
Definition is_name_char (c : char) : bool :=
  in_range "0" "9" c || in_range "A" "Z" c || in_range "a" "z" c || (c =? ch "_")%N.
Definition is_sign (c : char) : bool := (c =? ch "+")%N || (c =? ch "-")%N.
Definition is_exp_mark (c : char) : bool := (c =? ch "E")%N || (c =? ch "e")%N.

(** [str.isspace] for one character, which is also what [\s] matches in a
    [str] pattern (the table is the one of the Unicode database that CPython
    ships: bidirectional class WS, B or S, or category Zs). *)
Definition py_isspace (c : char) : bool :=
  ((9 <=? c) && (c <=? 13) || (28 <=? c) && (c <=? 32) || (c =? 133) || (c =? 160)
   || (c =? 5760) || (8192 <=? c) && (c <=? 8202) || (c =? 8232) || (c =? 8233)
   || (c =? 8239) || (c =? 8287) || (c =? 12288))%N.

(** [str.rstrip()] *)
Fixpoint rstrip (s : pystr) : pystr :=
  match s with
  | [] => []
  | c :: s' =>
      match rstrip s' with
      | [] => if py_isspace c then [] else [c]
      | r => c :: r
      end
  end.

Definition pystr_eqb (a b : pystr) : bool := bool_decide (a = b).

(** ** Numbers *)

(** The value of a run of ASCII digits. *)
Definition digits_val (ds : pystr) : Z :=
  fold_left (fun a c => 10 * a + (Z.of_N c - 48))%Z ds 0%Z.

(** [sys.get_int_max_str_digits()]: longer decimal texts make [int] raise
    [ValueError]; leading zeros count, the sign does not. *)
Definition int_max_str_digits : nat := 4300.

(** [int(s)] on the texts the regular expressions of the program pass to it
    (an optional ASCII sign, ASCII digits, and for number tokens [.], [e],
    [E]); [None] is [ValueError]. *)
Definition unsigned_int (ds : pystr) : option Z :=
  match ds with
  | [] => None
  | _ => if forallb is_digit ds && (length ds <=? int_max_str_digits)
         then Some (digits_val ds) else None
  end.

Definition py_int (s : pystr) : option Z :=
  match s with
  | c :: s' => if (c =? ch "-")%N then Z.opp <$> unsigned_int s'
               else if (c =? ch "+")%N then unsigned_int s' else unsigned_int s
  | [] => None
  end.

(** A decimal literal [d_mant * 10 ^ d_exp], standing for the double that
    [float] rounds it to (round to nearest, ties to even). *)
Record decimal := { d_mant : Z; d_exp : Z }.

Fixpoint take_while (p : char -> bool) (s : pystr) : pystr :=
  match s with
  | c :: s' => if p c then c :: take_while p s' else []
  | [] => []
  end.

Fixpoint drop_while (p : char -> bool) (s : pystr) : pystr :=
  match s with
  | c :: s' => if p c then drop_while p s' else s
  | [] => []
  end.

Definition signed_digits (s : pystr) : Z :=
  match s with
  | c :: s' => if (c =? ch "-")%N then (- digits_val (take_while is_digit s'))%Z
               else if (c =? ch "+")%N then digits_val (take_while is_digit s')
               else digits_val (take_while is_digit s)
  | [] => 0%Z
  end.

(** [float(s)] on a text made of an optional sign, digits, an optional
    fraction and an optional exponent. *)
Definition py_float (s : pystr) : decimal :=
  let '(neg, s1) :=
    match s with
    | c :: s' => if (c =? ch "-")%N then (true, s')
                 else if (c =? ch "+")%N then (false, s') else (false, s)
    | [] => (false, s)
    end in
  let ip := take_while is_digit s1 in
  let s2 := drop_while is_digit s1 in
  let '(fp, s3) :=
    match s2 with
    | c :: t => if (c =? ch ".")%N then (take_while is_digit t, drop_while is_digit t)
                else ([], s2)
    | [] => ([], s2)
    end in
  let e :=
    match s3 with
    | c :: t => if is_exp_mark c then signed_digits t else 0%Z
    | [] => 0%Z
    end in
  let m := digits_val (ip ++ fp) in
  {| d_mant := if neg then (- m)%Z else m; d_exp := (e - Z.of_nat (length fp))%Z |}.

(** The exact comparison of a decimal literal with [num / 2 ^ k]. *)
Definition dec_compare (d : decimal) (num : Z) (k : Z) : comparison :=
  if (0 <=? d_exp d)%Z
  then (d_mant d * 10 ^ d_exp d * 2 ^ k ?= num)%Z
  else (d_mant d * 2 ^ k ?= num * 10 ^ (- d_exp d))%Z.

(** Comparisons of the rounded double with 0, 1 and 60.  The double is
    [<= 0] when the literal is at most half the least subnormal, [> 1] when
    it is above the midpoint of 1 and its successor, [>= 60] when it is at
    least the midpoint of 60 and its predecessor. *)
Definition float_le_0 (d : decimal) : bool :=
  match dec_compare d 1 1075 with Gt => false | _ => true end.
Definition float_lt_0 (d : decimal) : bool :=
  match dec_compare d (-1) 1075 with Lt => true | _ => false end.
Definition float_gt_1 (d : decimal) : bool :=
  match dec_compare d (2 ^ 53 + 1) 53 with Gt => true | _ => false end.
Definition float_ge_60 (d : decimal) : bool :=
  match dec_compare d (60 * 2 ^ 48 - 1) 48 with Lt => false | _ => true end.

(** [int | float] *)
Inductive number :=
| Int (z : Z)
| Float (d : decimal).

Definition num_le_0 (n : number) : bool :=
  match n with Int z => (z <=? 0)%Z | Float d => float_le_0 d end.
Definition num_lt_0 (n : number) : bool :=
  match n with Int z => (z <? 0)%Z | Float d => float_lt_0 d end.
Definition num_gt_1 (n : number) : bool :=
  match n with Int z => (1 <? z)%Z | Float d => float_gt_1 d end.

(** ** Regular expressions

    The fragment of Python's [re] that the program uses, with the
    backtracking order of the [re] module: a repetition is greedy, an
    alternation tries its left branch first, an optional part is tried
    before it is left out. *)
Module Re.

Inductive re :=
| Chr (c : char)                                  (* a literal character *)
| Cls (p : char -> bool)                          (* [...] or \s *)
| Rep (p : char -> bool) (lo : nat) (hi : option nat)  (* class{lo,hi} *)
| Seq (a b : re)
| Alt (a b : re)                                  (* a|b *)
| Opt (a : re)                                    (* (a)? *)
| Grp (name : string) (a : re)                    (* (?P<name>a) *)
| Bos                                             (* ^ *)
| Eos.                                            (* $ *)

(** Named groups, the most recent capture first. *)
Definition groups := list (string * pystr).

Section Run.
Context {R : Type}.

Fixpoint rep (p : char -> bool) (lo : nat) (hi : option nat)
    (s : pystr) (i : nat) (k : pystr -> nat -> option R) : option R :=
  let stop := match lo with O => k s i | S _ => None end in
  match s with
  | c :: s' =>
      match hi with
      | Some O => stop
      | _ =>
          if p c then
            match rep p (Nat.pred lo) (option_map Nat.pred hi) s' (S i) k with
            | Some r => Some r
            | None => stop
            end
          else stop
      end
  | [] => stop
  end.

(** [run r s i g k]: match [r] against [s], the part of the subject
    that starts at index [i], then continue with [k]. *)
Fixpoint run (r : re) (s : pystr) (i : nat) (g : groups)
    (k : pystr -> nat -> groups -> option R) : option R :=
  match r with
  | Chr c =>
      match s with
      | c' :: s' => if (c =? c')%N then k s' (S i) g else None
      | [] => None
      end
  | Cls p =>
      match s with
      | c' :: s' => if p c' then k s' (S i) g else None
      | [] => None
      end
  | Rep p lo hi => rep p lo hi s i (fun s' i' => k s' i' g)
  | Seq a b => run a s i g (fun s' i' g' => run b s' i' g' k)
  | Alt a b =>
      match run a s i g k with
      | Some x => Some x
      | None => run b s i g k
      end
  | Opt a =>
      match run a s i g k with
      | Some x => Some x
      | None => k s i g
      end
  | Grp name a =>
      run a s i g (fun s' i' g' => k s' i' ((name, firstn (i' - i) s) :: g'))
  | Bos => match i with O => k s i g | S _ => None end
  | Eos =>
      match s with
      | [] => k s i g
      | [c] => if (c =? 10)%N then k s i g else None
      | _ => None
      end
  end.
End Run.

(** [pattern.match(string, pos)]: the end of the match and its groups. *)
Definition match_ (r : re) (s : pystr) (pos : nat) : option (nat * groups) :=
  run r (skipn pos s) pos [] (fun _ i g => Some (i, g)).

(** [m[name]], [None] when the group took no part in the match. *)
Fixpoint group (g : groups) (name : string) : option pystr :=
  match g with
  | [] => None
  | (n, v) :: g' => if String.eqb n name then Some v else group g' name
  end.

Fixpoint seq (rs : list re) : re :=
  match rs with
  | [] => Rep (fun _ => false) 0 (Some 0)
  | [r] => r
  | r :: rs' => Seq r (seq rs')
  end.

Definition plus (p : char -> bool) : re := Rep p 1 None.
Definition star (p : char -> bool) : re := Rep p 0 None.
Definition upto (p : char -> bool) (lo hi : nat) : re := Rep p lo (Some hi).
Definition lit (a : ascii) : re := Chr (N_of_ascii a).
Arguments lit a%_char.

End Re.

(** ** Diagnostics and tokens *)

(** [MessageLevel] *)
Inductive MessageLevel := INFO | WARN | ERROR.

(** The pieces of an f-string: literal text, [{s}] for a [str], [{s!r}],
    [{n}] for an [int] and [{t}] for a pair of [int]s. *)
Inductive piece :=
| Lit (s : string)
| Str (v : pystr)
| Repr (v : pystr)
| Num (n : Z)
| Pair (a b : Z).

Definition text := list piece.

(** [ParsingMessage] *)
Module ParsingMessage.
Record t := mk { line : nat; pos : nat; level : MessageLevel; message : text }.
End ParsingMessage.

(** [TokenKind] *)
Inductive TokenKind :=
| NAME | BOOLEAN | STRING | NUMBER
| START_OBJECT | END_OBJECT | START_ARRAY | END_ARRAY
| START_UNITS | END_UNITS | EQUALS | BAR.

(** A token's kind together with its [value].  [Token(kind, line, pos, value)]
    is only called by the Tokenizer, which gives a [NAME] and a [STRING] a
    [str], a [BOOLEAN] a [bool], a [NUMBER] an [int] or a [float], and the
    other kinds [None]. *)
Inductive lexeme :=
| T_NAME (value : pystr)
| T_BOOLEAN (value : bool)
| T_STRING (value : pystr)
| T_NUMBER (value : number)
| T_START_OBJECT | T_END_OBJECT | T_START_ARRAY | T_END_ARRAY
| T_START_UNITS | T_END_UNITS | T_EQUALS | T_BAR.

Definition kind_of (l : lexeme) : TokenKind :=
  match l with
  | T_NAME _ => NAME | T_BOOLEAN _ => BOOLEAN | T_STRING _ => STRING
  | T_NUMBER _ => NUMBER
  | T_START_OBJECT => START_OBJECT | T_END_OBJECT => END_OBJECT
  | T_START_ARRAY => START_ARRAY | T_END_ARRAY => END_ARRAY
  | T_START_UNITS => START_UNITS | T_END_UNITS => END_UNITS
  | T_EQUALS => EQUALS | T_BAR => BAR
  end.

(** [Token] *)
Module Token.
Record t := mk { lex : lexeme; line : nat; pos : nat }.
Definition kind (tok : t) : TokenKind := kind_of (lex tok).
End Token.

(** ** Exceptions and the state monad *)

(** [StopIteration] and [ParsingError] are the two exceptions the program
    handles.  The others are raised by the Python runtime and caught
    nowhere in the repository:
    - [TypeError]: [output.write(None)] (tokenizer.py:220) and
      [element_count[0]] on an [int] (parser.py:526);
    - [UnicodeEncodeError]: [chr(v).encode('utf-8')] for a surrogate
      (tokenizer.py:237);
    - [BadUnicodeEscape]: the four characters after [\u] are not all
      hexadecimal digits; [int(_, 16)] raises [ValueError] on them
      (tokenizer.py:237), or it reads them as a number under one of its
      other spellings and the escape then ends as it does for digits;
    - [IndexError]: [self.line[self.pos]] beyond the line;
    - [AttributeError]: [token.kind] on the [None] that [_next_token]
      returns at the end of the input when [allow_eof] is set;
    - [RuntimeError]: [_get_properties] of the base class (parser.py:779). *)
Inductive exn :=
| StopIteration
| ParsingError (message : text)
| TypeError
| UnicodeEncodeError
| BadUnicodeEscape
| IndexError
| AttributeError
| RuntimeError.

(** How a call ends.  [OutOfFuel] is not a Python outcome: it marks a run of
    the model that was cut before the call ended. *)
Inductive result (A : Type) :=
| Return (a : A)
| Raise (e : exn)
| OutOfFuel.
Arguments Return {A} a.
Arguments Raise {A} e.
Arguments OutOfFuel {A}.

Definition M (S A : Type) : Type := S -> result A * S.

Definition ret {S A} (a : A) : M S A := fun s => (Return a, s).
Definition bind {S A B} (c : M S A) (k : A -> M S B) : M S B :=
  fun s =>
    match c s with
    | (Return a, s') => k a s'
    | (Raise e, s') => (Raise e, s')
    | (OutOfFuel, s') => (OutOfFuel, s')
    end.
Definition raise {S A} (e : exn) : M S A := fun s => (Raise e, s).
Definition out_of_fuel {S A} : M S A := fun s => (OutOfFuel, s).
Definition get {S} : M S S := fun s => (Return s, s).
Definition put {S} (s : S) : M S unit := fun _ => (Return tt, s).

(** [try: c  except <handles>: h] *)
Definition try_except {S A} (c : M S A) (handles : exn -> bool) (h : exn -> M S A) : M S A :=
  fun s =>
    match c s with
    | (Raise e, s') => if handles e then h e s' else (Raise e, s')
    | r => r
    end.

Declare Scope py_scope.
Delimit Scope py_scope with py.
Notation "x <- c ;;; k" := (bind c (fun x => k))
  (at level 200, c at level 100, k at level 200, right associativity) : py_scope.
Notation "c ;;; k" := (bind c (fun _ => k))
  (at level 200, k at level 200, right associativity) : py_scope.
Open Scope py_scope.

Definition is_StopIteration (e : exn) : bool :=
  match e with StopIteration => true | _ => false end.
Definition is_ParsingError (e : exn) : bool :=
  match e with ParsingError _ => true | _ => false end.

(** ** The Tokenizer (tokenizer.py) *)

Definition _NAME_REGEX : Re.re :=
  Re.Seq (Re.Cls is_name_start) (Re.star is_name_char).

Definition _NUMBER_REGEX : Re.re :=
  Re.seq
    [ Re.Opt (Re.Cls is_sign);
      Re.Alt (Re.Seq (Re.plus is_digit) (Re.Opt (Re.Seq (Re.lit ".") (Re.star is_digit))))
             (Re.Seq (Re.lit ".") (Re.plus is_digit));
      Re.Opt (Re.seq [Re.Cls is_exp_mark; Re.Opt (Re.Cls is_sign); Re.plus is_digit]) ].

Module Tokenizer.

(** [f] holds what the successive calls of [f.readline()] return before
    the end of the file. *)
Record t := mk {
  f : list pystr;
  line : pystr;
  pos : nat;
  line_number : nat;
  messages : list ParsingMessage.t
}.

Definition __init__ (f : list pystr) : t := mk f [] 0 0 [].

Definition set_pos (p : nat) : M t unit :=
  fun self => (Return tt, mk (f self) (line self) p (line_number self) (messages self)).

Definition _warn (message : text) : M t unit :=
  fun self =>
    (Return tt,
     mk (f self) (line self) (pos self) (line_number self)
        (messages self ++
           [ParsingMessage.mk (line_number self) (pos self) WARN message])).

Definition _error {A} (message : text) : M t A :=
  fun self =>
    (Raise (ParsingError message),
     mk (f self) (line self) (pos self) (line_number self)
        (messages self ++
           [ParsingMessage.mk (line_number self) (pos self) ERROR message])).

Definition _read_line : M t unit :=
  fun self =>
    match f self with
    | [] => (Raise StopIteration, mk [] [] (pos self) (line_number self) (messages self))
    | [] :: rest =>
        (Raise StopIteration, mk rest [] (pos self) (line_number self) (messages self))
    | l :: rest =>
        (Return tt, mk rest (rstrip l) 0 (S (line_number self)) (messages self))
    end.

Definition hex_val (c : char) : N :=
  if is_digit c then c - 48
  else if in_range "a" "f" c then c - 87 else c - 55.

(** [chr(int(s, 16)).encode('utf-8')] for the four characters [s]; the
    bytes are dropped by the caller. *)
Definition unicode_escape (s : pystr) : M t unit :=
  if forallb is_hex s then
    let v := fold_left (fun a c => 16 * a + hex_val c)%N s 0%N in
    if ((55296 <=? v) && (v <=? 57343))%N then raise UnicodeEncodeError else ret tt
  else raise BadUnicodeEscape.

(** Returns [None] where the Python method returns [None]. *)
Definition _parse_escape : M t (option pystr) :=
  self <- get ;;;
  if pos self =? length (line self)
  then _error [Lit "Unterminated escape sequence"]
  else
    match nth_error (line self) (pos self) with
    | None => raise IndexError
    | Some c =>
        set_pos (S (pos self)) ;;;
        if ((c =? 34) || (c =? ch "\"))%N then ret (Some [c])
        else if (c =? ch "n")%N then ret (Some [10%N])
        else if (c =? ch "u")%N then
          let start_pos := S (pos self) in
          set_pos (start_pos + 4) ;;;
          if length (line self) <=? start_pos + 4
          then _error [Lit "Unterminated Unicode escape"]
          else
            unicode_escape (firstn 4 (skipn start_pos (line self))) ;;;
            ret None
        else ret None
    end.

(** [c == s] for a [c] that may be [None]. *)
Definition pystr_eqb_opt (c : option pystr) (s : pystr) : bool :=
  match c with Some x => pystr_eqb x s | None => false end.

(** The loop [while self.pos == len(self.line)] of [_read_string]. *)
Fixpoint _read_string_fill (fuel : nat) : M t unit :=
  match fuel with
  | O => out_of_fuel
  | S fuel =>
      self <- get ;;;
      if pos self =? length (line self)
      then
        try_except _read_line is_StopIteration
          (fun _ => _error [Lit "Unterminated string"]) ;;;
        _read_string_fill fuel
      else ret tt
  end.

(** The [while True] loop of [_read_string]; [output] is the [StringIO]. *)
Fixpoint _read_string_loop (fuel : nat) (line_number pos : nat) (output : pystr)
    : M t Token.t :=
  match fuel with
  | O => out_of_fuel
  | S fuel =>
      _read_string_fill fuel ;;;
      self <- get ;;;
      match nth_error (line self) (Tokenizer.pos self) with
      | None => raise IndexError
      | Some c =>
          set_pos (S (Tokenizer.pos self)) ;;;
          if (c =? 34)%N
          then ret (Token.mk (T_STRING output) line_number pos)
          else
            c' <- (if (c =? ch "\")%N then _parse_escape else ret (Some [c])) ;;;
            (if pystr_eqb_opt c' [65533%N]
             then _warn [Lit "Invalid UTF-8 in string literal"] else ret tt) ;;;
            match c' with
            | None => raise TypeError
            | Some w => _read_string_loop fuel line_number pos (output ++ w)
            end
      end
  end.

Definition _read_string (fuel : nat) : M t Token.t :=
  self <- get ;;;
  let line_number := line_number self in
  let pos := pos self in
  set_pos (S pos) ;;;
  _read_string_loop fuel line_number pos [].

(** The loop [while self.pos == len(self.line)] of [__next__]. *)
Fixpoint _next_fill (fuel : nat) : M t unit :=
  match fuel with
  | O => out_of_fuel
  | S fuel =>
      self <- get ;;;
      if pos self =? length (line self)
      then _read_line ;;; _next_fill fuel
      else ret tt
  end.

(** [Token(kind, self.line_number, self.pos)] followed by [self.pos += 1]. *)
Definition single (l : lexeme) : M t Token.t :=
  self <- get ;;;
  set_pos (S (pos self)) ;;;
  ret (Token.mk l (line_number self) (pos self)).

(** The last [case] of [__next__]: a name, a number, or a character that
    starts no token; [None] when the loop goes on. *)
Definition _next_other (c : char) : M t (option Token.t) :=
  self <- get ;;;
  let line_number := line_number self in
  let pos := pos self in
  match Re.match_ _NAME_REGEX (line self) pos with
  | Some (e, _) =>
      set_pos e ;;;
      let name := firstn (e - pos) (skipn pos (line self)) in
      if pystr_eqb name (py "false")
      then ret (Some (Token.mk (T_BOOLEAN false) line_number pos))
      else if pystr_eqb name (py "true")
      then ret (Some (Token.mk (T_BOOLEAN true) line_number pos))
      else ret (Some (Token.mk (T_NAME name) line_number pos))
  | None =>
      match Re.match_ _NUMBER_REGEX (line self) pos with
      | Some (e, _) =>
          set_pos e ;;;
          let s := firstn (e - pos) (skipn pos (line self)) in
          let value :=
            match py_int s with
            | Some z => Int z
            | None => Float (py_float s)
            end in
          ret (Some (Token.mk (T_NUMBER value) line_number pos))
      | None =>
          _warn [Lit "Unexpected character "; Repr [c]; Lit " in file"] ;;;
          set_pos (S pos) ;;;
          ret None
      end
  end.

(** The [while True] loop of [__next__]. *)
Fixpoint _next_loop (fuel : nat) : M t Token.t :=
  match fuel with
  | O => out_of_fuel
  | S fuel =>
      _next_fill fuel ;;;
      self <- get ;;;
      match nth_error (line self) (pos self) with
      | None => raise IndexError
      | Some c =>
          if ((c =? 9) || (c =? ch " "))%N then
            set_pos (S (pos self)) ;;; _next_loop fuel
          else if (c =? ch "#")%N then
            set_pos (length (line self)) ;;; _next_loop fuel
          else if (c =? 34)%N then _read_string fuel
          else if (c =? ch "{")%N then single T_START_OBJECT
          else if (c =? ch "}")%N then single T_END_OBJECT
          else if (c =? ch "[")%N then single T_START_ARRAY
          else if (c =? ch "]")%N then single T_END_ARRAY
          else if (c =? ch "<")%N then single T_START_UNITS
          else if (c =? ch ">")%N then single T_END_UNITS
          else if (c =? ch "=")%N then single T_EQUALS
          else if (c =? ch "|")%N then single T_BAR
          else
            r <- _next_other c ;;;
            match r with
            | Some token => ret token
            | None => _next_loop fuel
            end
      end
  end.

(** What is left to read: the rest of the line and the lines of [f].
    Every turn of a loop of the Tokenizer uses some of it up. *)
Definition remaining (self : t) : nat :=
  (length (line self) - pos self)
  + fold_right (fun l n => S (length l + n)) 0 (f self).

(** The body of [__next__] under [try]. *)
Definition _next_body : M t Token.t :=
  fun self => _next_loop (S (S (remaining self))) self.

(** [__next__]: the body, then
    [except ParsingError as ex: raise StopIteration from ex]. *)
Definition __next__ : M t Token.t :=
  try_except _next_body is_ParsingError (fun _ => raise StopIteration).

End Tokenizer.

(** ** Filename classifiers (filenames.py) *)

(** [str.casefold()].  The characters listed are all those whose folding is
    ASCII text; any other character folds to text that is not ASCII and is
    left as it is, which changes no comparison with the ASCII extensions
    below. *)
Definition casefold_char (c : char) : pystr :=
  if in_range "A" "Z" c then [(c + 32)%N]
  else if (c =? 223)%N || (c =? 7838)%N then py "ss"
  else if (c =? 383)%N then py "s"
  else if (c =? 8490)%N then py "k"
  else if (c =? 64256)%N then py "ff"
  else if (c =? 64257)%N then py "fi"
  else if (c =? 64258)%N then py "fl"
  else if (c =? 64259)%N then py "ffi"
  else if (c =? 64260)%N then py "ffl"
  else if (c =? 64261)%N || (c =? 64262)%N then py "st"
  else [c].

Definition casefold (s : pystr) : pystr := flat_map casefold_char s.

(** [s.rfind(c)], [None] for -1. *)
Fixpoint rfind (c : char) (s : pystr) : option nat :=
  match s with
  | [] => None
  | x :: s' =>
      match rfind c s' with
      | Some i => Some (S i)
      | None => if (x =? c)%N then Some 0 else None
      end
  end.

(** [os.path.splitext(p)[1]] for a [p] without directory separators: the
    text from the last dot on, unless only dots come before it. *)
Definition splitext_ext (p : pystr) : pystr :=
  match rfind (ch ".") p with
  | Some i =>
      if existsb (fun x => negb (x =? ch ".")%N) (firstn i p) then skipn i p else []
  | None => []
  end.

Definition is_superscript_digit (c : char) : bool :=
  in_range "0" "9" c || (c =? 178)%N || (c =? 179)%N || (c =? 185)%N.

Definition _INVALID_FILE_REGEX : Re.re :=
  Re.seq
    [ Re.Bos;
      Re.Alt (Re.seq [Re.lit "C"; Re.lit "O"; Re.lit "M"])
             (Re.seq [Re.lit "L"; Re.lit "P"; Re.lit "T"]);
      Re.Cls is_superscript_digit;
      Re.Eos ].

Definition _MESH_EXTENSIONS : list pystr := [py ".cmod"; py ".3ds"; py ".cms"].
Definition _TEXTURE_EXTENSIONS : list pystr :=
  [py ".jpg"; py ".jpeg"; py ".png"; py ".dds"; py ".dxt5nm"; py ".ctx"; py ".avif"; py ".*"].

Definition mem (x : pystr) (l : list pystr) : bool := existsb (pystr_eqb x) l.

Definition is_file (filename : pystr) : bool :=
  negb (existsb (fun c => (c =? ch "/")%N) filename)
  && negb (existsb (fun c => (c =? ch "\")%N) filename)
  && negb (mem filename [py "CON"; py "PRN"; py "AUX"; py "NUL"])
  && match Re.match_ _INVALID_FILE_REGEX filename 0 with None => true | Some _ => false end.

Definition is_mesh_file (filename : pystr) : bool :=
  is_file filename && mem (casefold (splitext_ext filename)) _MESH_EXTENSIONS.

Definition is_texture_file (filename : pystr) : bool :=
  is_file filename && mem (casefold (splitext_ext filename)) _TEXTURE_EXTENSIONS.

(** ** The parser engine (parser.py) *)

(** [DataType] *)
Inductive DataType :=
| DT_BOOLEAN | DT_NUMBER | DT_VECTOR | DT_QUATERNION | DT_STRING | DT_OBJECT
| DT_DATE | DT_NUMBER_OR_STRING | DT_STRING_LIST | DT_OBJECT_LIST
| DT_VECTOR_OR_OBJECT | DT_COLOR.

(** [UnitsType] *)
Inductive UnitsType := LENGTH | TIME | ANGLE | MASS | SPHERICAL.

Global Instance UnitsType_eq_dec : EqDecision UnitsType.
Proof. solve_decision. Defined.
Global Instance TokenKind_eq_dec : EqDecision TokenKind.
Proof. solve_decision. Defined.

Definition _UNIT_TYPES : gmap pystr UnitsType :=
  list_to_map
    [ (py "km", LENGTH); (py "m", LENGTH); (py "rE", LENGTH); (py "rS", LENGTH);
      (py "au", LENGTH); (py "AU", LENGTH); (py "ly", LENGTH); (py "pc", LENGTH);
      (py "kpc", LENGTH); (py "Mpc", LENGTH);
      (py "s", TIME); (py "min", TIME); (py "h", TIME); (py "d", TIME); (py "y", TIME);
      (py "mas", ANGLE); (py "arcsec", ANGLE); (py "arcmin", ANGLE); (py "deg", ANGLE);
      (py "hRA", ANGLE); (py "rad", ANGLE);
      (py "kg", MASS); (py "mE", MASS); (py "mJ", MASS) ].

Definition _X11_COLORS : gset pystr :=
  list_to_set [
    py "aliceblue"; py "antiquewhite"; py "aqua"; py "aquamarine";
    py "azure"; py "beige"; py "bisque"; py "black"; py "blanchedalmond";
    py "blue"; py "blueviolet"; py "brown"; py "burlywood"; py "cadetblue";
    py "chartreuse"; py "chocolate"; py "coral"; py "cornflowerblue";
    py "cornsilk"; py "crimson"; py "cyan"; py "darkblue"; py "darkcyan";
    py "darkgoldenrod"; py "darkgray"; py "darkgreen"; py "darkkhaki";
    py "darkmagenta"; py "darkolivegreen"; py "darkorange"; py "darkorchid";
    py "darkred"; py "darksalmon"; py "darkseagreen"; py "darkslateblue";
    py "darkslategray"; py "darkturquoise"; py "darkviolet"; py "deeppink";
    py "deepskyblue"; py "dimgray"; py "dodgerblue"; py "firebrick";
    py "floralwhite"; py "forestgreen"; py "fuchsia"; py "gainsboro";
    py "ghostwhite"; py "gold"; py "goldenrod"; py "gray"; py "green";
    py "greenyellow"; py "honeydew"; py "hotpink"; py "indianred";
    py "indigo"; py "ivory"; py "khaki"; py "lavender"; py "lavenderblush";
    py "lawngreen"; py "lemonchiffon"; py "lightblue"; py "lightcoral";
    py "lightcyan"; py "lightgoldenrodyellow"; py "lightgreen";
    py "lightgrey"; py "lightpink"; py "lightsalmon"; py "lightseagreen";
    py "lightskyblue"; py "lightslategray"; py "lightsteelblue";
    py "lightyellow"; py "lime"; py "limegreen"; py "linen"; py "magenta";
    py "maroon"; py "mediumaquamarine"; py "mediumblue"; py "mediumorchid";
    py "mediumpurple"; py "mediumseagreen"; py "mediumslateblue";
    py "mediumspringgreen"; py "mediumturquoise"; py "mediumvioletred";
    py "midnightblue"; py "mintcream"; py "mistyrose"; py "moccasin";
    py "navajowhite"; py "navy"; py "oldlace"; py "olive"; py "olivedrab";
    py "orange"; py "orangered"; py "orchid"; py "palegoldenrod";
    py "palegreen"; py "paleturquoise"; py "palevioletred"; py "papayawhip";
    py "peachpuff"; py "peru"; py "pink"; py "plum"; py "powderblue";
    py "purple"; py "red"; py "rosybrown"; py "royalblue"; py "saddlebrown";
    py "salmon"; py "sandybrown"; py "seagreen"; py "seashell"; py "sienna";
    py "silver"; py "skyblue"; py "slateblue"; py "slategray"; py "snow";
    py "springgreen"; py "steelblue"; py "tan"; py "teal"; py "thistle";
    py "tomato"; py "turquoise"; py "violet"; py "wheat"; py "white";
    py "whitesmoke"; py "yellow"; py "yellowgreen" ].

Definition _COLOR_REGEX : Re.re :=
  Re.seq [Re.Bos; Re.lit "#"; Re.upto is_hex 3 8; Re.Eos].

(** [Disposition] *)
Inductive Disposition := ADD | MODIFY | REPLACE.

Definition PropertyDef : Type := DataType * option UnitsType.

(** The patterns are compiled with [re.VERBOSE]: the blanks and the line
    breaks inside them match nothing. *)
Definition _ISO_DATE_REGEX : Re.re :=
  Re.seq
    [ Re.Bos;
      Re.Grp "year" (Re.Seq (Re.Opt (Re.Cls is_sign)) (Re.plus is_digit));
      Re.lit "-"; Re.Grp "month" (Re.upto is_digit 2 2);
      Re.lit "-"; Re.Grp "day" (Re.upto is_digit 2 2);
      Re.lit "T"; Re.Grp "hour" (Re.upto is_digit 2 2);
      Re.lit ":"; Re.Grp "minute" (Re.upto is_digit 2 2);
      Re.lit ":";
      Re.Grp "second"
        (Re.Seq (Re.upto is_digit 2 2) (Re.Opt (Re.Seq (Re.lit ".") (Re.plus is_digit))));
      Re.Eos ].

Definition _NORMAL_REGEX : Re.re :=
  Re.seq
    [ Re.Bos; Re.star py_isspace;
      Re.Grp "year" (Re.Seq (Re.Opt (Re.Cls is_sign)) (Re.plus is_digit));
      Re.plus py_isspace; Re.Grp "month" (Re.upto is_digit 1 2);
      Re.plus py_isspace; Re.Grp "day" (Re.upto is_digit 1 2);
      Re.Opt
        (Re.seq
           [ Re.plus py_isspace; Re.Grp "hour" (Re.upto is_digit 1 2);
             Re.lit ":"; Re.Grp "minute" (Re.upto is_digit 1 2);
             Re.Opt
               (Re.Seq (Re.lit ":")
                  (Re.Grp "second"
                     (Re.Seq (Re.upto is_digit 1 2)
                        (Re.Opt (Re.Seq (Re.lit ".") (Re.plus is_digit)))))) ]);
      Re.star py_isspace; Re.Eos ].

(** The [try] block of [_check_date_string]; [None] is [ValueError]. *)
Definition _check_date_fields (g : Re.groups) : option bool :=
  let field name := default [] (Re.group g name) in
  year ← py_int (field "year");
  month ← py_int (field "month");
  if ((month <? 1) || (12 <? month))%Z then Some false else
  day ← py_int (field "day");
  if (day <? 1)%Z then Some false else
  let month_days :=
    if (month =? 2)%Z then
      if ((year mod 4 =? 0)
          && ((year <=? 1582) || (negb (year mod 100 =? 0) || (year mod 400 =? 0))))%Z
      then 29%Z else 28%Z
    else if ((month =? 4) || (month =? 6) || (month =? 9) || (month =? 11))%Z then 30%Z
    else 31%Z in
  if (month_days <? day)%Z then Some false else
  match Re.group g "hour" with
  | Some h =>
      hour ← py_int h;
      if ((hour <? 0) || (24 <=? hour))%Z then Some false else
      minute ← py_int (field "minute");
      if ((minute <? 0) || (60 <=? minute))%Z then Some false else
      match Re.group g "second" with
      | Some s =>
          let second := py_float s in
          if float_lt_0 second || float_ge_60 second then Some false else Some true
      | None => Some true
      end
  | None => Some true
  end.

Definition _check_date_string (date_str : pystr) : bool :=
  let m :=
    match Re.match_ _ISO_DATE_REGEX date_str 0 with
    | Some m => Some m
    | None => Re.match_ _NORMAL_REGEX date_str 0
    end in
  match m with
  | None => false
  | Some (_, g) => default false (_check_date_fields g)
  end.

(** The second argument of [_check_vector]: [int | tuple[int, int]]. *)
Inductive element_count :=
| Count (n : nat)
| Between (lo hi : nat).

Definition count_piece (c : element_count) : piece :=
  match c with
  | Count n => Num (Z.of_nat n)
  | Between lo hi => Pair (Z.of_nat lo) (Z.of_nat hi)
  end.

(** The four methods that the format parsers override.  An override of the
    repository only appends diagnostics (and [_get_properties] either
    returns a schema or falls back on the base method, which raises
    [RuntimeError]: that is [None] here), so a hook is the list of the
    diagnostics it appends. *)
Record Hooks := {
  _get_properties : pystr -> option (gmap pystr PropertyDef);
  _validate_string : pystr -> pystr -> Token.t -> pystr -> list ParsingMessage.t;
  _validate_number : pystr -> pystr -> Token.t -> number -> list ParsingMessage.t;
  _check_properties :
    pystr -> Token.t -> gset pystr -> Disposition -> list ParsingMessage.t
}.

Definition warning (token : Token.t) (message : text) : ParsingMessage.t :=
  ParsingMessage.mk (Token.line token) (Token.pos token) WARN message.

(** Where a diagnostic was appended: [tokenizer.messages] or [_messages]. *)
Inductive origin := Lexer | Engine.

Module TokenFileParser.

(** [emitted] is a history variable, not an attribute of the Python
    object: the diagnostics of the tokenizer and of the parser in the order
    in which they were appended, each with the list it went to.  Nothing
    reads it; it is what the statements about the order of emission are
    about. *)
Record t := mk {
  tokenizer : Tokenizer.t;
  _messages : list ParsingMessage.t;
  saved_token : option Token.t;
  emitted : list (origin * ParsingMessage.t)
}.

Definition __init__ (f : list pystr) : t := mk (Tokenizer.__init__ f) [] None [].

(** The diagnostics that a call of the tokenizer appended. *)
Definition lexed (before after : Tokenizer.t) : list (origin * ParsingMessage.t) :=
  map (pair Lexer)
    (skipn (length (Tokenizer.messages before)) (Tokenizer.messages after)).

(** [list.sort(key=...)] is stable: an element stays before the later
    elements that have the same key. *)
Definition key (m : ParsingMessage.t) : nat * nat :=
  (ParsingMessage.line m, ParsingMessage.pos m).

Definition key_ltb (a b : nat * nat) : bool :=
  (fst a <? fst b) || ((fst a =? fst b) && (snd a <? snd b)).

Fixpoint insert (m : ParsingMessage.t) (l : list ParsingMessage.t) :=
  match l with
  | [] => [m]
  | x :: l' => if key_ltb (key x) (key m) then x :: insert m l' else m :: l
  end.

Fixpoint sort (l : list ParsingMessage.t) : list ParsingMessage.t :=
  match l with
  | [] => []
  | m :: l' => insert m (sort l')
  end.

(** The property [messages]. *)
Definition messages (self : t) : list ParsingMessage.t :=
  sort (Tokenizer.messages (tokenizer self) ++ _messages self).

Definition emit (ms : list ParsingMessage.t) : M t unit :=
  fun self =>
    (Return tt,
     mk (tokenizer self) (_messages self ++ ms) (saved_token self)
        (emitted self ++ map (pair Engine) ms)).

Definition _error {A} (line pos : nat) (message : text) : M t A :=
  emit [ParsingMessage.mk line pos ERROR message] ;;;
  raise (ParsingError message).

Definition _warn (line pos : nat) (message : text) : M t unit :=
  emit [ParsingMessage.mk line pos WARN message].

Definition _info (line pos : nat) (message : text) : M t unit :=
  emit [ParsingMessage.mk line pos INFO message].

(** [next(self.tokenizer, None)] *)
Definition next_or_None : M t (option Token.t) :=
  fun self =>
    let '(r, tk) := Tokenizer.__next__ (tokenizer self) in
    let self' :=
      mk tk (_messages self) (saved_token self)
         (emitted self ++ lexed (tokenizer self) tk) in
    match r with
    | Return token => (Return (Some token), self')
    | Raise StopIteration => (Return None, self')
    | Raise e => (Raise e, self')
    | OutOfFuel => (OutOfFuel, self')
    end.

Definition _next_token (kind : option TokenKind) (message : text)
    (is_error allow_eof : bool) : M t (option Token.t) :=
  self <- get ;;;
  match saved_token self with
  | Some token =>
      put (mk (tokenizer self) (_messages self) None (emitted self)) ;;;
      ret (Some token)
  | None =>
      token <- next_or_None ;;;
      match token with
      | None =>
          if allow_eof then ret None
          else
            self <- get ;;;
            _error (Tokenizer.line_number (tokenizer self))
                   (Tokenizer.pos (tokenizer self)) [Lit "Unexpected EOF"]
      | Some token =>
          (match kind with
           | Some kind =>
               if bool_decide (Token.kind token = kind) then ret tt
               else if is_error
                    then _error (Token.line token) (Token.pos token) message
                    else _warn (Token.line token) (Token.pos token) message
           | None => ret tt
           end) ;;;
          ret (Some token)
      end
  end.

(** The call [self._next_token()], whose result the engine uses as a
    token at once. *)
Definition next_token : M t Token.t :=
  token <- _next_token None [] false false ;;;
  match token with
  | Some token => ret token
  | None => raise AttributeError
  end.

Definition _push_back (token : Token.t) : M t unit :=
  fun self =>
    (Return tt, mk (tokenizer self) (_messages self) (Some token) (emitted self)).

Definition mismatch {A} (token : Token.t) : M t A :=
  _error (Token.line token) (Token.pos token) [Lit "Mismatched nesting"].

Definition warn_at (token : Token.t) (message : text) : M t unit :=
  _warn (Token.line token) (Token.pos token) message.

(** [_skip_structure]; the head of [struct_stack] is the end of the
    Python list. *)
Fixpoint _skip_structure_loop (fuel : nat) (struct_stack : list TokenKind) : M t unit :=
  match fuel with
  | O => out_of_fuel
  | S fuel =>
      match struct_stack with
      | [] => ret tt
      | top :: popped =>
          token <- next_token ;;;
          match Token.lex token with
          | T_START_OBJECT | T_START_ARRAY | T_START_UNITS =>
              _skip_structure_loop fuel (Token.kind token :: struct_stack)
          | T_END_OBJECT =>
              if bool_decide (top = START_OBJECT)
              then _skip_structure_loop fuel popped else mismatch token
          | T_END_ARRAY =>
              if bool_decide (top = START_ARRAY)
              then _skip_structure_loop fuel popped else mismatch token
          | T_END_UNITS =>
              if bool_decide (top = START_UNITS)
              then _skip_structure_loop fuel popped else mismatch token
          | _ => _skip_structure_loop fuel struct_stack
          end
      end
  end.

Definition _skip_structure (fuel : nat) (open_token : TokenKind) : M t unit :=
  _skip_structure_loop fuel [open_token].

Definition _skip_value (fuel : nat) : M t unit :=
  token <- next_token ;;;
  token <- (match Token.lex token with
            | T_START_UNITS => _skip_structure fuel START_UNITS ;;; next_token
            | _ => ret token
            end) ;;;
  match Token.lex token with
  | T_START_OBJECT | T_START_ARRAY => _skip_structure fuel (Token.kind token)
  | T_START_UNITS =>
      warn_at token [Lit "Unexpected units definition"] ;;;
      _skip_structure fuel (Token.kind token)
  | T_NAME _ | T_END_OBJECT => _push_back token
  | T_END_ARRAY | T_END_UNITS => mismatch token
  | _ => ret tt
  end.

Fixpoint _check_spherical_units_loop (fuel : nat) (has_angle_unit has_length_unit : bool)
    : M t unit :=
  match fuel with
  | O => out_of_fuel
  | S fuel =>
      token <- next_token ;;;
      match Token.lex token with
      | T_NAME value =>
          match _UNIT_TYPES !! value with
          | None =>
              warn_at token [Lit "Unknown unit type "; Str value] ;;;
              _check_spherical_units_loop fuel has_angle_unit has_length_unit
          | Some ANGLE =>
              (if has_angle_unit then warn_at token [Lit "Duplicate angle unit"] else ret tt) ;;;
              _check_spherical_units_loop fuel true has_length_unit
          | Some LENGTH =>
              (if has_length_unit then warn_at token [Lit "Duplicate length unit"] else ret tt) ;;;
              _check_spherical_units_loop fuel has_angle_unit true
          | Some _ =>
              warn_at token [Lit "Unexpected unit type "; Str value; Lit " ignored"] ;;;
              _check_spherical_units_loop fuel has_angle_unit has_length_unit
          end
      | T_END_UNITS =>
          (if has_angle_unit then ret tt else warn_at token [Lit "Expected angle unit"]) ;;;
          (if has_length_unit then ret tt else warn_at token [Lit "Expected length unit"])
      | T_START_ARRAY =>
          warn_at token [Lit "Unexpected array in units block"] ;;;
          _skip_structure fuel (Token.kind token) ;;;
          _check_spherical_units_loop fuel has_angle_unit has_length_unit
      | T_START_OBJECT =>
          warn_at token [Lit "Unexpected object in units block"] ;;;
          _skip_structure fuel (Token.kind token) ;;;
          _check_spherical_units_loop fuel has_angle_unit has_length_unit
      | T_START_UNITS =>
          warn_at token [Lit "Unexpected nested units block"] ;;;
          _skip_structure fuel (Token.kind token) ;;;
          _check_spherical_units_loop fuel has_angle_unit has_length_unit
      | T_END_ARRAY | T_END_OBJECT => mismatch token
      | _ =>
          warn_at token [Lit "Unexpected token in units block"] ;;;
          _check_spherical_units_loop fuel has_angle_unit has_length_unit
      end
  end.

Definition _check_spherical_units (fuel : nat) : M t unit :=
  _check_spherical_units_loop fuel false false.

Fixpoint _check_units_loop (fuel : nat) (expected_units : UnitsType) (has_unit : bool)
    : M t unit :=
  match fuel with
  | O => out_of_fuel
  | S fuel =>
      token <- next_token ;;;
      match Token.lex token with
      | T_NAME value =>
          match _UNIT_TYPES !! value with
          | None => warn_at token [Lit "Unknown unit type "; Str value]
          | Some actual_units =>
              if negb (bool_decide (actual_units = expected_units))
              then warn_at token [Lit "Unexpected unit type "; Str value; Lit " ignored"]
              else if has_unit then warn_at token [Lit "Multiple units found"]
              else ret tt
          end ;;;
          _check_units_loop fuel expected_units true
      | T_END_UNITS =>
          if has_unit then ret tt else warn_at token [Lit "Empty unit block"]
      | T_START_ARRAY =>
          warn_at token [Lit "Unexpected array in units block"] ;;;
          _skip_structure fuel (Token.kind token) ;;;
          _check_units_loop fuel expected_units has_unit
      | T_START_OBJECT =>
          warn_at token [Lit "Unexpected object in units block"] ;;;
          _skip_structure fuel (Token.kind token) ;;;
          _check_units_loop fuel expected_units has_unit
      | T_START_UNITS =>
          warn_at token [Lit "Unexpected nested units block"] ;;;
          _skip_structure fuel (Token.kind token) ;;;
          _check_units_loop fuel expected_units has_unit
      | T_END_ARRAY | T_END_OBJECT => mismatch token
      | _ =>
          warn_at token [Lit "Unexpected token in units block"] ;;;
          _check_units_loop fuel expected_units has_unit
      end
  end.

Definition _check_units (fuel : nat) (expected_units : UnitsType) : M t unit :=
  match expected_units with
  | SPHERICAL => _check_spherical_units fuel
  | _ => _check_units_loop fuel expected_units false
  end.

Section Engine.
Context (h : Hooks).

Definition validate_number (object_name property_name : pystr) (token : Token.t)
    (value : number) : M t unit :=
  emit (_validate_number h object_name property_name token value).

Definition validate_string (object_name property_name : pystr) (token : Token.t)
    (value : pystr) : M t unit :=
  emit (_validate_string h object_name property_name token value).

Fixpoint _check_vector_loop (fuel : nat) (property_name : pystr)
    (element_count : element_count) (num_elements : nat) : M t unit :=
  match fuel with
  | O => out_of_fuel
  | S fuel =>
      token <- next_token ;;;
      match Token.lex token with
      | T_NUMBER value =>
          validate_number property_name (py "[]") token value ;;;
          _check_vector_loop fuel property_name element_count (S num_elements)
      | T_END_ARRAY =>
          match element_count with
          | Count n =>
              (* isinstance(element_count, int) and num_elements == element_count,
                 or else element_count[0] on an int *)
              if num_elements =? n then ret tt else raise TypeError
          | Between lo hi =>
              if (lo <=? num_elements) && (num_elements <=? hi) then ret tt
              else
                warn_at token
                  [ Lit "Expected "; count_piece element_count;
                    Lit " elements in vector, found "; Num (Z.of_nat num_elements) ]
          end
      | T_START_ARRAY =>
          warn_at token [Lit "Unexpected sub-array in vector"] ;;;
          _skip_structure fuel (Token.kind token) ;;;
          _check_vector_loop fuel property_name element_count num_elements
      | T_START_OBJECT =>
          warn_at token [Lit "Unexpected sub-object in vector"] ;;;
          _skip_structure fuel (Token.kind token) ;;;
          _check_vector_loop fuel property_name element_count num_elements
      | T_START_UNITS =>
          warn_at token [Lit "Unexpected units block in vector"] ;;;
          _skip_structure fuel (Token.kind token) ;;;
          _check_vector_loop fuel property_name element_count num_elements
      | T_END_OBJECT | T_END_UNITS => mismatch token
      | _ =>
          warn_at token [Lit "Non-numeric token in vector"] ;;;
          _check_vector_loop fuel property_name element_count num_elements
      end
  end.

Definition _check_vector (fuel : nat) (property_name : pystr)
    (element_count : element_count) : M t unit :=
  _check_vector_loop fuel property_name element_count 0.

Fixpoint _check_string_list (fuel : nat) (property_name : pystr) : M t unit :=
  match fuel with
  | O => out_of_fuel
  | S fuel =>
      token <- next_token ;;;
      match Token.lex token with
      | T_STRING value =>
          validate_string property_name (py "[]") token value ;;;
          _check_string_list fuel property_name
      | T_END_ARRAY => ret tt
      | T_START_ARRAY =>
          warn_at token [Lit "Unexpected sub-array in string list"] ;;;
          _skip_structure fuel (Token.kind token) ;;;
          _check_string_list fuel property_name
      | T_START_OBJECT =>
          warn_at token [Lit "Unexpected sub-object in string list"] ;;;
          _skip_structure fuel (Token.kind token) ;;;
          _check_string_list fuel property_name
      | T_START_UNITS =>
          warn_at token [Lit "Unexpected units block in string list"] ;;;
          _skip_structure fuel (Token.kind token) ;;;
          _check_string_list fuel property_name
      | T_END_OBJECT | T_END_UNITS => mismatch token
      | _ =>
          warn_at token [Lit "Non-string token in string list"] ;;;
          _check_string_list fuel property_name
      end
  end.

(** [properties = self._get_properties(property_name)] *)
Definition get_properties (property_name : pystr) : M t (gmap pystr PropertyDef) :=
  match _get_properties h property_name with
  | Some properties => ret properties
  | None => raise RuntimeError
  end.

(** The value of a [COLOR] property given as a string is accepted. *)
Definition color_ok (value : pystr) : bool :=
  bool_decide (value ∈ _X11_COLORS)
  || (bool_decide (length value ∈ [4; 7; 9])
      && match Re.match_ _COLOR_REGEX value 0 with Some _ => true | None => false end).

(** [_check_object_loop] is the [while True] loop of [_check_object],
    [_check_value_type] the [match data_type] of [_check_value]; it
    returns [is_match]. *)
Fixpoint _check_object_loop (fuel : nat) (object_name : pystr) (open_token : Token.t)
    (properties : gmap pystr PropertyDef) (disposition : Disposition)
    (parsed_properties : gset pystr) {struct fuel} : M t unit :=
  match fuel with
  | O => out_of_fuel
  | S fuel =>
      token <- next_token ;;;
      match Token.lex token with
      | T_NAME value =>
          (if bool_decide (value ∈ parsed_properties)
           then warn_at token [Lit "Duplicate property "; Str value]
           else ret tt) ;;;
          match properties !! value with
          | None =>
              warn_at token [Lit "Unknown property "; Str value] ;;;
              _skip_value fuel
          | Some (data_type, unit_type) =>
              _check_value fuel object_name value data_type unit_type
          end ;;;
          _check_object_loop fuel object_name open_token properties disposition
            ({[value]} ∪ parsed_properties)
      | T_END_OBJECT =>
          emit (_check_properties h object_name open_token parsed_properties disposition)
      | T_END_ARRAY | T_END_UNITS => mismatch token
      | _ =>
          warn_at token [Lit "Expected property"] ;;;
          _push_back token ;;;
          _skip_value fuel ;;;
          _check_object_loop fuel object_name open_token properties disposition
            parsed_properties
      end
  end

with _check_value_type (fuel : nat) (object_name property_name : pystr)
    (data_type : DataType) (token : Token.t) {struct fuel} : M t bool :=
  match fuel with
  | O => out_of_fuel
  | S fuel =>
      let expected (what : string) : M t bool :=
        warn_at token [Lit what; Str property_name] ;;;
        ret false in
      match data_type, Token.lex token with
      | DT_BOOLEAN, T_BOOLEAN _ => ret true
      | DT_BOOLEAN, _ => expected "Expected a boolean for "
      | DT_NUMBER, T_NUMBER value =>
          validate_number object_name property_name token value ;;; ret true
      | DT_NUMBER, _ => expected "Expected a number for "
      | DT_VECTOR, T_START_ARRAY =>
          _check_vector fuel property_name (Count 3) ;;; ret true
      | DT_VECTOR, _ => expected "Expected a vector for "
      | DT_QUATERNION, T_START_ARRAY =>
          _check_vector fuel property_name (Count 4) ;;; ret true
      | DT_QUATERNION, _ => expected "Expected a quaternion for "
      | DT_STRING, T_STRING value =>
          validate_string object_name property_name token value ;;; ret true
      | DT_STRING, _ => expected "Expected a string for "
      | DT_OBJECT, T_START_OBJECT =>
          properties <- get_properties property_name ;;;
          _check_object_loop fuel property_name token properties ADD ∅ ;;; ret true
      | DT_OBJECT, _ => expected "Expected an object for "
      | DT_DATE, T_STRING value =>
          (if _check_date_string value then ret tt
           else warn_at token [Lit "Invalid date string for "; Str property_name]) ;;;
          ret true
      | DT_DATE, T_NUMBER _ => ret true
      | DT_DATE, _ => expected "Expected either number or date string for "
      | DT_NUMBER_OR_STRING, T_NUMBER value =>
          validate_number object_name property_name token value ;;; ret true
      | DT_NUMBER_OR_STRING, T_STRING value =>
          validate_string object_name property_name token value ;;; ret true
      | DT_NUMBER_OR_STRING, _ => expected "Expected either number or string for "
      | DT_STRING_LIST, T_START_ARRAY =>
          _check_string_list fuel property_name ;;; ret true
      | DT_STRING_LIST, T_STRING _ => ret true
      | DT_STRING_LIST, _ => expected "Expected either string or string list for "
      | DT_OBJECT_LIST, T_START_ARRAY =>
          properties <- get_properties property_name ;;;
          _check_object_list fuel property_name properties ;;; ret true
      | DT_OBJECT_LIST, _ => expected "Expected an array for "
      | DT_VECTOR_OR_OBJECT, T_START_ARRAY =>
          _check_vector fuel property_name (Count 3) ;;; ret true
      | DT_VECTOR_OR_OBJECT, T_START_OBJECT =>
          properties <- get_properties property_name ;;;
          _check_object_loop fuel property_name token properties ADD ∅ ;;; ret true
      | DT_VECTOR_OR_OBJECT, _ => expected "Expected either vector or object for "
      | DT_COLOR, T_STRING value =>
          (if color_ok value then ret tt
           else warn_at token
                  [Lit "Could not parse "; Repr value; Lit " as a valid color"]) ;;;
          ret true
      | DT_COLOR, T_START_ARRAY =>
          _check_vector fuel (py "__color") (Between 3 4) ;;; ret true
      | DT_COLOR, _ => expected "Expected either color vector or string for "
      end
  end

with _check_value (fuel : nat) (object_name property_name : pystr)
    (data_type : DataType) (units_type : option UnitsType) {struct fuel} : M t unit :=
  match fuel with
  | O => out_of_fuel
  | S fuel =>
      token <- next_token ;;;
      token <- (match Token.lex token with
                | T_START_UNITS =>
                    match units_type with
                    | None =>
                        warn_at token [Lit "Units ignored for "; Str property_name] ;;;
                        _skip_structure fuel (Token.kind token)
                    | Some units_type => _check_units fuel units_type
                    end ;;;
                    next_token
                | _ => ret token
                end) ;;;
      match Token.lex token with
      | T_END_ARRAY | T_END_UNITS => mismatch token
      | T_END_OBJECT =>
          warn_at token [Lit "Expected value, got end of object"] ;;;
          _push_back token
      | _ =>
          is_match <- _check_value_type fuel object_name property_name data_type token ;;;
          if is_match then ret tt
          else
            _push_back token ;;;
            match Token.lex token with
            | T_NAME _ => ret tt
            | _ => _skip_value fuel
            end
      end
  end

with _check_object_list (fuel : nat) (object_name : pystr)
    (properties : gmap pystr PropertyDef) {struct fuel} : M t unit :=
  match fuel with
  | O => out_of_fuel
  | S fuel =>
      token <- next_token ;;;
      match Token.lex token with
      | T_START_OBJECT =>
          _check_object_loop fuel object_name token properties ADD ∅ ;;;
          _check_object_list fuel object_name properties
      | T_END_ARRAY => ret tt
      | T_END_OBJECT | T_END_UNITS => mismatch token
      | _ =>
          warn_at token [Lit "Expected object"] ;;;
          _push_back token ;;;
          _skip_value fuel ;;;
          _check_object_list fuel object_name properties
      end
  end.

Definition _check_object (fuel : nat) (object_name : pystr) (open_token : Token.t)
    (properties : gmap pystr PropertyDef) (disposition : Disposition) : M t unit :=
  _check_object_loop fuel object_name open_token properties disposition ∅.

End Engine.

(** The methods of the base class that a format parser may override. *)
Definition base_validate_string (object_name property_name : pystr) (token : Token.t)
    (value : pystr) : list ParsingMessage.t :=
  if pystr_eqb property_name (py "Mesh") then
    if is_mesh_file value then []
    else [warning token [Lit "Bad mesh filename "; Repr value]]
  else if pystr_eqb property_name (py "Texture") then
    if is_texture_file value then []
    else [warning token [Lit "Bad texture filename "; Repr value]]
  else [].

Definition base_validate_number (object_name property_name : pystr) (token : Token.t)
    (value : number) : list ParsingMessage.t :=
  if mem property_name [py "Radius"; py "Temperature"; py "Mass"] then
    if num_le_0 value
    then [warning token [Str property_name; Lit " must be strictly positive"]]
    else []
  else if pystr_eqb property_name (py "[]") then
    (if pystr_eqb object_name (py "__color") then
       if num_lt_0 value || num_gt_1 value
       then [warning token [Lit "Color elements must be in range [0, 1]"]]
       else []
     else [])
    ++
    (if pystr_eqb object_name (py "SemiAxes") then
       if num_le_0 value
       then [warning token [Lit "SemiAxes element must be strictly positive"]]
       else []
     else [])
  else [].

Definition base : Hooks := {|
  _get_properties := fun _ => None;
  _validate_string := base_validate_string;
  _validate_number := base_validate_number;
  _check_properties := fun _ _ _ _ => []
|}.

End TokenFileParser.

Import TokenFileParser.

(** ** Vocabulary of the statements *)

(** [pulls tk tokens tk']: the next calls of [__next__] on the tokenizer
    [tk] return [tokens], one after the other, and leave it as [tk']. *)
Inductive pulls : Tokenizer.t -> list Token.t -> Tokenizer.t -> Prop :=
| pulls_nil tk : pulls tk [] tk
| pulls_cons tk token tk1 tokens tk2 :
    Tokenizer.__next__ tk = (Return token, tk1) ->
    pulls tk1 tokens tk2 ->
    pulls tk (token :: tokens) tk2.

Definition is_number (token : Token.t) : Prop :=
  match Token.lex token with T_NUMBER _ => True | _ => False end.

(** The diagnostics that [_validate_number] appends for the elements of the
    vector [property_name]. *)
Definition element_messages (h : Hooks) (property_name : pystr) (tokens : list Token.t)
    : list ParsingMessage.t :=
  flat_map
    (fun token =>
       match Token.lex token with
       | T_NUMBER value => _validate_number h property_name (py "[]") token value
       | _ => []
       end)
    tokens.

(** [#] followed by hexadecimal digits only, 3, 6 or 8 of them. *)
Definition hex_color (value : pystr) : Prop :=
  exists ds, value = ch "#" :: ds /\ forallb is_hex ds = true /\ length ds ∈ [3; 6; 8].

(** [j] repetitions are allowed by the upper bound [hi]. *)
Definition within (hi : option nat) (j : nat) : Prop :=
  match hi with Some n => j <= n | None => True end.

(** The warning of [_check_value] for a string that is no color. *)
Definition color_warning (token : Token.t) (value : pystr) : ParsingMessage.t :=
  warning token [Lit "Could not parse "; Repr value; Lit " as a valid color"].







Definition escape_char (c : char) : Prop :=
  c = 34%N \/ c = ch "\" \/ c = ch "n" \/ c = ch "u".

Definition hex_value (hs : pystr) : N :=
  fold_left (fun a c => 16 * a + Tokenizer.hex_val c)%N hs 0%N.

Definition is_surrogate (v : N) : bool := ((55296 <=? v) && (v <=? 57343))%N.

(** The least number of characters that a match of [r] takes. *)
Fixpoint min_len (r : Re.re) : nat :=
  match r with
  | Re.Chr _ | Re.Cls _ => 1
  | Re.Rep _ lo _ => lo
  | Re.Seq a b => min_len a + min_len b
  | Re.Alt a b => Nat.min (min_len a) (min_len b)
  | Re.Opt _ => 0
  | Re.Grp _ a => min_len a
  | Re.Bos | Re.Eos => 0
  end.

Definition lt2 (a b : nat * nat) : Prop :=
  fst a < fst b \/ (fst a = fst b /\ snd a < snd b).
Definition le2 (a b : nat * nat) : Prop :=
  fst a < fst b \/ (fst a = fst b /\ snd a <= snd b).

(** The position of the tokenizer, of a diagnostic, of a token. *)
Definition cur (tk : Tokenizer.t) : nat * nat :=
  (Tokenizer.line_number tk, Tokenizer.pos tk).
Definition tkey (token : Token.t) : nat * nat := (Token.line token, Token.pos token).

Definition is_warning (m : ParsingMessage.t) : Prop := ParsingMessage.level m = WARN.

(** The three fatal conditions of the Tokenizer. *)
Definition fatal (message : text) : Prop :=
  message = [Lit "Unterminated string"]
  \/ message = [Lit "Unterminated escape sequence"]
  \/ message = [Lit "Unterminated Unicode escape"].

(** What a call of a method of the Tokenizer does to the position and to
    the diagnostics: the position does not go back; diagnostics are only
    appended, at or after the position the call started from; they are
    warnings, except that a [ParsingError] comes with one error, appended
    last, at the position the tokenizer is left at. *)
Definition lexer_step {A} (Q : A -> Tokenizer.t -> Prop) (tk : Tokenizer.t)
    (res : result A * Tokenizer.t) : Prop :=
  let '(r, tk') := res in
  le2 (cur tk) (cur tk')
  /\ exists added,
       Tokenizer.messages tk' = Tokenizer.messages tk ++ added
       /\ Forall (fun m => le2 (cur tk) (key m)) added
       /\ match r with
          | Return a => Forall is_warning added /\ Q a tk'
          | Raise (ParsingError message) =>
              exists w,
                added = w ++ [ParsingMessage.mk (Tokenizer.line_number tk')
                                (Tokenizer.pos tk') ERROR message]
                /\ Forall is_warning w /\ fatal message
          | _ => Forall is_warning added
          end.

Definition anything {A} : A -> Tokenizer.t -> Prop := fun _ _ => True.

(** The token that a call returns starts before the position the tokenizer
    is left at. *)
Definition token_behind (token : Token.t) (tk : Tokenizer.t) : Prop :=
  lt2 (tkey token) (cur tk).

Definition option_behind (r : option Token.t) (tk : Tokenizer.t) : Prop :=
  match r with Some token => token_behind token tk | None => True end.

Definition is_ParsingError_result {A} (r : result A) : bool :=
  match r with Raise e => is_ParsingError e | _ => false end.










(** [c'] does what [c] does on every state on which [c] ends within its
    fuel. *)
Definition refines {S A} (c c' : M S A) : Prop :=
  forall s, fst (c s) <> OutOfFuel -> c' s = c s.

(** A call that ends: it returns a value that satisfies [Q], or raises. *)
Definition ends {A} (Q : A -> Tokenizer.t -> Prop) (res : result A * Tokenizer.t) : Prop :=
  match fst res with
  | Return a => Q a (snd res)
  | Raise _ => True
  | OutOfFuel => False
  end.

(** The call uses up none of what is left to read, or some of it. *)
Definition no_more (tk : Tokenizer.t) {A} : A -> Tokenizer.t -> Prop :=
  fun _ tk' => Tokenizer.remaining tk' <= Tokenizer.remaining tk.
Definition less (tk : Tokenizer.t) {A} : A -> Tokenizer.t -> Prop :=
  fun _ tk' => Tokenizer.remaining tk' < Tokenizer.remaining tk.

(** The value of the body of a string literal that lies on one line and
    holds ordinary characters and the escapes for the quote, the backslash
    and the line feed; [None] for any other body. *)
Fixpoint decode (body : pystr) : option pystr :=
  match body with
  | [] => Some []
  | c :: rest =>
      if (c =? ch "\")%N then
        match rest with
        | e :: rest' =>
            if ((e =? 34) || (e =? ch "\"))%N then cons e <$> decode rest'
            else if (e =? ch "n")%N then cons 10%N <$> decode rest'
            else None
        | [] => None
        end
      else if ((c =? 34) || (c =? 65533))%N then None
      else cons c <$> decode rest
  end.

(** The turns that the loop of [_read_string] takes on such a body. *)
Fixpoint turns (body : pystr) : nat :=
  match body with
  | [] => 0
  | c :: rest =>
      if (c =? ch "\")%N then
        match rest with
        | _ :: rest' => S (turns rest')
        | [] => 1
        end
      else S (turns rest)
  end.

(** The token that [__next__] makes of the text of a name. *)
Definition name_lexeme (name : pystr) : lexeme :=
  if pystr_eqb name (py "false") then T_BOOLEAN false
  else if pystr_eqb name (py "true") then T_BOOLEAN true
  else T_NAME name.

(** The characters that [__next__] handles by themselves: blank, tab, [#],
    the quote and the eight punctuation tokens. *)
Definition is_special (c : char) : bool :=
  ((c =? 9) || (c =? ch " ") || (c =? ch "#") || (c =? 34)
   || (c =? ch "{") || (c =? ch "}") || (c =? ch "[") || (c =? ch "]")
   || (c =? ch "<") || (c =? ch ">") || (c =? ch "=") || (c =? ch "|"))%N.

(** The warning of [__next__] for a character that starts no token. *)
Definition unexpected_character (ln pos : nat) (c : char) : ParsingMessage.t :=
  ParsingMessage.mk ln pos WARN [Lit "Unexpected character "; Repr [c]; Lit " in file"].

(** The token that a call started at [start] returns lies at or after
    [start] and before the position the tokenizer is left at. *)
Definition token_from (start : nat * nat) (token : Token.t) (tk : Tokenizer.t) : Prop :=
  le2 start (tkey token) /\ lt2 (tkey token) (cur tk).

Definition option_from (start : nat * nat) (r : option Token.t) (tk : Tokenizer.t) : Prop :=
  match r with Some token => token_from start token tk | None => True end.

(** The order of the diagnostics in the report. *)
Definition before (a b : ParsingMessage.t) : Prop := le2 (key a) (key b).

(** A list of diagnostics in the order of the report: each one comes
    before all those that follow it. *)
Fixpoint ordered (l : list ParsingMessage.t) : Prop :=
  match l with
  | [] => True
  | m :: l' => Forall (before m) l' /\ ordered l'
  end.

(** The diagnostics of a list that lie at the position [k], in the order of
    the list. *)
Definition at_key (k : nat * nat) (l : list ParsingMessage.t) : list ParsingMessage.t :=
  filter (fun m => key m = k) l.

(** The bracket that a token opens or closes. *)
Definition opens (token : Token.t) : option TokenKind :=
  match Token.lex token with
  | T_START_OBJECT => Some START_OBJECT
  | T_START_ARRAY => Some START_ARRAY
  | T_START_UNITS => Some START_UNITS
  | _ => None
  end.

Definition closes (token : Token.t) : option TokenKind :=
  match Token.lex token with
  | T_END_OBJECT => Some START_OBJECT
  | T_END_ARRAY => Some START_ARRAY
  | T_END_UNITS => Some START_UNITS
  | _ => None
  end.

(** Tokens whose brackets are well nested: every bracket is closed by the
    token of its kind, and nothing is closed that was not opened. *)
Inductive balanced : list Token.t -> Prop :=
| balanced_nil : balanced []
| balanced_token token tokens :
    opens token = None -> closes token = None ->
    balanced tokens -> balanced (token :: tokens)
| balanced_bracket opening inner closing tokens kind :
    opens opening = Some kind -> closes closing = Some kind ->
    balanced inner -> balanced tokens ->
    balanced (opening :: inner ++ closing :: tokens).

(** The error of the engine for a closing bracket of the wrong kind. *)
Definition mismatched (token : Token.t) : ParsingMessage.t :=
  ParsingMessage.mk (Token.line token) (Token.pos token) ERROR [Lit "Mismatched nesting"].

(** The warning of [_check_vector] for a number of elements outside the
    range from [lo] to [hi]. *)
Definition count_warning (lo hi : nat) (close : Token.t) (n : nat) : list ParsingMessage.t :=
  if (lo <=? n) && (n <=? hi) then []
  else [warning close [Lit "Expected "; Pair (Z.of_nat lo) (Z.of_nat hi);
                       Lit " elements in vector, found "; Num (Z.of_nat n)]].

Definition is_name (token : Token.t) : Prop :=
  match Token.lex token with T_NAME _ => True | _ => False end.

(** The diagnostics of [_check_units] for the unit names of a block;
    [has_unit] tells whether a name came before. *)
Fixpoint unit_messages (expected_units : UnitsType) (has_unit : bool)
    (names : list Token.t) : list ParsingMessage.t :=
  match names with
  | [] => []
  | token :: names' =>
      match Token.lex token with
      | T_NAME value =>
          match _UNIT_TYPES !! value with
          | None => [warning token [Lit "Unknown unit type "; Str value]]
          | Some actual_units =>
              if negb (bool_decide (actual_units = expected_units))
              then [warning token [Lit "Unexpected unit type "; Str value; Lit " ignored"]]
              else if has_unit then [warning token [Lit "Multiple units found"]]
              else []
          end
      | _ => []
      end ++ unit_messages expected_units true names'
  end.

(** The diagnostics of a history that went to [tokenizer.messages], and
    those that went to [_messages]. *)
Definition lexer_part (lg : list (origin * ParsingMessage.t)) : list ParsingMessage.t :=
  flat_map (fun x => match fst x with Lexer => [snd x] | Engine => [] end) lg.

Definition engine_part (lg : list (origin * ParsingMessage.t)) : list ParsingMessage.t :=
  flat_map (fun x => match fst x with Engine => [snd x] | Lexer => [] end) lg.

(** A history in which every diagnostic of the tokenizer lies strictly
    after the diagnostics that the parser appended before it. *)
Fixpoint separated (lg : list (origin * ParsingMessage.t)) : Prop :=
  match lg with
  | [] => True
  | (Lexer, _) :: lg' => separated lg'
  | (Engine, m) :: lg' =>
      Forall (fun m' => lt2 (key m) (key m')) (lexer_part lg') /\ separated lg'
  end.

(** The history agrees with the two lists of the parser. *)
Definition good (p : TokenFileParser.t) : Prop :=
  lexer_part (emitted p) = Tokenizer.messages (tokenizer p)
  /\ engine_part (emitted p) = _messages p
  /\ separated (emitted p).

(** The parser's diagnostics and the token it saved lie before the
    position of the tokenizer. *)
Definition ready (p : TokenFileParser.t) : Prop :=
  Forall (fun m => lt2 (key m) (cur (tokenizer p))) (_messages p)
  /\ option_behind (saved_token p) (tokenizer p).

(** The last diagnostic of the parser is the error [message]. *)
Definition error_last (message : text) (p : TokenFileParser.t) : Prop :=
  exists ms line pos,
    _messages p = ms ++ [ParsingMessage.mk line pos ERROR message].

(** What a call of a method of the parser keeps: the tokenizer does not go
    back, the history stays [good]; when the call returns, the state is
    [ready] for the next call; when it raises [ParsingError], the error is
    the last diagnostic of the parser. *)
Definition engine_step {A} (Q : A -> TokenFileParser.t -> Prop) (p : TokenFileParser.t)
    (res : result A * TokenFileParser.t) : Prop :=
  let '(r, p') := res in
  le2 (cur (tokenizer p)) (cur (tokenizer p'))
  /\ good p'
  /\ match r with
     | Return a => ready p' /\ Q a p'
     | Raise (ParsingError message) => error_last message p'
     | _ => True
     end.

(** The diagnostics of the hooks of a format parser lie at the token they
    are given. *)
Definition hooks_at_token (h : Hooks) : Prop :=
  (forall object_name property_name token value,
     Forall (fun m => key m = tkey token)
       (_validate_string h object_name property_name token value))
  /\ (forall object_name property_name token value,
        Forall (fun m => key m = tkey token)
          (_validate_number h object_name property_name token value))
  /\ (forall object_name open_token parsed_properties disposition,
        Forall (fun m => key m = tkey open_token)
          (_check_properties h object_name open_token parsed_properties disposition)).

Definition any {A} : A -> TokenFileParser.t -> Prop := fun _ _ => True.

Definition behind_tokenizer (token : Token.t) (p : TokenFileParser.t) : Prop :=
  token_behind token (tokenizer p).

(** ** The parser of DSC files (dscparse.py) *)

Module DSCParser.

Definition _COMMON_PROPERTIES : gmap pystr PropertyDef :=
  list_to_map
    [ (py "Position", (DT_VECTOR, Some LENGTH));
      (py "RA", (DT_NUMBER, Some ANGLE));
      (py "Dec", (DT_NUMBER, Some ANGLE));
      (py "Distance", (DT_NUMBER, Some LENGTH));
      (py "Axis", (DT_VECTOR, None));
      (py "Angle", (DT_NUMBER, Some ANGLE));
      (py "Radius", (DT_NUMBER, Some LENGTH));
      (py "AbsMag", (DT_NUMBER, None));
      (py "InfoURL", (DT_STRING, None));
      (py "Visible", (DT_BOOLEAN, None));
      (py "Clickable", (DT_BOOLEAN, None)) ].

(** [a | b]: the entries of [b], and those of [a] under the other keys. *)
Definition _GALAXY_PROPERTIES : gmap pystr PropertyDef :=
  list_to_map
    [ (py "Detail", (DT_NUMBER, None));
      (py "Type", (DT_STRING, None));
      (py "CustomTemplate", (DT_STRING, None)) ]
  ∪ _COMMON_PROPERTIES.

Definition _GLOBULAR_PROPERTIES : gmap pystr PropertyDef :=
  list_to_map
    [ (py "Detail", (DT_NUMBER, None));
      (py "CoreRadius", (DT_NUMBER, Some ANGLE));
      (py "KingConcentration", (DT_NUMBER, None)) ]
  ∪ _COMMON_PROPERTIES.

Definition _NEBULA_PROPERTIES : gmap pystr PropertyDef :=
  list_to_map [ (py "Mesh", (DT_STRING, None)) ] ∪ _COMMON_PROPERTIES.

Definition _OPEN_CLUSTER_PROPERTIES : gmap pystr PropertyDef := _COMMON_PROPERTIES.

Definition _DSO_PROPERTIES : gmap pystr (gmap pystr PropertyDef) :=
  list_to_map
    [ (py "Galaxy", _GALAXY_PROPERTIES);
      (py "Globular", _GLOBULAR_PROPERTIES);
      (py "OpenCluster", _OPEN_CLUSTER_PROPERTIES);
      (py "Nebula", _NEBULA_PROPERTIES) ].

Definition _GALAXY_TYPES : gset pystr :=
  list_to_set
    [ py "Irr"; py "S0"; py "Sa"; py "Sb"; py "Sc"; py "SBa"; py "SBb"; py "SBc";
      py "E0"; py "E1"; py "E2"; py "E3"; py "E4"; py "E5"; py "E6"; py "E7" ].

Definition _validate_string (object_name property_name : pystr) (token : Token.t)
    (value : pystr) : list ParsingMessage.t :=
  if pystr_eqb object_name (py "Galaxy") && pystr_eqb property_name (py "Type") then
    if bool_decide (value ∈ _GALAXY_TYPES) then []
    else [warning token [Lit "Invalid galaxy type "; Repr value]]
  else base_validate_string object_name property_name token value.

Definition _check_properties (object_name : pystr) (open_token : Token.t)
    (parsed_properties : gset pystr) (disposition : Disposition)
    : list ParsingMessage.t :=
  let has name := bool_decide (py name ∈ parsed_properties) in
  (if has "Position" then
     (if has "RA" then [warning open_token [Lit "Position specified: RA ignored"]] else [])
     ++ (if has "Dec" then [warning open_token [Lit "Position specified, Dec ignored"]]
         else [])
     ++ (if has "Distance"
         then [warning open_token [Lit "Position specified, Distance ignored"]] else [])
   else if negb (has "RA" && has "Dec" && has "Distance") then
     [warning open_token
        [Lit "No position information specified, specify either RA/Dec/Distance or Position"]]
   else [])
  ++ (if negb (has "Radius") then [warning open_token [Lit "Missing Radius property"]]
      else [])
  ++ (if negb (pystr_eqb object_name (py "OpenCluster")) && negb (has "AbsMag")
      then [warning open_token [Lit "Missing AbsMag property"]] else [])
  ++ (if pystr_eqb object_name (py "Galaxy") && negb (has "Type")
      then [warning open_token [Lit "Missing Type property"]] else []).

(** The methods of [DSCParser]; [_get_properties] and [_validate_number]
    are those of the base class. *)
Definition hooks : Hooks :=
  Build_Hooks (fun _ => None) _validate_string base_validate_number _check_properties.

(** [parse]; each turn of the loop reads one object.  The third call of
    [_next_token] gives no message: the text of its error is [None], which
    prints as [None]. *)
Fixpoint parse (fuel : nat) : M TokenFileParser.t unit :=
  match fuel with
  | O => out_of_fuel
  | S fuel =>
      token <- _next_token None [] false true ;;;
      match token with
      | None => ret tt
      | Some token =>
          match Token.lex token with
          | T_NAME object_type =>
              let dso_properties := _DSO_PROPERTIES !! object_type in
              match dso_properties with
              | None => warn_at token [Lit "Unknown DSO type "; Str object_type]
              | Some _ => ret tt
              end ;;;
              token <- _next_token (Some STRING) [Lit "Expected DSO name"] false false ;;;
              match token with
              | None => raise AttributeError
              | Some token =>
                  (if bool_decide (Token.kind token = STRING) then ret tt
                   else TokenFileParser._error (Token.line token) (Token.pos token)
                          [Lit "Expected DSO name"]) ;;;
                  token <- _next_token (Some START_OBJECT) [Lit "None"] true false ;;;
                  match token with
                  | None => raise AttributeError
                  | Some token =>
                      match dso_properties with
                      | None => _skip_structure fuel (Token.kind token)
                      | Some dso_properties =>
                          _check_object hooks fuel object_type token dso_properties ADD
                      end ;;;
                      parse fuel
                  end
              end
          | _ =>
              TokenFileParser._error (Token.line token) (Token.pos token)
                [Lit "Expected DSO type"]
          end
      end
  end.

End DSCParser.

(** ** The driver (validate.py) *)

(** [message.level > MessageLevel.INFO] *)
Definition above_INFO (m : ParsingMessage.t) : bool :=
  match ParsingMessage.level m with INFO => false | _ => true end.

(** [_process_messages]: the diagnostics printed, in the order of the
    report, and the exit code. *)
Definition _process_messages (messages : list ParsingMessage.t) (is_verbose : bool)
    : list ParsingMessage.t * Z :=
  fold_left
    (fun '(printed, exit_code) message =>
       (if is_verbose || above_INFO message then printed ++ [message] else printed,
        if above_INFO message then 1%Z else exit_code))
    messages ([], 0%Z).

(** [_process_file] for a parser whose [parse] is [parse]: a
    [ParsingError] is dropped, any other exception goes on. *)
Definition _process_file (parse : M TokenFileParser.t unit) (text : list pystr)
    (is_verbose : bool) : result (list ParsingMessage.t * Z) :=
  let '(r, parser) := parse (__init__ text) in
  match r with
  | Return _ | Raise (ParsingError _) =>
      Return (_process_messages (messages parser) is_verbose)
  | Raise e => Raise e
  | OutOfFuel => OutOfFuel
  end.

(** * Properties *)


Section EngineSteps.

Lemma next_token_saved p token :
  saved_token p = Some token ->
  next_token p = (Return token, mk (tokenizer p) (_messages p) None (emitted p)).
Proof.
  intros Hs. unfold next_token, _next_token, bind, get. rewrite Hs. reflexivity.
Qed.

Lemma next_token_pull p token tk :
  saved_token p = None ->
  Tokenizer.__next__ (tokenizer p) = (Return token, tk) ->
  next_token p
  = (Return token, mk tk (_messages p) None (emitted p ++ lexed (tokenizer p) tk)).
Proof.
  intros Hs Hn. unfold next_token, _next_token, bind, get, next_or_None.
  rewrite Hs, Hn. cbn. rewrite Hs. reflexivity.
Qed.

Lemma next_token_pull' tk ms lg token tk' :
  Tokenizer.__next__ tk = (Return token, tk') ->
  next_token (mk tk ms None lg) = (Return token, mk tk' ms None (lg ++ lexed tk tk')).
Proof. intros Hn. apply (next_token_pull (mk tk ms None lg)); auto. Qed.

Context {A : Type}.
Implicit Types (k : unit -> M t A) (tk : Tokenizer.t) (ms : list ParsingMessage.t)
  (sv : option Token.t) (lg : list (origin * ParsingMessage.t)).

Lemma bind_ret {B} (b : B) (k' : B -> M t A) s : bind (ret b) k' s = k' b s.
Proof. reflexivity. Qed.

Lemma bind_bind {B C} (c : M t B) (k1 : B -> M t C) (k2 : C -> M t A) s :
  bind (bind c k1) k2 s = bind c (fun b => bind (k1 b) k2) s.
Proof. unfold bind. destruct (c s) as [[b| |] s']; reflexivity. Qed.

Lemma bind_emit l k tk ms sv lg :
  bind (emit l) k (mk tk ms sv lg)
  = k tt (mk tk (ms ++ l) sv (lg ++ map (pair Engine) l)).
Proof. reflexivity. Qed.

Lemma bind_warn_at token message k tk ms sv lg :
  bind (warn_at token message) k (mk tk ms sv lg)
  = k tt (mk tk (ms ++ [warning token message]) sv
            (lg ++ [(Engine, warning token message)])).
Proof. reflexivity. Qed.

Lemma bind_push_back token k tk ms sv lg :
  bind (_push_back token) k (mk tk ms sv lg) = k tt (mk tk ms (Some token) lg).
Proof. reflexivity. Qed.

Lemma bind_next_token_saved token (k' : Token.t -> M t A) tk ms lg :
  bind next_token k' (mk tk ms (Some token) lg) = k' token (mk tk ms None lg).
Proof. unfold bind. rewrite (next_token_saved _ token) by reflexivity. reflexivity. Qed.

Lemma bind_next_token_pull token tk' (k' : Token.t -> M t A) tk ms lg :
  Tokenizer.__next__ tk = (Return token, tk') ->
  bind next_token k' (mk tk ms None lg) = k' token (mk tk' ms None (lg ++ lexed tk tk')).
Proof. intros H. unfold bind. rewrite (next_token_pull' _ _ _ _ _ H). reflexivity. Qed.

Lemma mismatch_eq token tk ms sv lg :
  mismatch (A:=A) token (mk tk ms sv lg)
  = (let m := ParsingMessage.mk (Token.line token) (Token.pos token) ERROR
                [Lit "Mismatched nesting"] in
     (Raise (ParsingError [Lit "Mismatched nesting"]),
      mk tk (ms ++ [m]) sv (lg ++ [(Engine, m)]))).
Proof. reflexivity. Qed.

End EngineSteps.

(** A step of the engine on a state whose next token is known. *)
Ltac pull H :=
  rewrite (bind_next_token_pull _ _ _ _ _ _ H); cbn [Token.lex Token.kind kind_of].

(** The steps that read no token. *)
Ltac steps :=
  repeat first
    [ rewrite bind_warn_at | rewrite bind_emit | rewrite bind_push_back
    | rewrite bind_ret | rewrite bind_next_token_saved ];
  cbn [Token.lex Token.kind kind_of].

Lemma _check_vector_loop_numbers h property_name n nums :
  forall fuel tk ms lg k close tk',
    Forall is_number nums ->
    Token.lex close = T_END_ARRAY ->
    pulls tk (nums ++ [close]) tk' ->
    length nums < fuel ->
    exists lg',
      _check_vector_loop h fuel property_name (Count n) k (mk tk ms None lg)
      = (if k + length nums =? n then Return tt else Raise TypeError,
         mk tk' (ms ++ element_messages h property_name nums) None lg').
Proof.
  induction nums as [|tok nums IH]; intros fuel tk ms lg k close tk' Hnum Hclose Hp Hfuel.
  - destruct fuel as [|fuel]; [cbn in Hfuel; lia|].
    inversion Hp as [|? ? ? ? ? Hn Hp']; subst. inversion Hp'; subst.
    eexists. cbn [_check_vector_loop]. pull Hn. rewrite Hclose.
    cbn [element_messages flat_map length]. rewrite app_nil_r, Nat.add_0_r.
    destruct (k =? n); reflexivity.
  - destruct fuel as [|fuel]; [cbn in Hfuel; lia|].
    inversion Hp as [|? ? ? ? ? Hn Hp']; subst.
    inversion Hnum as [|? ? Htok Hnum']; subst.
    cbn [_check_vector_loop].
    unfold is_number in Htok.
    destruct (Token.lex tok) eqn:Hlex; try contradiction.
    edestruct (IH fuel tk1) as [lg' IH']; [exact Hnum'|exact Hclose|exact Hp'| |].
    { cbn in Hfuel. lia. }
    exists lg'. pull Hn. rewrite Hlex. unfold validate_number. steps.
    rewrite IH'.
    cbn [length element_messages flat_map]. rewrite Hlex.
    rewrite <- app_assoc, Nat.add_succ_r. reflexivity.
Qed.

(** Reading the tokens of a concrete input. *)
Ltac pulls_now :=
  repeat (eapply pulls_cons; [vm_compute; reflexivity|]); apply pulls_nil.

(** ** C7: the units block [<mas>] of a property with length units *)

(** C7.  After the [<] of a units block, when the tokens that follow are
    the unit name [mas] and [>], [_check_units] for the category [LENGTH]
    returns normally and appends exactly one diagnostic, the warning
    "Unexpected unit type mas ignored" at the position of the name; the
    warning "Empty unit block" is not among the appended diagnostics. *)
Theorem C7_mas_for_length_one_warning :
  forall fuel tk ms lg name close tk',
    Token.lex name = T_NAME (py "mas") ->
    Token.lex close = T_END_UNITS ->
    pulls tk [name; close] tk' ->
    2 <= fuel ->
    let appended :=
      [warning name [Lit "Unexpected unit type "; Str (py "mas"); Lit " ignored"]] in
    (exists lg',
       _check_units fuel LENGTH (mk tk ms None lg)
       = (Return tt, mk tk' (ms ++ appended) None lg'))
    /\ ~ In (warning close [Lit "Empty unit block"]) appended.
Proof.
  intros fuel tk ms lg name close tk' Hname Hclose Hp Hfuel appended.
  inversion Hp as [|? ? ? ? ? Hn1 Hp1]; subst.
  inversion Hp1 as [|? ? ? ? ? Hn2 Hp2]; subst. inversion Hp2; subst.
  destruct fuel as [|[|fuel]]; try lia.
  split.
  - eexists. unfold _check_units. cbn [_check_units_loop].
    pull Hn1. rewrite Hname.
    replace (_UNIT_TYPES !! py "mas") with (Some ANGLE) by (vm_compute; reflexivity).
    rewrite bool_decide_eq_false_2 by discriminate. cbn [negb]. steps.
    pull Hn2. rewrite Hclose. reflexivity.
  - subst appended. intros [Heq|[]]. discriminate Heq.
Qed.

Lemma C7_mas_for_length_one_warning_witness :
  exists lg',
    _check_units 2 LENGTH (mk (Tokenizer.mk [] (py "<mas>") 1 1 []) [] None [])
    = (Return tt,
       mk (Tokenizer.mk [] (py "<mas>") 5 1 [])
          ([] ++ [warning (Token.mk (T_NAME (py "mas")) 1 1)
                    [Lit "Unexpected unit type "; Str (py "mas"); Lit " ignored"]])
          None lg').
Proof.
  refine (proj1 (C7_mas_for_length_one_warning 2 _ [] [] (Token.mk (T_NAME (py "mas")) 1 1)
                   (Token.mk T_END_UNITS 1 4) _ eq_refl eq_refl _ (le_n 2))).
  pulls_now.
Defined.

(** ** C2: a vector with a number of elements other than three *)

(** C2.  For a property declared [VECTOR] whose value is an array of [n]
    numbers with [n] other than 3, [_check_value] does not return: the test
    at the end of [_check_vector] subscripts the integer 3 and raises
    [TypeError].  The only diagnostics appended are those of
    [_validate_number] for the elements; no warning reports the count. *)
Theorem C2_vector_count_raises_TypeError :
  forall h fuel object_name property_name units_type tk ms lg opening nums close tk',
    Token.lex opening = T_START_ARRAY ->
    Forall is_number nums ->
    Token.lex close = T_END_ARRAY ->
    pulls tk (opening :: nums ++ [close]) tk' ->
    length nums <> 3 ->
    length nums + 3 <= fuel ->
    exists lg',
      _check_value h fuel object_name property_name DT_VECTOR units_type (mk tk ms None lg)
      = (Raise TypeError, mk tk' (ms ++ element_messages h property_name nums) None lg').
Proof.
  intros h fuel object_name property_name units_type tk ms lg opening nums close tk'
    Hopen Hnum Hclose Hp Hn Hfuel.
  inversion Hp as [|? ? ? ? ? Hn1 Hp1]; subst.
  destruct fuel as [|[|fuel]]; try lia.
  edestruct (_check_vector_loop_numbers h property_name 3 nums fuel tk1 ms
               (lg ++ lexed tk tk1) 0 close tk' Hnum Hclose Hp1) as [lg' Hloop]; [lia|].
  exists lg'.
  cbn [_check_value]. pull Hn1. rewrite Hopen. steps. rewrite Hopen.
  cbn [_check_value_type]. rewrite Hopen. unfold _check_vector.
  unfold bind at 1, bind at 1. rewrite Hloop.
  cbn [Nat.add]. destruct (length nums =? 3) eqn:E; [apply Nat.eqb_eq in E; lia|].
  reflexivity.
Qed.

Lemma C2_vector_count_raises_TypeError_witness :
  exists lg',
    _check_value base 5 (py "Galaxy") (py "Axis") DT_VECTOR None
      (mk (Tokenizer.__init__ [py "[1 2]"]) [] None [])
    = (Raise TypeError,
       mk (Tokenizer.mk [] (py "[1 2]") 5 1 [])
          ([] ++ element_messages base (py "Axis")
                   [Token.mk (T_NUMBER (Int 1)) 1 1; Token.mk (T_NUMBER (Int 2)) 1 3])
          None lg').
Proof.
  refine (C2_vector_count_raises_TypeError base 5 (py "Galaxy") (py "Axis") None _ [] []
            (Token.mk T_START_ARRAY 1 0)
            [Token.mk (T_NUMBER (Int 1)) 1 1; Token.mk (T_NUMBER (Int 2)) 1 3]
            (Token.mk T_END_ARRAY 1 4) _ eq_refl _ eq_refl _ _ _).
  - repeat constructor.
  - pulls_now.
  - cbn. lia.
  - cbn. lia.
Defined.

(** ** Regular expressions: what a repetition matches *)

Section Rep.
Context {R : Type}.
Implicit Types (k : pystr -> nat -> option R).

Lemma rep_Some p s : forall lo hi i k r,
  Re.rep p lo hi s i k = Some r ->
  exists j, lo <= j /\ within hi j /\ j <= length s
            /\ forallb p (firstn j s) = true /\ k (skipn j s) (i + j) = Some r.
Proof.
  induction s as [|c s IH]; intros lo hi i k r H.
  - cbn in H. destruct lo; [|discriminate].
    exists 0. rewrite Nat.add_0_r. repeat split; auto. destruct hi; cbn; lia.
  - assert (Hstop : match lo with 0 => k (c :: s) i | S _ => None end = Some r ->
                    exists j, lo <= j /\ within hi j /\ j <= length (c :: s)
                      /\ forallb p (firstn j (c :: s)) = true
                      /\ k (skipn j (c :: s)) (i + j) = Some r).
    { intros Hs. destruct lo; [|discriminate]. exists 0. rewrite Nat.add_0_r.
      repeat split; auto; [destruct hi; cbn; lia | cbn; lia]. }
    cbn [Re.rep] in H.
    destruct hi as [[|n]|]; auto.
    + destruct (p c) eqn:Hpc; auto.
      destruct (Re.rep p (Nat.pred lo) (option_map Nat.pred (Some (S n))) s (S i) k)
        as [r'|] eqn:Hrec; auto.
      injection H as <-. apply IH in Hrec as (j & Hlo & Hhi & Hlen & Hall & Hk).
      exists (S j). cbn in *. rewrite Hpc, Hall.
      replace (i + S j) with (S i + j) by lia. repeat split; auto; lia.
    + destruct (p c) eqn:Hpc; auto.
      destruct (Re.rep p (Nat.pred lo) (option_map Nat.pred None) s (S i) k)
        as [r'|] eqn:Hrec; auto.
      injection H as <-. apply IH in Hrec as (j & Hlo & Hhi & Hlen & Hall & Hk).
      exists (S j). cbn in *. rewrite Hpc, Hall.
      replace (i + S j) with (S i + j) by lia. repeat split; auto; lia.
Qed.

Lemma rep_None p s : forall lo hi i k,
  Re.rep p lo hi s i k = None ->
  forall j, lo <= j -> within hi j -> j <= length s ->
            forallb p (firstn j s) = true -> k (skipn j s) (i + j) = None.
Proof.
  induction s as [|c s IH]; intros lo hi i k H j Hlo Hhi Hlen Hall.
  - cbn in Hlen. assert (j = 0) by lia. subst. assert (lo = 0) by lia. subst.
    rewrite Nat.add_0_r. exact H.
  - cbn [Re.rep] in H.
    assert (Hstop : match lo with 0 => k (c :: s) i | S _ => None end = None ->
                    j = 0 -> k (skipn j (c :: s)) (i + j) = None).
    { intros Hs ->. assert (lo = 0) by lia. subst. rewrite Nat.add_0_r. exact Hs. }
    destruct j as [|j]; [destruct hi as [[|n]|]; [auto| |];
      (destruct (p c); auto;
       match type of H with match ?x with _ => _ end = _ => destruct x; [discriminate|auto] end)|].
    cbn in Hall, Hlen. destruct (p c) eqn:Hpc; [|discriminate].
    destruct hi as [[|n]|]; [cbn in Hhi; lia| |].
    + destruct (Re.rep p (Nat.pred lo) (option_map Nat.pred (Some (S n))) s (S i) k)
        eqn:Hrec; [discriminate|].
      replace (i + S j) with (S i + j) by lia.
      apply (IH _ _ _ _ Hrec); cbn in *; auto; lia.
    + destruct (Re.rep p (Nat.pred lo) (option_map Nat.pred None) s (S i) k)
        eqn:Hrec; [discriminate|].
      replace (i + S j) with (S i + j) by lia.
      apply (IH _ _ _ _ Hrec); cbn in *; auto; lia.
Qed.

(** A greedy repetition that can take the whole run [ds] and go on does so. *)
Lemma rep_greedy p ds : forall rest lo hi i k r,
  forallb p ds = true ->
  match rest with c :: _ => p c = false | [] => True end ->
  lo <= length ds -> within hi (length ds) ->
  k rest (i + length ds) = Some r ->
  Re.rep p lo hi (ds ++ rest) i k = Some r.
Proof.
  induction ds as [|c ds IH]; intros rest lo hi i k r Hall Hrest Hlo Hhi Hk.
  - cbn in *. assert (lo = 0) by lia. subst. rewrite Nat.add_0_r in Hk.
    destruct rest as [|c rest]; cbn; auto.
    rewrite Hrest. destruct hi as [[|n]|]; auto.
  - cbn in Hall. apply andb_prop in Hall as [Hpc Hall].
    cbn [app Re.rep]. rewrite Hpc.
    rewrite (IH rest (Nat.pred lo) (option_map Nat.pred hi) (S i) k r); auto.
    + destruct hi as [[|n]|]; auto. cbn in Hhi. lia.
    + cbn in Hlo. lia.
    + destruct hi as [n|]; cbn in *; auto. lia.
    + cbn in Hk. rewrite <- Hk. f_equal. lia.
Qed.

End Rep.

(** ** C9: colors given as strings *)

Lemma color_regex_spec value :
  (exists m, Re.match_ _COLOR_REGEX value 0 = Some m)
  <-> exists ds, forallb is_hex ds = true /\ 3 <= length ds <= 8
                 /\ (value = ch "#" :: ds \/ value = ch "#" :: ds ++ [10%N]).
Proof.
  unfold Re.match_, _COLOR_REGEX. change (skipn 0 value) with value.
  cbn [Re.seq Re.lit Re.upto Re.run].
  split.
  - intros [m H]. destruct value as [|c value]; [discriminate|].
    destruct (N.eqb_spec (N_of_ascii "#") c) as [<-|]; [|discriminate].
    apply rep_Some in H as (j & Hlo & Hhi & Hlen & Hall & Hk).
    exists (firstn j value). rewrite length_firstn. cbn in Hhi.
    split; [exact Hall|]. split; [lia|].
    rewrite <- (firstn_skipn j value) at 1 3.
    destruct (skipn j value) as [|c [|]]; try discriminate.
    + left. rewrite app_nil_r. reflexivity.
    + destruct (N.eqb_spec c 10); [subst|discriminate]. right. reflexivity.
  - intros (ds & Hall & Hlen & [->| ->]).
    + rewrite N.eqb_refl. rewrite <- (app_nil_r ds).
      erewrite rep_greedy; eauto; cbn; auto; lia.
    + rewrite N.eqb_refl.
      erewrite rep_greedy; eauto; cbn; auto; lia.
Qed.

Lemma color_ok_spec value :
  last value <> Some 10%N ->
  color_ok value = true <-> value ∈ _X11_COLORS \/ hex_color value.
Proof.
  intros Hlast. unfold color_ok, hex_color.
  rewrite orb_true_iff, andb_true_iff, !bool_decide_eq_true.
  split.
  - intros [Hn|[Hlen Hre]]; [left; exact Hn|right].
    destruct (Re.match_ _COLOR_REGEX value 0) as [m|] eqn:Hm; [|discriminate].
    destruct (proj1 (color_regex_spec value) (ex_intro _ m Hm))
      as (ds & Hall & Hds & [->| ->]).
    + exists ds. repeat split; auto. cbn [length] in Hlen.
      rewrite !elem_of_cons in Hlen. rewrite !elem_of_cons.
      destruct Hlen as [?|[?|[?|H]]]; [left|right; left|right; right; left|inversion H]; lia.
    + exfalso. apply Hlast.
      change (ch "#" :: ds ++ [10%N]) with ((ch "#" :: ds) ++ [10%N]).
      apply last_snoc.
  - intros [Hn|(ds & -> & Hall & Hlen)]; [left; exact Hn|right].
    split.
    + cbn [length]. rewrite !elem_of_cons in Hlen. rewrite !elem_of_cons.
      destruct Hlen as [?|[?|[?|H]]]; [left|right; left|right; right; left|inversion H]; lia.
    + assert (exists m, Re.match_ _COLOR_REGEX (ch "#" :: ds) 0 = Some m) as [m ->]; auto.
      apply color_regex_spec. exists ds. repeat split; auto;
        rewrite !elem_of_cons in Hlen;
        destruct Hlen as [?|[?|[?|H]]]; try inversion H; lia.
Qed.

(** The [COLOR] branch of [_check_value] on a string token. *)
Lemma _check_value_color_string h fuel object_name property_name units_type tk ms lg
    token value tk' :
  Token.lex token = T_STRING value ->
  Tokenizer.__next__ tk = (Return token, tk') ->
  2 <= fuel ->
  exists lg',
    _check_value h fuel object_name property_name DT_COLOR units_type (mk tk ms None lg)
    = (Return tt,
       mk tk' (ms ++ if color_ok value then [] else [color_warning token value]) None lg').
Proof.
  intros Hlex Hn Hfuel. destruct fuel as [|[|fuel]]; try lia.
  destruct (color_ok value) eqn:Hok; eexists;
    cbn [_check_value]; pull Hn; rewrite Hlex; steps; rewrite Hlex;
    cbn [_check_value_type]; rewrite Hlex, Hok; steps; rewrite ?app_nil_r; reflexivity.
Qed.

(** C9 (amended).  For a property declared [COLOR] whose value is a
    [STRING] token that does not end in a line feed, [_check_value] returns
    normally, and it appends nothing exactly when the string is a named
    color or is [#] followed by 3, 6 or 8 hexadecimal digits (4, 7 or 9
    characters in all); for any other such string it appends the one
    warning "Could not parse ... as a valid color". *)
Theorem C9_color_string_accepted_iff :
  forall h fuel object_name property_name units_type tk ms lg token value tk',
    Token.lex token = T_STRING value ->
    Tokenizer.__next__ tk = (Return token, tk') ->
    2 <= fuel ->
    last value <> Some 10%N ->
    exists appended lg',
      _check_value h fuel object_name property_name DT_COLOR units_type (mk tk ms None lg)
      = (Return tt, mk tk' (ms ++ appended) None lg')
      /\ (appended = [] <-> value ∈ _X11_COLORS \/ hex_color value)
      /\ (appended <> [] -> appended = [color_warning token value]).
Proof.
  intros h fuel object_name property_name units_type tk ms lg token value tk'
    Hlex Hn Hfuel Hlast.
  exists (if color_ok value then [] else [color_warning token value]).
  destruct (_check_value_color_string h fuel object_name property_name units_type tk ms lg
              token value tk' Hlex Hn Hfuel) as [lg' Hrun].
  exists lg'. split; [exact Hrun|].
  pose proof (color_ok_spec value Hlast) as Hspec.
  destruct (color_ok value).
  - split; [|congruence]. split; [intros _; apply Hspec; reflexivity|reflexivity].
  - split; [|reflexivity]. split; [discriminate|].
    intros H. apply Hspec in H. discriminate H.
Qed.

Lemma C9_color_string_accepted_iff_witness :
  exists appended lg',
    _check_value base 2 (py "Body") (py "Color") DT_COLOR None
      (mk (Tokenizer.__init__ [34%N :: py "#fff" ++ [34%N]]) [] None [])
    = (Return tt,
       mk (Tokenizer.mk [] (34%N :: py "#fff" ++ [34%N]) 6 1 []) ([] ++ appended) None lg')
    /\ (appended = [] <-> py "#fff" ∈ _X11_COLORS \/ hex_color (py "#fff"))
    /\ (appended <> [] ->
        appended = [color_warning (Token.mk (T_STRING (py "#fff")) 1 0) (py "#fff")]).
Proof.
  apply (C9_color_string_accepted_iff base 2 (py "Body") (py "Color") None
           (Tokenizer.__init__ [34%N :: py "#fff" ++ [34%N]]) [] []
           (Token.mk (T_STRING (py "#fff")) 1 0) (py "#fff")).
  - reflexivity.
  - vm_compute. reflexivity.
  - lia.
  - vm_compute. discriminate.
Defined.

(** C9, as stated, fails: ["#ffff"] is [#] followed by 4 hexadecimal digits
    and is no named color, and [_check_value] appends the warning. *)
Lemma C9_four_digits_counterexample :
  let value := py "#ffff" in
  let token := Token.mk (T_STRING value) 1 0 in
  (value = ch "#" :: py "ffff" /\ forallb is_hex (py "ffff") = true
   /\ length (py "ffff") = 4)
  /\ _check_value base 2 (py "Body") (py "Color") DT_COLOR None
       (mk (Tokenizer.__init__ [34%N :: value ++ [34%N]]) [] None [])
     = (Return tt,
        mk (Tokenizer.mk [] (34%N :: value ++ [34%N]) 7 1 [])
           [color_warning token value] None [(Engine, color_warning token value)]).
Proof. vm_compute. repeat split. Qed.

(** The pattern ends in [$], which also matches before a line feed that
    ends the string: [#], five digits and a line feed are accepted. *)
Lemma color_line_feed_accepted : color_ok (py "#fffff" ++ [10%N]) = true.
Proof. vm_compute. reflexivity. Qed.

(** ** C8: the leap years of the date strings *)

Ltac codes :=
  unfold ch in *;
  repeat match goal with
         | |- context [N_of_ascii ?a] =>
             let v := eval vm_compute in (N_of_ascii a) in change (N_of_ascii a) with v
         | H : context [N_of_ascii ?a] |- _ =>
             let v := eval vm_compute in (N_of_ascii a) in change (N_of_ascii a) with v in H
         end.






























(** ** The Tokenizer inside a string literal *)

Lemma skipn_cons_inv {A} (l : list A) n a rest :
  skipn n l = a :: rest ->
  nth_error l n = Some a /\ (n =? length l) = false /\ skipn (S n) l = rest.
Proof.
  revert l. induction n as [|n IH]; intros [|x l] H; cbn in *; try discriminate.
  - injection H as -> ->. auto.
  - destruct (IH l H) as (H1 & H2 & H3). auto.
Qed.

Lemma _read_string_fill_ready fuel self :
  (Tokenizer.pos self =? length (Tokenizer.line self)) = false ->
  Tokenizer._read_string_fill (S fuel) self = (Return tt, self).
Proof.
  intros H. cbn [Tokenizer._read_string_fill]. unfold bind, get. rewrite H. reflexivity.
Qed.

(** One turn of the loop of [_read_string] on the character [c]. *)
Lemma _read_string_loop_step fuel f line pos ln msgs l p output c rest :
  skipn pos line = c :: rest ->
  Tokenizer._read_string_loop (S (S fuel)) l p output (Tokenizer.mk f line pos ln msgs)
  = (if (c =? 34)%N then ret (Token.mk (T_STRING output) l p)
     else
       c' <- (if (c =? ch "\")%N then Tokenizer._parse_escape else ret (Some [c])) ;;;
       (if Tokenizer.pystr_eqb_opt c' [65533%N]
        then Tokenizer._warn [Lit "Invalid UTF-8 in string literal"] else ret tt) ;;;
       match c' with
       | None => raise TypeError
       | Some w => Tokenizer._read_string_loop (S fuel) l p (output ++ w)
       end)
      (Tokenizer.mk f line (S pos) ln msgs).
Proof.
  intros Hs. apply skipn_cons_inv in Hs as (H0 & Hlen0 & _).
  cbn [Tokenizer._read_string_loop]. unfold bind at 1.
  rewrite _read_string_fill_ready by exact Hlen0.
  unfold bind at 1, get. cbn [Tokenizer.line Tokenizer.pos]. rewrite H0.
  reflexivity.
Qed.

(** [_parse_escape] on the character [c] that follows the backslash. *)
Lemma _parse_escape_step f line pos ln msgs c rest :
  skipn pos line = c :: rest ->
  Tokenizer._parse_escape (Tokenizer.mk f line pos ln msgs)
  = (if ((c =? 34) || (c =? ch "\"))%N then ret (Some [c])
     else if (c =? ch "n")%N then ret (Some [10%N])
     else if (c =? ch "u")%N then
       Tokenizer.set_pos (S pos + 4) ;;;
       if length line <=? S pos + 4
       then Tokenizer._error [Lit "Unterminated Unicode escape"]
       else
         Tokenizer.unicode_escape (firstn 4 (skipn (S pos) line)) ;;; ret None
     else ret None)
      (Tokenizer.mk f line (S pos) ln msgs).
Proof.
  intros Hs. apply skipn_cons_inv in Hs as (H0 & Hlen0 & _).
  unfold Tokenizer._parse_escape. unfold bind at 1, get.
  cbn [Tokenizer.line Tokenizer.pos]. rewrite Hlen0, H0. reflexivity.
Qed.

(** ** C4: a backslash before a character that starts no escape *)

(** C4.  Inside a string literal, at a backslash followed on its line by a
    character other than the quote, the backslash, [n] and [u],
    [_parse_escape] returns [None] and [output.write(None)] raises
    [TypeError]: [_read_string] does not return a token, the rest of the
    string is not read, and no diagnostic is appended. *)
Theorem C4_unknown_escape_raises_TypeError fuel f line pos ln msgs l p output c rest :
  skipn pos line = ch "\" :: c :: rest ->
  ~ escape_char c ->
  2 <= fuel ->
  Tokenizer._read_string_loop fuel l p output (Tokenizer.mk f line pos ln msgs)
  = (Raise TypeError, Tokenizer.mk f line (S (S pos)) ln msgs).
Proof.
  intros Hs Hc Hfuel. destruct fuel as [|[|fuel]]; try lia.
  rewrite (_read_string_loop_step _ _ _ _ _ _ _ _ _ _ _ Hs).
  apply skipn_cons_inv in Hs as (_ & _ & Hs).
  change (ch "\" =? 34)%N with false. change (ch "\" =? ch "\")%N with true. cbv iota.
  unfold bind at 1. rewrite (_parse_escape_step _ _ _ _ _ _ _ Hs).
  unfold escape_char in Hc. codes.
  destruct (N.eqb_spec c 34); [tauto|]. destruct (N.eqb_spec c 92); [tauto|].
  destruct (N.eqb_spec c 110); [tauto|]. destruct (N.eqb_spec c 117); [tauto|].
  reflexivity.
Qed.

Lemma skipn_length_eq {A} (l : list A) n tail :
  skipn n l = tail -> tail <> [] -> length l = n + length tail.
Proof.
  intros H Hne. subst tail. rewrite length_skipn.
  destruct (Nat.le_gt_cases (length l) n) as [Hle|Hgt]; [|lia].
  rewrite skipn_all2 in Hne by exact Hle. congruence.
Qed.

(** ** C3: the escape [\u] followed by four hexadecimal digits *)

(** C3.  Inside a string literal, at [\u] followed by four hexadecimal
    digits, [_read_string] never returns a token.  When the digits end the
    line, [_parse_escape] reports "Unterminated Unicode escape"; otherwise
    it computes the character, drops it and returns [None], and
    [output.write(None)] raises [TypeError] (for a surrogate,
    [encode('utf-8')] raises [UnicodeEncodeError] before that). *)
Theorem C3_unicode_escape_raises fuel f line pos ln msgs l p output hs rest :
  skipn pos line = ch "\" :: ch "u" :: hs ++ rest ->
  length hs = 4 -> forallb is_hex hs = true ->
  2 <= fuel ->
  Tokenizer._read_string_loop fuel l p output (Tokenizer.mk f line pos ln msgs)
  = match rest with
    | [] =>
        (Raise (ParsingError [Lit "Unterminated Unicode escape"]),
         Tokenizer.mk f line (pos + 6) ln
           (msgs ++ [ParsingMessage.mk ln (pos + 6) ERROR
                       [Lit "Unterminated Unicode escape"]]))
    | _ :: _ =>
        (Raise (if is_surrogate (hex_value hs) then UnicodeEncodeError else TypeError),
         Tokenizer.mk f line (pos + 6) ln msgs)
    end.
Proof.
  intros Hs Hlen Hhex Hfuel. destruct fuel as [|[|fuel]]; try lia.
  rewrite (_read_string_loop_step _ _ _ _ _ _ _ _ _ _ _ Hs).
  pose proof (skipn_length_eq _ _ _ Hs ltac:(discriminate)) as Hline.
  apply skipn_cons_inv in Hs as (_ & _ & Hs).
  change (ch "\" =? 34)%N with false. change (ch "\" =? ch "\")%N with true. cbv iota.
  unfold bind at 1. rewrite (_parse_escape_step _ _ _ _ _ _ _ Hs).
  apply skipn_cons_inv in Hs as (_ & _ & Hs).
  change ((ch "u" =? 34) || (ch "u" =? ch "\"))%N with false.
  change (ch "u" =? ch "n")%N with false. change (ch "u" =? ch "u")%N with true.
  cbv iota. unfold bind at 1, Tokenizer.set_pos.
  cbn [Tokenizer.f Tokenizer.line Tokenizer.pos Tokenizer.line_number Tokenizer.messages].
  rewrite Hs, firstn_app, Hlen, Nat.sub_diag, firstn_all2 by lia.
  cbn [firstn]. rewrite app_nil_r.
  cbn [length] in Hline. rewrite length_app, Hlen in Hline.
  replace (S (S pos) + 4) with (pos + 6) by lia.
  destruct rest as [|c rest].
  - cbn [length] in Hline.
    destruct (Nat.leb_spec (length line) (pos + 6)); [|lia]. reflexivity.
  - cbn [length] in Hline.
    destruct (Nat.leb_spec (length line) (pos + 6)); [lia|].
    unfold Tokenizer.unicode_escape. rewrite Hhex.
    fold (hex_value hs). fold (is_surrogate (hex_value hs)).
    destruct (is_surrogate (hex_value hs)); reflexivity.
Qed.

Lemma C3_unicode_escape_raises_witness :
  Tokenizer._read_string_loop 2 1 0 []
    (Tokenizer.mk [] (34%N :: py "\u0041" ++ [34%N]) 1 1 [])
  = (Raise TypeError, Tokenizer.mk [] (34%N :: py "\u0041" ++ [34%N]) 7 1 []).
Proof.
  exact (C3_unicode_escape_raises 2 [] (34%N :: py "\u0041" ++ [34%N]) 1 1 [] 1 0 []
           (py "0041") [34%N] eq_refl eq_refl eq_refl (le_n 2)).
Defined.

(** The failing input of C3 through [__next__]: the [TypeError] is not a
    [ParsingError], so it leaves the iterator as it is. *)
Lemma C3_unicode_escape_input :
  Tokenizer.__next__ (Tokenizer.__init__ [34%N :: py "\u0041" ++ [34%N]])
  = (Raise TypeError, Tokenizer.mk [] (34%N :: py "\u0041" ++ [34%N]) 7 1 []).
Proof. vm_compute. reflexivity. Qed.

Lemma C4_unknown_escape_raises_TypeError_witness :
  Tokenizer._read_string_loop 2 1 0 []
    (Tokenizer.mk [] (34%N :: py "a\qb" ++ [34%N]) 2 1 [])
  = (Raise TypeError, Tokenizer.mk [] (34%N :: py "a\qb" ++ [34%N]) 4 1 []).
Proof.
  refine (C4_unknown_escape_raises_TypeError 2 [] (34%N :: py "a\qb" ++ [34%N]) 2 1 [] 1 0 []
            (ch "q") (py "b" ++ [34%N]) eq_refl _ (le_n 2)).
  unfold escape_char. vm_compute. intros [H|[H|[H|H]]]; discriminate H.
Defined.

(** The failing input of C4 through [__next__]. *)
Lemma C4_unknown_escape_input :
  Tokenizer.__next__ (Tokenizer.__init__ [34%N :: py "a\qb" ++ [34%N]])
  = (Raise TypeError, Tokenizer.mk [] (34%N :: py "a\qb" ++ [34%N]) 4 1 []).
Proof. vm_compute. reflexivity. Qed.

(** ** C6: the input ends inside a string literal *)

(** C6 fails on an input that ends inside a string holding a backslash the
    code does not handle: the [TypeError] of C4 comes first and no
    diagnostic is appended. *)
Lemma C6_open_string_with_unknown_escape :
  Tokenizer.__next__ (Tokenizer.__init__ [34%N :: py "a\q"])
  = (Raise TypeError, Tokenizer.mk [] (34%N :: py "a\q") 4 1 []).
Proof. vm_compute. reflexivity. Qed.

(** ** Regular expressions: a match never moves backwards *)

Lemma run_advance {R} (r : Re.re) :
  forall s i g (k : pystr -> nat -> Re.groups -> option R) x,
    Re.run r s i g k = Some x ->
    exists s' i' g', i + min_len r <= i' /\ i' + length s' = i + length s
                     /\ k s' i' g' = Some x.
Proof.
  induction r as [c|p|p lo hi|a IHa b IHb|a IHa b IHb|a IHa|name a IHa| |];
    intros s i g k x H; cbn [Re.run min_len] in *.
  - destruct s as [|c' s]; [discriminate|]. destruct (c =? c')%N; [|discriminate].
    exists s, (S i), g. cbn. repeat split; auto; lia.
  - destruct s as [|c' s]; [discriminate|]. destruct (p c'); [|discriminate].
    exists s, (S i), g. cbn. repeat split; auto; lia.
  - apply rep_Some in H as (j & Hlo & _ & Hlen & _ & Hk).
    exists (skipn j s), (i + j), g. rewrite length_skipn. repeat split; auto; lia.
  - apply IHa in H as (s1 & i1 & g1 & H1 & L1 & H).
    apply IHb in H as (s2 & i2 & g2 & H2 & L2 & H).
    exists s2, i2, g2. repeat split; auto; lia.
  - destruct (Re.run a s i g k) eqn:Ha.
    + injection H as ->. apply IHa in Ha as (s1 & i1 & g1 & H1 & L1 & H).
      exists s1, i1, g1. repeat split; auto; lia.
    + apply IHb in H as (s1 & i1 & g1 & H1 & L1 & H).
      exists s1, i1, g1. repeat split; auto; lia.
  - destruct (Re.run a s i g k) eqn:Ha.
    + injection H as ->. apply IHa in Ha as (s1 & i1 & g1 & H1 & L1 & H).
      exists s1, i1, g1. repeat split; auto; lia.
    + exists s, i, g. repeat split; auto; lia.
  - apply IHa in H as (s1 & i1 & g1 & H1 & L1 & H). eauto 10.
  - destruct i; [|discriminate]. exists s, 0, g. repeat split; auto.
  - assert (k s i g = Some x) by
      (destruct s as [|c [|]]; try discriminate; auto; destruct (c =? 10)%N; congruence).
    exists s, i, g. repeat split; auto; lia.
Qed.

Lemma match_advance r s pos e g :
  Re.match_ r s pos = Some (e, g) -> pos <= length s ->
  pos + min_len r <= e <= length s.
Proof.
  unfold Re.match_. intros H Hpos.
  apply run_advance in H as (s' & i' & g' & H1 & L1 & H). injection H as -> ->.
  rewrite length_skipn in L1. lia.
Qed.

(** ** The Tokenizer: positions and diagnostics of one call *)

Lemma le2_refl a : le2 a a.
Proof. unfold le2. lia. Qed.

Lemma le2_trans a b c : le2 a b -> le2 b c -> le2 a c.
Proof. unfold le2. lia. Qed.

Lemma lt2_le2_trans a b c : lt2 a b -> le2 b c -> lt2 a c.
Proof. unfold lt2, le2. lia. Qed.

Lemma le2_lt2_trans a b c : le2 a b -> lt2 b c -> lt2 a c.
Proof. unfold lt2, le2. lia. Qed.

Lemma lt2_le2 a b : lt2 a b -> le2 a b.
Proof. unfold lt2, le2. lia. Qed.

Lemma key_ltb_lt2 a b : key_ltb a b = true <-> lt2 a b.
Proof.
  unfold key_ltb, lt2.
  rewrite orb_true_iff, andb_true_iff, !Nat.ltb_lt, Nat.eqb_eq. reflexivity.
Qed.

Lemma key_ltb_le2 a b : key_ltb a b = false <-> le2 b a.
Proof.
  unfold key_ltb, le2.
  rewrite orb_false_iff, andb_false_iff, !Nat.ltb_ge, Nat.eqb_neq. lia.
Qed.

Section LexerStep.
Context {A : Type}.
Implicit Types (Q : A -> Tokenizer.t -> Prop) (tk : Tokenizer.t).

Lemma lexer_step_ret Q a tk : Q a tk -> lexer_step Q tk (ret a tk).
Proof.
  intros HQ. split; [apply le2_refl|]. exists []. rewrite app_nil_r. auto.
Qed.

Lemma lexer_step_raise Q e tk :
  is_ParsingError e = false -> lexer_step Q tk (raise e tk).
Proof.
  intros He. split; [apply le2_refl|]. exists []. rewrite app_nil_r.
  destruct e; try discriminate; auto.
Qed.

Lemma lexer_step_out_of_fuel Q tk : lexer_step Q tk (out_of_fuel tk).
Proof. split; [apply le2_refl|]. exists []. rewrite app_nil_r. auto. Qed.

Lemma lexer_step_error Q message tk :
  fatal message -> lexer_step Q tk (Tokenizer._error message tk).
Proof.
  intros Hf. split; [apply le2_refl|]. eexists. split; [reflexivity|].
  split; [repeat constructor; apply le2_refl|]. exists []. auto.
Qed.

Lemma lexer_step_weaken Q Q' tk res :
  lexer_step Q tk res -> (forall a tk', Q a tk' -> Q' a tk') -> lexer_step Q' tk res.
Proof.
  destruct res as [r tk']. intros (Hle & added & Hm & Hk & Hr) HQ.
  split; [exact Hle|]. exists added. repeat split; auto.
  destruct r as [a|e|]; auto. destruct Hr; auto.
Qed.

Lemma lexer_step_bind {B} (Q1 : B -> Tokenizer.t -> Prop) Q (c : M Tokenizer.t B)
    (k : B -> M Tokenizer.t A) tk :
  lexer_step Q1 tk (c tk) ->
  (forall b tk1, Q1 b tk1 -> le2 (cur tk) (cur tk1) -> lexer_step Q tk1 (k b tk1)) ->
  lexer_step Q tk (bind c k tk).
Proof.
  unfold bind. destruct (c tk) as [[b|e|] tk1]; intros H1 Hk; [|exact H1|exact H1].
  destruct H1 as (Hle1 & added1 & Hm1 & Hk1 & Hw1 & HQ1).
  specialize (Hk b tk1 HQ1 Hle1). destruct (k b tk1) as [r tk2].
  destruct Hk as (Hle2 & added2 & Hm2 & Hk2 & Hr).
  split; [eapply le2_trans; eauto|].
  exists (added1 ++ added2). rewrite Hm2, Hm1, app_assoc. split; [reflexivity|].
  split.
  { apply Forall_app. split; [exact Hk1|].
    eapply Forall_impl; [exact Hk2|]. intros m Hm. eapply le2_trans; eauto. }
  destruct r as [a|e|].
  - destruct Hr as [Hw HQ]. split; [apply Forall_app; auto|exact HQ].
  - destruct e; try (apply Forall_app; auto).
    destruct Hr as (w & -> & Hw & Hf). exists (added1 ++ w).
    rewrite app_assoc. repeat split; auto. apply Forall_app; auto.
  - apply Forall_app; auto.
Qed.

End LexerStep.

Lemma lexer_step_set_pos (Q : unit -> Tokenizer.t -> Prop) p tk :
  Tokenizer.pos tk <= p ->
  Q tt (Tokenizer.mk (Tokenizer.f tk) (Tokenizer.line tk) p (Tokenizer.line_number tk)
          (Tokenizer.messages tk)) ->
  lexer_step Q tk (Tokenizer.set_pos p tk).
Proof.
  intros Hp HQ. split; [unfold le2, cur; cbn; lia|].
  exists []. cbn. rewrite app_nil_r. auto.
Qed.

Lemma lexer_step_warn (Q : unit -> Tokenizer.t -> Prop) message tk :
  (forall ms, Q tt (Tokenizer.mk (Tokenizer.f tk) (Tokenizer.line tk) (Tokenizer.pos tk)
                      (Tokenizer.line_number tk) ms)) ->
  lexer_step Q tk (Tokenizer._warn message tk).
Proof.
  intros HQ. split; [apply le2_refl|]. eexists. split; [reflexivity|].
  split; [repeat constructor; apply le2_refl|]. split; [repeat constructor|apply HQ].
Qed.

Lemma lexer_step_read_line (Q : unit -> Tokenizer.t -> Prop) tk :
  (forall tk', Tokenizer.line_number tk < Tokenizer.line_number tk' -> Q tt tk') ->
  lexer_step Q tk (Tokenizer._read_line tk).
Proof.
  intros HQ. unfold Tokenizer._read_line.
  destruct (Tokenizer.f tk) as [|[|c l] rest].
  - split; [apply le2_refl|]. exists []. rewrite app_nil_r. cbn. auto.
  - split; [apply le2_refl|]. exists []. rewrite app_nil_r. cbn. auto.
  - split; [unfold le2, cur; cbn; lia|]. exists []. rewrite app_nil_r. cbn.
    repeat split; auto; try (apply HQ; cbn; lia).
Qed.

Lemma fatal_string : fatal [Lit "Unterminated string"].
Proof. unfold fatal. auto. Qed.
Lemma fatal_escape : fatal [Lit "Unterminated escape sequence"].
Proof. unfold fatal. auto. Qed.
Lemma fatal_unicode : fatal [Lit "Unterminated Unicode escape"].
Proof. unfold fatal. auto. Qed.

Lemma lexer_step_get {A} (Q : A -> Tokenizer.t -> Prop) (k : Tokenizer.t -> M Tokenizer.t A)
    tk :
  lexer_step Q tk (k tk tk) -> lexer_step Q tk (bind get k tk).
Proof. intros H. exact H. Qed.

Lemma lexer_step_unicode_escape s tk :
  lexer_step anything tk (Tokenizer.unicode_escape s tk).
Proof.
  unfold Tokenizer.unicode_escape.
  destruct (forallb is_hex s); [|apply lexer_step_raise; reflexivity].
  match goal with |- context [if ?b then _ else _] => destruct b end;
    [apply lexer_step_raise; reflexivity|apply lexer_step_ret; exact I].
Qed.

Lemma lexer_step_parse_escape tk :
  lexer_step anything tk (Tokenizer._parse_escape tk).
Proof.
  unfold Tokenizer._parse_escape. apply lexer_step_get.
  destruct (Tokenizer.pos tk =? length (Tokenizer.line tk));
    [apply lexer_step_error, fatal_escape|].
  destruct (nth_error (Tokenizer.line tk) (Tokenizer.pos tk)) as [c|];
    [|apply lexer_step_raise; reflexivity].
  apply (lexer_step_bind (fun _ tk1 => Tokenizer.pos tk1 = S (Tokenizer.pos tk)));
    [apply lexer_step_set_pos; [lia|reflexivity]|].
  intros _ tk1 Hpos _.
  destruct ((c =? 34) || (c =? ch "\"))%N; [apply lexer_step_ret; exact I|].
  destruct (c =? ch "n")%N; [apply lexer_step_ret; exact I|].
  destruct (c =? ch "u")%N; [|apply lexer_step_ret; exact I].
  apply (lexer_step_bind anything); [apply lexer_step_set_pos; [lia|exact I]|].
  intros _ tk2 _ _.
  destruct (length (Tokenizer.line tk) <=? S (Tokenizer.pos tk) + 4);
    [apply lexer_step_error, fatal_unicode|].
  apply (lexer_step_bind anything); [apply lexer_step_unicode_escape|].
  intros. apply lexer_step_ret. exact I.
Qed.

Lemma lexer_step_read_string_fill fuel : forall tk,
  lexer_step anything tk (Tokenizer._read_string_fill fuel tk).
Proof.
  induction fuel as [|fuel IH]; intros tk; [apply lexer_step_out_of_fuel|].
  cbn [Tokenizer._read_string_fill]. apply lexer_step_get.
  destruct (Tokenizer.pos tk =? length (Tokenizer.line tk));
    [|apply lexer_step_ret; exact I].
  apply (lexer_step_bind anything); [|intros; apply IH].
  unfold try_except.
  pose proof (lexer_step_read_line anything tk (fun _ _ => I)) as H.
  destruct (Tokenizer._read_line tk) as [[[]|e|] tk1]; try exact H.
  destruct e; try exact H. cbn [is_StopIteration].
  destruct H as (Hle & added & Hm & Hk & Hw).
  split; [exact Hle|]. exists (added ++ [ParsingMessage.mk (Tokenizer.line_number tk1)
                                           (Tokenizer.pos tk1) ERROR
                                           [Lit "Unterminated string"]]).
  cbn. rewrite Hm, app_assoc. split; [reflexivity|]. split.
  - apply Forall_app. split; [exact Hk|]. constructor; [exact Hle|constructor].
  - exists added. auto using fatal_string.
Qed.

Lemma lexer_step_read_string_loop fuel : forall l p output tk,
  lt2 (l, p) (cur tk) ->
  lexer_step token_behind tk (Tokenizer._read_string_loop fuel l p output tk).
Proof.
  induction fuel as [|fuel IH]; intros l p output tk Hlp; [apply lexer_step_out_of_fuel|].
  cbn [Tokenizer._read_string_loop].
  apply (lexer_step_bind anything); [apply lexer_step_read_string_fill|].
  intros _ tk1 _ Hle1. apply lexer_step_get.
  assert (Hlp1 : lt2 (l, p) (cur tk1)) by (eapply lt2_le2_trans; eauto).
  destruct (nth_error (Tokenizer.line tk1) (Tokenizer.pos tk1)) as [c|];
    [|apply lexer_step_raise; reflexivity].
  apply (lexer_step_bind anything); [apply lexer_step_set_pos; [lia|exact I]|].
  intros _ tk2 _ Hle2.
  assert (Hlp2 : lt2 (l, p) (cur tk2)) by (eapply lt2_le2_trans; eauto).
  destruct (c =? 34)%N; [apply lexer_step_ret; exact Hlp2|].
  apply (lexer_step_bind anything).
  { destruct (c =? ch "\")%N; [apply lexer_step_parse_escape|apply lexer_step_ret; exact I]. }
  intros c' tk3 _ Hle3.
  assert (Hlp3 : lt2 (l, p) (cur tk3)) by (eapply lt2_le2_trans; eauto).
  apply (lexer_step_bind anything).
  { destruct (Tokenizer.pystr_eqb_opt c' [65533%N]);
      [apply lexer_step_warn; intros; exact I|apply lexer_step_ret; exact I]. }
  intros _ tk4 _ Hle4.
  destruct c' as [w|]; [|apply lexer_step_raise; reflexivity].
  apply IH. eapply lt2_le2_trans; eauto.
Qed.

Lemma lexer_step_read_string fuel tk :
  lexer_step token_behind tk (Tokenizer._read_string fuel tk).
Proof.
  unfold Tokenizer._read_string. apply lexer_step_get.
  apply (lexer_step_bind (fun _ tk1 => cur tk1
           = (Tokenizer.line_number tk, S (Tokenizer.pos tk))));
    [apply lexer_step_set_pos; [lia|reflexivity]|].
  intros _ tk1 Hcur _. apply lexer_step_read_string_loop.
  rewrite Hcur. unfold lt2. cbn. lia.
Qed.

Lemma lexer_step_next_fill fuel : forall tk,
  lexer_step anything tk (Tokenizer._next_fill fuel tk).
Proof.
  induction fuel as [|fuel IH]; intros tk; [apply lexer_step_out_of_fuel|].
  cbn [Tokenizer._next_fill]. apply lexer_step_get.
  destruct (Tokenizer.pos tk =? length (Tokenizer.line tk));
    [|apply lexer_step_ret; exact I].
  apply (lexer_step_bind anything); [|intros; apply IH].
  apply lexer_step_read_line. intros; exact I.
Qed.

Lemma lexer_step_single l tk :
  lexer_step token_behind tk (Tokenizer.single l tk).
Proof.
  unfold Tokenizer.single. apply lexer_step_get.
  apply (lexer_step_bind (fun _ tk1 => cur tk1
           = (Tokenizer.line_number tk, S (Tokenizer.pos tk))));
    [apply lexer_step_set_pos; [lia|reflexivity]|].
  intros _ tk1 Hcur _. apply lexer_step_ret.
  unfold token_behind, tkey, lt2. rewrite Hcur. cbn. lia.
Qed.

Lemma min_len_name : min_len _NAME_REGEX = 1.
Proof. reflexivity. Qed.
Lemma min_len_number : min_len _NUMBER_REGEX = 1.
Proof. reflexivity. Qed.

Lemma lexer_step_next_other c tk :
  Tokenizer.pos tk <= length (Tokenizer.line tk) ->
  lexer_step option_behind tk (Tokenizer._next_other c tk).
Proof.
  intros Hpos. unfold Tokenizer._next_other. apply lexer_step_get.
  assert (Hret : forall e (token : Token.t) tk1,
            Tokenizer.pos tk + 1 <= e -> tkey token = cur tk ->
            cur tk1 = (Tokenizer.line_number tk, e) ->
            lexer_step option_behind tk1 (ret (Some token) tk1)).
  { intros e token tk1 He Hkey Hcur. apply lexer_step_ret.
    unfold option_behind, token_behind. rewrite Hkey, Hcur. unfold lt2, cur. cbn. lia. }
  destruct (Re.match_ _NAME_REGEX (Tokenizer.line tk) (Tokenizer.pos tk))
    as [[e g]|] eqn:Hname.
  - apply match_advance in Hname; [|exact Hpos]. rewrite min_len_name in Hname.
    apply (lexer_step_bind (fun _ tk1 => cur tk1 = (Tokenizer.line_number tk, e)));
      [apply lexer_step_set_pos; [lia|reflexivity]|].
    intros _ tk1 Hcur _.
    repeat match goal with |- context [if ?b then _ else _] => destruct b end;
      apply (Hret e); try reflexivity; try assumption; lia.
  - destruct (Re.match_ _NUMBER_REGEX (Tokenizer.line tk) (Tokenizer.pos tk))
      as [[e g]|] eqn:Hnum.
    + apply match_advance in Hnum; [|exact Hpos]. rewrite min_len_number in Hnum.
      apply (lexer_step_bind (fun _ tk1 => cur tk1 = (Tokenizer.line_number tk, e)));
        [apply lexer_step_set_pos; [lia|reflexivity]|].
      intros _ tk1 Hcur _. apply (Hret e); try reflexivity; try assumption; lia.
    + apply (lexer_step_bind (fun _ tk1 => Tokenizer.pos tk1 = Tokenizer.pos tk));
        [apply lexer_step_warn; intros; reflexivity|].
      intros _ tk1 Hp1 _.
      apply (lexer_step_bind anything);
        [apply lexer_step_set_pos; [lia|exact I]|].
      intros. apply lexer_step_ret. exact I.
Qed.

Lemma lexer_step_next_loop fuel : forall tk,
  lexer_step token_behind tk (Tokenizer._next_loop fuel tk).
Proof.
  induction fuel as [|fuel IH]; intros tk; [apply lexer_step_out_of_fuel|].
  cbn [Tokenizer._next_loop].
  apply (lexer_step_bind anything); [apply lexer_step_next_fill|].
  intros _ tk1 _ _. apply lexer_step_get.
  destruct (nth_error (Tokenizer.line tk1) (Tokenizer.pos tk1)) as [c|] eqn:Hc;
    [|apply lexer_step_raise; reflexivity].
  assert (Hlt : Tokenizer.pos tk1 < length (Tokenizer.line tk1))
    by (apply nth_error_Some; congruence).
  repeat match goal with
         | |- context [if ?b then _ else _] => destruct b
         end;
    try apply lexer_step_single; try apply lexer_step_read_string.
  - apply (lexer_step_bind anything); [apply lexer_step_set_pos; [lia|exact I]|].
    intros. apply IH.
  - apply (lexer_step_bind anything); [apply lexer_step_set_pos; [lia|exact I]|].
    intros. apply IH.
  - apply (lexer_step_bind option_behind); [apply lexer_step_next_other; lia|].
    intros [token|] tk2 Hb _; [apply lexer_step_ret; exact Hb|apply IH].
Qed.

(** A call of [__next__]: the position does not go back, diagnostics are
    only appended, at or after the position of the call, and the token
    returned starts before the position the tokenizer is left at. *)
Lemma next_spec tk r tk' :
  Tokenizer.__next__ tk = (r, tk') ->
  le2 (cur tk) (cur tk')
  /\ (exists added,
        Tokenizer.messages tk' = Tokenizer.messages tk ++ added
        /\ Forall (fun m => le2 (cur tk) (key m)) added)
  /\ (forall token, r = Return token -> token_behind token tk')
  /\ is_ParsingError_result r = false.
Proof.
  unfold Tokenizer.__next__, try_except, Tokenizer._next_body. intros H.
  pose proof (lexer_step_next_loop (S (S (Tokenizer.remaining tk))) tk) as Hs.
  destruct (Tokenizer._next_loop (S (S (Tokenizer.remaining tk))) tk) as [r0 tk0].
  destruct Hs as (Hle & added & Hm & Hk & Hr).
  destruct r0 as [token|e|].
  - injection H as <- <-. repeat split; eauto.
    intros token' [= <-]. tauto.
  - destruct e; cbn in H; injection H as <- <-; repeat split; eauto; discriminate.
  - injection H as <- <-. repeat split; eauto. discriminate.
Qed.

(** ** C10: a fatal lexing error reaches the parser as the end of the input *)

(** C10.  When the body of [__next__] raises the [ParsingError] of a fatal
    lexing error, the message is one of "Unterminated string",
    "Unterminated escape sequence" and "Unterminated Unicode escape", it is
    the last diagnostic of the tokenizer, and [__next__] raises
    [StopIteration] in its place.  A parser that pulls a token then sees the
    end of the input: with [allow_eof] it gets [None] and records nothing;
    without it, it appends its own error "Unexpected EOF" at the line and
    position of the tokenizer and raises [ParsingError]. *)
Theorem C10_fatal_lexing_error_is_end_of_input :
  forall tk message tk',
    Tokenizer._next_body tk = (Raise (ParsingError message), tk') ->
    fatal message
    /\ (exists w,
          Tokenizer.messages tk'
          = Tokenizer.messages tk
            ++ w ++ [ParsingMessage.mk (Tokenizer.line_number tk') (Tokenizer.pos tk')
                       ERROR message]
          /\ Forall is_warning w)
    /\ Tokenizer.__next__ tk = (Raise StopIteration, tk')
    /\ forall kind text is_error ms lg,
         let eof :=
           ParsingMessage.mk (Tokenizer.line_number tk') (Tokenizer.pos tk') ERROR
             [Lit "Unexpected EOF"] in
         _next_token kind text is_error true (mk tk ms None lg)
         = (Return None, mk tk' ms None (lg ++ lexed tk tk'))
         /\ _next_token kind text is_error false (mk tk ms None lg)
            = (Raise (ParsingError [Lit "Unexpected EOF"]),
               mk tk' (ms ++ [eof]) None (lg ++ lexed tk tk' ++ [(Engine, eof)])).
Proof.
  intros tk message tk' Hbody.
  pose proof (lexer_step_next_loop (S (S (Tokenizer.remaining tk))) tk) as Hs.
  unfold Tokenizer._next_body in Hbody. rewrite Hbody in Hs.
  destruct Hs as (_ & added & Hm & _ & w & -> & Hw & Hf).
  assert (Hnext : Tokenizer.__next__ tk = (Raise StopIteration, tk')).
  { unfold Tokenizer.__next__, try_except, Tokenizer._next_body. rewrite Hbody.
    reflexivity. }
  split; [exact Hf|]. split; [exists w; auto|]. split; [exact Hnext|].
  intros kind text is_error ms lg eof.
  unfold _next_token, bind, get, next_or_None. cbn [saved_token tokenizer].
  rewrite Hnext. cbn. rewrite <- app_assoc. split; reflexivity.
Qed.

Lemma C10_fatal_lexing_error_is_end_of_input_witness :
  Tokenizer.__next__ (Tokenizer.__init__ [34%N :: py "abc"])
  = (Raise StopIteration,
     Tokenizer.mk [] [] 4 1 [ParsingMessage.mk 1 4 ERROR [Lit "Unterminated string"]])
  /\ _next_token None [] false false
       (mk (Tokenizer.__init__ [34%N :: py "abc"]) [] None [])
     = (Raise (ParsingError [Lit "Unexpected EOF"]),
        mk (Tokenizer.mk [] [] 4 1
              [ParsingMessage.mk 1 4 ERROR [Lit "Unterminated string"]])
           [ParsingMessage.mk 1 4 ERROR [Lit "Unexpected EOF"]] None
           [(Lexer, ParsingMessage.mk 1 4 ERROR [Lit "Unterminated string"]);
            (Engine, ParsingMessage.mk 1 4 ERROR [Lit "Unexpected EOF"])]).
Proof.
  destruct (C10_fatal_lexing_error_is_end_of_input
              (Tokenizer.__init__ [34%N :: py "abc"]) [Lit "Unterminated string"]
              (Tokenizer.mk [] [] 4 1
                 [ParsingMessage.mk 1 4 ERROR [Lit "Unterminated string"]]))
    as (_ & _ & Hnext & Hpull).
  - vm_compute. reflexivity.
  - split; [exact Hnext|]. exact (proj2 (Hpull None [] false [] [])).
Defined.

(** ** The loops of the Tokenizer end *)

Section Refines.
Context {St : Type}.

Lemma refines_refl {A} (c : M St A) : refines c c.
Proof. intros s _. reflexivity. Qed.

Lemma refines_bind {A B} (c c' : M St A) (k k' : A -> M St B) :
  refines c c' -> (forall a, refines (k a) (k' a)) -> refines (bind c k) (bind c' k').
Proof.
  intros Hc Hk s H. unfold bind in *.
  destruct (c s) as [[a|e|] s1] eqn:E.
  - rewrite (Hc s) by (rewrite E; discriminate). rewrite E. apply Hk. exact H.
  - rewrite (Hc s) by (rewrite E; discriminate). rewrite E. reflexivity.
  - cbn in H. congruence.
Qed.

Lemma refines_trans {A} (a b c : M St A) : refines a b -> refines b c -> refines a c.
Proof.
  intros Hab Hbc s H. rewrite <- (Hab s H). apply Hbc. rewrite (Hab s H). exact H.
Qed.

Lemma refines_le {A} (loop : nat -> M St A) :
  (forall fuel, refines (loop fuel) (loop (S fuel))) ->
  forall fuel fuel', fuel <= fuel' -> refines (loop fuel) (loop fuel').
Proof.
  intros Hs fuel fuel' Hle. induction Hle as [|m Hle IH]; [apply refines_refl|].
  eapply refines_trans; [exact IH|apply Hs].
Qed.

End Refines.

Ltac refines_step :=
  first
    [ apply refines_refl
    | assumption
    | apply refines_bind; [|intros ?]
    | match goal with
      | |- refines (if ?b then _ else _) _ => destruct b
      | |- refines (match ?x with _ => _ end) _ => destruct x
      end ].

Lemma refines_next_fill fuel :
  refines (Tokenizer._next_fill fuel) (Tokenizer._next_fill (S fuel)).
Proof.
  induction fuel as [|fuel IH]; [intros s H; cbn in H; congruence|].
  cbn [Tokenizer._next_fill].
  repeat refines_step.
Qed.

Lemma refines_read_string_fill fuel :
  refines (Tokenizer._read_string_fill fuel) (Tokenizer._read_string_fill (S fuel)).
Proof.
  induction fuel as [|fuel IH]; [intros s H; cbn in H; congruence|].
  cbn [Tokenizer._read_string_fill]. repeat refines_step.
Qed.

Lemma refines_read_string_loop fuel : forall l p output,
  refines (Tokenizer._read_string_loop fuel l p output)
          (Tokenizer._read_string_loop (S fuel) l p output).
Proof.
  induction fuel as [|fuel IH]; intros l p output; [intros s H; cbn in H; congruence|].
  pose proof (refines_read_string_fill fuel) as Hf.
  cbn [Tokenizer._read_string_loop]. repeat refines_step. apply IH.
Qed.

Lemma refines_read_string fuel :
  refines (Tokenizer._read_string fuel) (Tokenizer._read_string (S fuel)).
Proof.
  unfold Tokenizer._read_string. repeat refines_step. apply refines_read_string_loop.
Qed.

Lemma refines_next_loop fuel :
  refines (Tokenizer._next_loop fuel) (Tokenizer._next_loop (S fuel)).
Proof.
  induction fuel as [|fuel IH]; [intros s H; cbn in H; congruence|].
  pose proof (refines_next_fill fuel) as Hf.
  pose proof (refines_read_string fuel) as Hs.
  cbn [Tokenizer._next_loop]. repeat refines_step.
Qed.

Section Ends.
Context {A : Type}.
Implicit Types (Q : A -> Tokenizer.t -> Prop) (tk : Tokenizer.t).

Lemma ends_ret Q a tk : Q a tk -> ends Q (ret a tk).
Proof. intros H. exact H. Qed.

Lemma ends_raise Q e tk : ends Q (raise e tk).
Proof. exact I. Qed.

Lemma ends_error Q message tk : ends Q (Tokenizer._error message tk).
Proof. exact I. Qed.

Lemma ends_weaken Q Q' res :
  ends Q res -> (forall a tk', Q a tk' -> Q' a tk') -> ends Q' res.
Proof. unfold ends. destruct (fst res); auto. Qed.

Lemma ends_bind {B} (Q1 : B -> Tokenizer.t -> Prop) Q (c : M Tokenizer.t B)
    (k : B -> M Tokenizer.t A) tk :
  ends Q1 (c tk) -> (forall b tk1, Q1 b tk1 -> ends Q (k b tk1)) -> ends Q (bind c k tk).
Proof.
  unfold bind, ends at 1. destruct (c tk) as [[b|e|] tk1]; cbn; intros H1 Hk; auto.
Qed.

End Ends.

Lemma length_rstrip s : length (rstrip s) <= length s.
Proof.
  induction s as [|c s IH]; cbn; [lia|].
  destruct (rstrip s); [destruct (py_isspace c); cbn; lia|cbn in *; lia].
Qed.

Lemma ends_set_pos p tk :
  ends (fun _ tk1 => tk1 = Tokenizer.mk (Tokenizer.f tk) (Tokenizer.line tk) p
                          (Tokenizer.line_number tk) (Tokenizer.messages tk))
    (Tokenizer.set_pos p tk).
Proof. reflexivity. Qed.

Lemma ends_warn message tk :
  ends (fun _ tk1 => Tokenizer.remaining tk1 = Tokenizer.remaining tk)
    (Tokenizer._warn message tk).
Proof. reflexivity. Qed.

Lemma ends_read_line tk : ends (less tk) (Tokenizer._read_line tk).
Proof.
  unfold Tokenizer._read_line. destruct (Tokenizer.f tk) as [|[|c l] rest] eqn:Hf;
    try exact I.
  unfold ends, less, Tokenizer.remaining. cbn [fst snd Tokenizer.f Tokenizer.line
    Tokenizer.pos]. rewrite Hf. cbn [fold_right].
  pose proof (length_rstrip (c :: l)). lia.
Qed.

Lemma ends_next_fill fuel : forall tk,
  Tokenizer.remaining tk < fuel ->
  ends (no_more tk) (Tokenizer._next_fill fuel tk).
Proof.
  induction fuel as [|fuel IH]; intros tk Hfuel; [lia|].
  cbn [Tokenizer._next_fill]. unfold bind at 1, get.
  destruct (Tokenizer.pos tk =? length (Tokenizer.line tk));
    [|apply ends_ret; unfold no_more; lia].
  apply (ends_bind (less tk)); [apply ends_read_line|].
  intros [] tk1 H1. unfold less in H1.
  eapply ends_weaken; [apply IH; lia|]. unfold no_more. intros; lia.
Qed.

Lemma ends_read_string_fill fuel : forall tk,
  Tokenizer.remaining tk < fuel ->
  ends (no_more tk) (Tokenizer._read_string_fill fuel tk).
Proof.
  induction fuel as [|fuel IH]; intros tk Hfuel; [lia|].
  cbn [Tokenizer._read_string_fill]. unfold bind at 1, get.
  destruct (Tokenizer.pos tk =? length (Tokenizer.line tk));
    [|apply ends_ret; unfold no_more; lia].
  apply (ends_bind (less tk)).
  { pose proof (ends_read_line tk) as H. unfold try_except.
    destruct (Tokenizer._read_line tk) as [[[]|e|] tk1]; try exact H.
    destruct (is_StopIteration e); exact I. }
  intros [] tk1 H1. unfold less in H1.
  eapply ends_weaken; [apply IH; lia|]. unfold no_more. intros; lia.
Qed.

Lemma ends_unicode_escape s tk :
  ends (fun _ tk1 => tk1 = tk) (Tokenizer.unicode_escape s tk).
Proof.
  unfold Tokenizer.unicode_escape. destruct (forallb is_hex s); [|exact I].
  match goal with |- context [if ?b then _ else _] => destruct b end;
    [exact I|reflexivity].
Qed.

Ltac after_set_pos :=
  apply (ends_bind _ _ _ _ _ (ends_set_pos _ _)); intros _ ? ->.

Lemma ends_parse_escape tk : ends (no_more tk) (Tokenizer._parse_escape tk).
Proof.
  unfold Tokenizer._parse_escape. unfold bind at 1, get.
  destruct (Tokenizer.pos tk =? length (Tokenizer.line tk)); [exact I|].
  destruct (nth_error (Tokenizer.line tk) (Tokenizer.pos tk)) as [c|]; [|exact I].
  after_set_pos.
  assert (Hret : forall (r : option pystr) p, Tokenizer.pos tk <= p ->
            ends (no_more tk)
              (ret r (Tokenizer.mk (Tokenizer.f tk) (Tokenizer.line tk) p
                        (Tokenizer.line_number tk) (Tokenizer.messages tk)))).
  { intros r p Hp. apply ends_ret. unfold no_more, Tokenizer.remaining. cbn. lia. }
  destruct ((c =? 34) || (c =? ch "\"))%N; [apply Hret; lia|].
  destruct (c =? ch "n")%N; [apply Hret; lia|].
  destruct (c =? ch "u")%N; [|apply Hret; lia].
  after_set_pos. cbn [Tokenizer.line].
  destruct (length (Tokenizer.line tk) <=? S (Tokenizer.pos tk) + 4); [exact I|].
  apply (ends_bind _ _ _ _ _ (ends_unicode_escape _ _)). intros _ ? ->.
  apply Hret. lia.
Qed.

Lemma ends_read_string_loop fuel : forall l p output tk,
  Tokenizer.remaining tk + 1 < fuel ->
  ends anything (Tokenizer._read_string_loop fuel l p output tk).
Proof.
  induction fuel as [|fuel IH]; intros l p output tk Hfuel; [lia|].
  cbn [Tokenizer._read_string_loop].
  apply (ends_bind (no_more tk)); [apply ends_read_string_fill; lia|].
  intros [] tk1 H1. unfold no_more in H1. unfold bind at 1, get.
  destruct (nth_error (Tokenizer.line tk1) (Tokenizer.pos tk1)) as [c|] eqn:Hc;
    [|exact I].
  assert (Hlt : Tokenizer.pos tk1 < length (Tokenizer.line tk1))
    by (apply nth_error_Some; congruence).
  after_set_pos.
  destruct (c =? 34)%N; [exact I|].
  match goal with |- ends _ (bind _ _ ?s) => set (tk2 := s) end.
  assert (H2 : Tokenizer.remaining tk2 + 1 <= Tokenizer.remaining tk1)
    by (unfold Tokenizer.remaining, tk2; cbn; lia).
  apply (ends_bind (no_more tk2)).
  { destruct (c =? ch "\")%N; [apply ends_parse_escape|].
    apply ends_ret. unfold no_more. lia. }
  intros c' tk3 H3. unfold no_more in H3.
  apply (ends_bind (fun _ tk4 => Tokenizer.remaining tk4 = Tokenizer.remaining tk3)).
  { destruct (Tokenizer.pystr_eqb_opt c' [65533%N]); [apply ends_warn|reflexivity]. }
  intros [] tk4 H4. destruct c' as [w|]; [|exact I]. apply IH. lia.
Qed.

Lemma ends_read_string fuel tk :
  Tokenizer.pos tk < length (Tokenizer.line tk) ->
  Tokenizer.remaining tk < fuel ->
  ends anything (Tokenizer._read_string fuel tk).
Proof.
  intros Hlt Hfuel. unfold Tokenizer._read_string. unfold bind at 1, get.
  after_set_pos. apply ends_read_string_loop.
  unfold Tokenizer.remaining in *. cbn. lia.
Qed.

Lemma ends_next_other c tk :
  Tokenizer.pos tk < length (Tokenizer.line tk) ->
  ends (fun r tk1 => r = None -> Tokenizer.remaining tk1 < Tokenizer.remaining tk)
    (Tokenizer._next_other c tk).
Proof.
  intros Hlt. unfold Tokenizer._next_other. unfold bind at 1, get.
  destruct (Re.match_ _NAME_REGEX (Tokenizer.line tk) (Tokenizer.pos tk)) as [[e g]|].
  { after_set_pos.
    repeat match goal with |- context [if ?b then _ else _] => destruct b end;
      apply ends_ret; discriminate. }
  destruct (Re.match_ _NUMBER_REGEX (Tokenizer.line tk) (Tokenizer.pos tk)) as [[e g]|].
  { after_set_pos. apply ends_ret; discriminate. }
  apply (ends_bind (fun _ tk1 => tk1 = Tokenizer.mk (Tokenizer.f tk) (Tokenizer.line tk)
           (Tokenizer.pos tk) (Tokenizer.line_number tk)
           (Tokenizer.messages tk
              ++ [ParsingMessage.mk (Tokenizer.line_number tk) (Tokenizer.pos tk) WARN
                    [Lit "Unexpected character "; Repr [c]; Lit " in file"]])));
    [reflexivity|].
  intros _ ? ->. after_set_pos. apply ends_ret. intros _.
  unfold Tokenizer.remaining. cbn. lia.
Qed.

Lemma ends_next_loop fuel : forall tk,
  Tokenizer.remaining tk + 1 < fuel ->
  ends anything (Tokenizer._next_loop fuel tk).
Proof.
  induction fuel as [|fuel IH]; intros tk Hfuel; [lia|].
  cbn [Tokenizer._next_loop].
  apply (ends_bind (no_more tk)); [apply ends_next_fill; lia|].
  intros [] tk1 H1. unfold no_more in H1. unfold bind at 1, get.
  destruct (nth_error (Tokenizer.line tk1) (Tokenizer.pos tk1)) as [c|] eqn:Hc;
    [|exact I].
  assert (Hlt : Tokenizer.pos tk1 < length (Tokenizer.line tk1))
    by (apply nth_error_Some; congruence).
  repeat match goal with
         | |- context [if ?b then _ else _] => destruct b
         end;
    try exact I.
  - after_set_pos. apply IH. unfold Tokenizer.remaining in *. cbn. lia.
  - after_set_pos. apply IH. unfold Tokenizer.remaining in *. cbn. lia.
  - apply ends_read_string; [exact Hlt|lia].
  - apply (ends_bind _ _ _ _ _ (ends_next_other c tk1 Hlt)).
    intros [token|] tk2 H2; [exact I|]. apply IH. specialize (H2 eq_refl). lia.
Qed.

(** ** A call of [__next__] ends *)

(** X1.  The loops of [__next__] end on every state of the Tokenizer:
    each turn uses up a character of the line or a line of the file.  The
    call returns a token or raises; the model never cuts it for lack of
    fuel. *)
Theorem next_always_ends tk : fst (Tokenizer.__next__ tk) <> OutOfFuel.
Proof.
  unfold Tokenizer.__next__, try_except, Tokenizer._next_body.
  pose proof (ends_next_loop (S (S (Tokenizer.remaining tk))) tk ltac:(lia)) as H.
  unfold ends in H.
  destruct (Tokenizer._next_loop (S (S (Tokenizer.remaining tk))) tk) as [[a|e|] tk1];
    cbn in *; try discriminate; [|contradiction].
  destruct (is_ParsingError e); discriminate.
Qed.

(** More fuel than what is left to read plus one changes nothing: the loop
    gives the result of the body of [__next__]. *)
Lemma next_loop_fuel tk fuel :
  Tokenizer.remaining tk + 1 < fuel ->
  Tokenizer._next_loop fuel tk = Tokenizer._next_body tk.
Proof.
  intros Hfuel. unfold Tokenizer._next_body.
  apply (refines_le Tokenizer._next_loop refines_next_loop
           (S (S (Tokenizer.remaining tk))) fuel ltac:(lia) tk).
  pose proof (ends_next_loop (S (S (Tokenizer.remaining tk))) tk ltac:(lia)) as H.
  unfold ends in H. intros E. rewrite E in H. exact H.
Qed.


Lemma bind_ret' {S A B} (a : A) (k : A -> M S B) s : bind (ret a) k s = k a s.
Proof. reflexivity. Qed.

(** ** String literals *)

Lemma eqb_opt_single c :
  c <> 65533%N -> Tokenizer.pystr_eqb_opt (Some [c]) [65533%N] = false.
Proof.
  intros H. unfold Tokenizer.pystr_eqb_opt, pystr_eqb.
  apply bool_decide_eq_false_2. congruence.
Qed.

(** The loop of [_read_string] over the body of a literal. *)
Lemma _read_string_loop_body f (line : pystr) ln msgs l p (tail : pystr) :
  forall n (body : pystr),
  length body <= n ->
  forall fuel pos output value,
    skipn pos line = body ++ tail ->
    decode body = Some value ->
    1 <= fuel ->
    Tokenizer._read_string_loop (turns body + fuel) l p output
      (Tokenizer.mk f line pos ln msgs)
    = Tokenizer._read_string_loop fuel l p (output ++ value)
        (Tokenizer.mk f line (pos + length body) ln msgs).
Proof.
  induction n as [|n IH]; intros body Hn fuel pos output value Hs Hd Hfuel.
  { destruct body; [|cbn in Hn; lia]. cbn in Hd. injection Hd as <-.
    cbn. rewrite app_nil_r, Nat.add_0_r. reflexivity. }
  destruct body as [|c body].
  { cbn in Hd. injection Hd as <-. cbn. rewrite app_nil_r, Nat.add_0_r. reflexivity. }
  destruct fuel as [|fuel]; [lia|].
  assert (Hlen : length body <= n) by (cbn in Hn; lia).
  cbn [decode turns] in *. unfold ch in *.
  change (N_of_ascii "\") with 92%N in *. change (N_of_ascii "n") with 110%N in *.
  destruct (N.eqb_spec c 92) as [->|Hc].
  - destruct body as [|e body]; [discriminate|].
    clear Hlen. assert (Hlen : length body <= n) by (cbn in Hn; lia).
    cbn [plus]. rewrite Nat.add_succ_r.
    rewrite (_read_string_loop_step _ _ _ _ _ _ _ _ _ _ _ Hs).
    apply skipn_cons_inv in Hs as (_ & _ & Hs).
    change (92 =? 34)%N with false. change (92 =? ch "\")%N with true. cbv iota.
    unfold bind at 1. rewrite (_parse_escape_step _ _ _ _ _ _ _ Hs).
    apply skipn_cons_inv in Hs as (_ & _ & Hs).
    unfold ch. change (N_of_ascii "\") with 92%N. change (N_of_ascii "n") with 110%N.
    destruct ((e =? 34) || (e =? 92))%N eqn:He.
    + destruct (decode body) as [v|] eqn:Hv; [|discriminate]. injection Hd as <-.
      cbn [ret]. rewrite eqb_opt_single.
      2:{ apply orb_prop in He as [He|He]; apply N.eqb_eq in He; subst; discriminate. }
      rewrite bind_ret'.
      rewrite <- Nat.add_succ_r. rewrite (IH body Hlen (S fuel) _ _ v Hs Hv);
        [|lia].
      rewrite <- app_assoc. cbn [app length]. do 2 f_equal. lia.
    + destruct (N.eqb_spec e 110) as [->|]; [|discriminate].
      destruct (decode body) as [v|] eqn:Hv; [|discriminate]. injection Hd as <-.
      cbn [ret]. rewrite eqb_opt_single by discriminate.
      rewrite bind_ret'.
      rewrite <- Nat.add_succ_r. rewrite (IH body Hlen (S fuel) _ _ v Hs Hv);
        [|lia].
      rewrite <- app_assoc. cbn [app length]. do 2 f_equal. lia.
  - destruct ((c =? 34) || (c =? 65533))%N eqn:Hq; [discriminate|].
    apply orb_false_elim in Hq as [Hq1 Hq2].
    destruct (decode body) as [v|] eqn:Hv; [|discriminate]. injection Hd as <-.
    cbn [plus]. rewrite Nat.add_succ_r.
    rewrite (_read_string_loop_step _ _ _ _ _ _ _ _ _ _ _ Hs).
    apply skipn_cons_inv in Hs as (_ & _ & Hs).
    rewrite Hq1. unfold ch. change (N_of_ascii "\") with 92%N.
    rewrite (proj2 (N.eqb_neq c 92) Hc).
    rewrite bind_ret'. rewrite eqb_opt_single by (apply N.eqb_neq; exact Hq2).
    rewrite bind_ret'.
    rewrite <- Nat.add_succ_r. rewrite (IH body Hlen (S fuel) _ _ v Hs Hv);
      [|lia].
    rewrite <- app_assoc. cbn [app length]. do 2 f_equal. lia.
Qed.

Lemma turns_le (body : pystr) : turns body <= length body.
Proof.
  assert (H : forall n (body : pystr), length body <= n -> turns body <= length body).
  { induction n as [|n IH]; intros [|c b] Hn; cbn [turns length] in *; try lia.
    destruct (c =? ch "\")%N.
    - destruct b as [|e b]; cbn [turns length] in *; [lia|].
      specialize (IH b ltac:(lia)). lia.
    - specialize (IH b ltac:(lia)). lia. }
  apply (H (length body)). lia.
Qed.

(** [__next__] at a quote runs the loop of [_read_string]. *)
Lemma _next_body_quote f (line : pystr) pos ln msgs rest n r tk' :
  skipn pos line = 34%N :: rest ->
  Tokenizer._read_string_loop n ln pos [] (Tokenizer.mk f line (S pos) ln msgs) = (r, tk') ->
  r <> OutOfFuel ->
  n <= S (Tokenizer.remaining (Tokenizer.mk f line pos ln msgs)) ->
  Tokenizer._next_body (Tokenizer.mk f line pos ln msgs) = (r, tk').
Proof.
  intros Hs Hloop Hr Hn.
  apply skipn_cons_inv in Hs as (H0 & Hlen0 & _).
  unfold Tokenizer._next_body. set (m := Tokenizer.remaining _) in *.
  cbn [Tokenizer._next_loop Tokenizer._next_fill]. unfold bind at 1. unfold bind at 1, get.
  cbn [Tokenizer.pos Tokenizer.line]. rewrite Hlen0. cbn [ret]. unfold bind at 1, get.
  cbn [Tokenizer.pos Tokenizer.line]. rewrite H0.
  change ((34 =? 9) || (34 =? ch " "))%N with false.
  change (34 =? ch "#")%N with false. change (34 =? 34)%N with true. cbv iota.
  unfold Tokenizer._read_string, bind, get, Tokenizer.set_pos.
  cbn [Tokenizer.pos Tokenizer.line Tokenizer.f Tokenizer.line_number Tokenizer.messages].
  rewrite (refines_le _ (fun fuel => refines_read_string_loop fuel ln pos []) n (S m) Hn);
    rewrite Hloop; [reflexivity|exact Hr].
Qed.

(** X2.  At a quote followed on its line by ordinary characters and the
    escapes for the quote, the backslash and the line feed, then by a
    quote, [__next__] returns a [STRING] token at the position of the first
    quote; its value is the decoded body; the Tokenizer is left after the
    closing quote and no diagnostic is appended. *)
Theorem string_literal_decoded f (line : pystr) pos ln msgs (body : pystr) value
    (rest : pystr) :
  skipn pos line = 34%N :: body ++ 34%N :: rest ->
  decode body = Some value ->
  Tokenizer.__next__ (Tokenizer.mk f line pos ln msgs)
  = (Return (Token.mk (T_STRING value) ln pos),
     Tokenizer.mk f line (pos + length body + 2) ln msgs).
Proof.
  intros Hs Hd.
  unfold Tokenizer.__next__, try_except.
  assert (Hloop :
    Tokenizer._read_string_loop (turns body + 2) ln pos []
      (Tokenizer.mk f line (S pos) ln msgs)
    = (Return (Token.mk (T_STRING value) ln pos),
       Tokenizer.mk f line (pos + length body + 2) ln msgs)).
  { pose proof Hs as Hs'. apply skipn_cons_inv in Hs' as (_ & _ & Hs').
    rewrite (_read_string_loop_body _ _ _ _ _ _ _ _ body (le_n _) 2 _ _ value Hs' Hd) by lia.
    assert (Hq : skipn (S pos + length body) line = 34%N :: rest).
    { rewrite Nat.add_comm, <- skipn_skipn, Hs', skipn_app, skipn_all, Nat.sub_diag.
      reflexivity. }
    rewrite (_read_string_loop_step _ _ _ _ _ _ _ _ _ _ _ Hq).
    change (34 =? 34)%N with true. cbv iota. cbn [ret app].
    do 2 f_equal. lia. }
  rewrite (_next_body_quote _ _ _ _ _ _ _ _ _ Hs Hloop); [reflexivity|discriminate|].
  - pose proof (skipn_length_eq _ _ _ Hs ltac:(discriminate)) as Hline.
    cbn [length] in Hline. rewrite length_app in Hline. cbn [length] in Hline.
    pose proof (turns_le body). unfold Tokenizer.remaining. cbn. unfold char in *. lia.
Qed.

Lemma string_literal_decoded_witness :
  Tokenizer.__next__ (Tokenizer.mk [] (py "Name " ++ 34%N :: py "a\\b\n" ++ [34%N]) 5 1 [])
  = (Return (Token.mk (T_STRING (py "a\b" ++ [10%N])) 1 5),
     Tokenizer.mk [] (py "Name " ++ 34%N :: py "a\\b\n" ++ [34%N])
       (5 + length (py "a\\b\n") + 2) 1 []).
Proof.
  exact (string_literal_decoded [] (py "Name " ++ 34%N :: py "a\\b\n" ++ [34%N]) 5 1 []
           (py "a\\b\n") (py "a\b" ++ [10%N]) [] eq_refl eq_refl).
Defined.

(** X3.  At a quote followed by such a body up to the end of the last
    line of the input, [__next__] appends the one error "Unterminated
    string", at the column after the line's last character, and raises
    [StopIteration]; the diagnostics recorded before are kept. *)
Theorem string_literal_unterminated (line : pystr) pos ln msgs (body : pystr) value :
  skipn pos line = 34%N :: body ->
  decode body = Some value ->
  Tokenizer.__next__ (Tokenizer.mk [] line pos ln msgs)
  = (Raise StopIteration,
     Tokenizer.mk [] [] (length line) ln
       (msgs ++ [ParsingMessage.mk ln (length line) ERROR [Lit "Unterminated string"]])).
Proof.
  intros Hs Hd.
  pose proof (skipn_length_eq _ _ _ Hs ltac:(discriminate)) as Hline.
  cbn [length] in Hline.
  unfold Tokenizer.__next__, try_except.
  assert (Hloop :
    Tokenizer._read_string_loop (turns body + 2) ln pos []
      (Tokenizer.mk [] line (S pos) ln msgs)
    = (Raise (ParsingError [Lit "Unterminated string"]),
       Tokenizer.mk [] [] (length line) ln
         (msgs ++ [ParsingMessage.mk ln (length line) ERROR [Lit "Unterminated string"]]))).
  { pose proof Hs as Hs'. apply skipn_cons_inv in Hs' as (_ & _ & Hs').
    rewrite <- (app_nil_r body) in Hs'.
    rewrite (_read_string_loop_body _ _ _ _ _ _ _ _ body (le_n _) 2 _ _ value Hs' Hd) by lia.
    replace (S pos + length body) with (length line) by lia.
    cbn [Tokenizer._read_string_loop Tokenizer._read_string_fill].
    unfold bind, get, try_except, Tokenizer._read_line.
    cbn [Tokenizer.pos Tokenizer.line Tokenizer.f]. rewrite Nat.eqb_refl. reflexivity. }
  rewrite (_next_body_quote _ _ _ _ _ _ _ _ _ Hs Hloop); [reflexivity|discriminate|].
  - pose proof (turns_le body). unfold Tokenizer.remaining. cbn. unfold char in *. lia.
Qed.

Lemma string_literal_unterminated_witness :
  Tokenizer.__next__ (Tokenizer.mk [] (34%N :: py "abc") 0 1 [])
  = (Raise StopIteration,
     Tokenizer.mk [] [] (length (34%N :: py "abc")) 1
       ([] ++ [ParsingMessage.mk 1 (length (34%N :: py "abc")) ERROR
                 [Lit "Unterminated string"]])).
Proof.
  exact (string_literal_unterminated (34%N :: py "abc") 0 1 [] (py "abc") (py "abc")
           eq_refl eq_refl).
Defined.

(** X4.  A string literal that is still open at the end of its line
    goes on with the next line: the line break and the blanks that end the
    lines add nothing to the value, and the token keeps the position of the
    opening quote. *)
Theorem string_literal_over_two_lines f (line : pystr) pos ln msgs (body1 : pystr) value1
    (next body2 : pystr) value2 (rest : pystr) :
  skipn pos line = 34%N :: body1 ->
  decode body1 = Some value1 ->
  rstrip next = body2 ++ 34%N :: rest ->
  decode body2 = Some value2 ->
  Tokenizer.__next__ (Tokenizer.mk (next :: f) line pos ln msgs)
  = (Return (Token.mk (T_STRING (value1 ++ value2)) ln pos),
     Tokenizer.mk f (rstrip next) (length body2 + 1) (S ln) msgs).
Proof.
  intros Hs Hd1 Hn Hd2.
  pose proof (skipn_length_eq _ _ _ Hs ltac:(discriminate)) as Hline.
  cbn [length] in Hline.
  assert (Hnext : length (rstrip next) = length body2 + S (length rest))
    by (rewrite Hn, length_app; reflexivity).
  unfold Tokenizer.__next__, try_except.
  assert (Hloop :
    Tokenizer._read_string_loop (turns body1 + (turns body2 + 3)) ln pos []
      (Tokenizer.mk (next :: f) line (S pos) ln msgs)
    = (Return (Token.mk (T_STRING (value1 ++ value2)) ln pos),
       Tokenizer.mk f (rstrip next) (length body2 + 1) (S ln) msgs)).
  { pose proof Hs as Hs'. apply skipn_cons_inv in Hs' as (_ & _ & Hs').
    rewrite <- (app_nil_r body1) in Hs'.
    rewrite (_read_string_loop_body _ _ _ _ _ _ _ _ body1 (le_n _) _ _ _ value1 Hs' Hd1) by lia.
    replace (S pos + length body1) with (length line) by lia.
    assert (Hfill : forall fuel,
              Tokenizer._read_string_fill (S (S fuel))
                (Tokenizer.mk (next :: f) line (length line) ln msgs)
              = (Return tt, Tokenizer.mk f (rstrip next) 0 (S ln) msgs)).
    { intros fuel. cbn [Tokenizer._read_string_fill]. unfold bind at 1, get.
      cbn [Tokenizer.pos Tokenizer.line]. rewrite Nat.eqb_refl.
      unfold bind at 1. unfold bind at 1, try_except, Tokenizer._read_line.
      cbn [Tokenizer.f Tokenizer.pos Tokenizer.line Tokenizer.line_number
           Tokenizer.messages].
      destruct next as [|c next]; [cbn in Hn; destruct body2; discriminate|].
      unfold bind, get. cbn [Tokenizer.pos Tokenizer.line]. rewrite Hnext.
      destruct (length body2); reflexivity. }
    assert (Hturn : forall fuel output,
              Tokenizer._read_string_loop (S (S (S fuel))) ln pos output
                (Tokenizer.mk (next :: f) line (length line) ln msgs)
              = Tokenizer._read_string_loop (S (S (S fuel))) ln pos output
                  (Tokenizer.mk f (rstrip next) 0 (S ln) msgs)).
    { intros fuel output. cbn [Tokenizer._read_string_loop].
      unfold bind at 1. rewrite Hfill. symmetry. unfold bind at 1.
      rewrite _read_string_fill_ready; [reflexivity|].
      cbn [Tokenizer.pos Tokenizer.line]. rewrite Hnext. destruct (length body2); reflexivity. }
    replace (turns body2 + 3) with (S (S (S (turns body2)))) by lia.
    rewrite Hturn.
    replace (S (S (S (turns body2)))) with (turns body2 + 3) by lia.
    assert (Hs2 : skipn 0 (rstrip next) = body2 ++ 34%N :: rest) by exact Hn.
    rewrite (_read_string_loop_body _ _ _ _ _ _ _ _ body2 (le_n _) _ _ _ value2 Hs2 Hd2) by lia.
    assert (Hq : skipn (0 + length body2) (rstrip next) = 34%N :: rest).
    { cbn [plus]. rewrite Hn, skipn_app, skipn_all, Nat.sub_diag. reflexivity. }
    rewrite (_read_string_loop_step _ _ _ _ _ _ _ _ _ _ _ Hq).
    change (34 =? 34)%N with true. cbv iota. cbn [ret app].
    do 2 f_equal. lia. }
  rewrite (_next_body_quote _ _ _ _ _ _ _ _ _ Hs Hloop); [reflexivity|discriminate|].
  - pose proof (turns_le body1). pose proof (turns_le body2).
    pose proof (length_rstrip next).
    unfold Tokenizer.remaining. cbn. unfold char in *. lia.
Qed.

Lemma string_literal_over_two_lines_witness :
  Tokenizer.__next__
    (Tokenizer.mk [py "cd" ++ 34%N :: [10%N]] (34%N :: py "ab") 0 1 [])
  = (Return (Token.mk (T_STRING (py "ab" ++ py "cd")) 1 0),
     Tokenizer.mk [] (rstrip (py "cd" ++ 34%N :: [10%N])) (length (py "cd") + 1) 2 []).
Proof.
  exact (string_literal_over_two_lines [] (34%N :: py "ab") 0 1 [] (py "ab") (py "ab")
           (py "cd" ++ 34%N :: [10%N]) (py "cd") (py "cd") [] eq_refl eq_refl eq_refl eq_refl).
Defined.

(** ** One turn of the loop of [__next__] *)

Lemma nth_error_not_end (line : pystr) pos c :
  nth_error line pos = Some c -> (pos =? length line) = false.
Proof.
  intros H. apply Nat.eqb_neq. pose proof (nth_error_Some line pos) as [Hlt _].
  specialize (Hlt ltac:(congruence)). lia.
Qed.

(** The first turn of the loop on a line that is not used up. *)
Ltac next_turn H0 :=
  match goal with
  | |- context [Tokenizer._next_loop (S (S ?fuel))] =>
      let n := fresh "n" in
      set (n := S fuel); cbn [Tokenizer._next_loop]; subst n
  end;
  unfold bind at 1;
  cbn [Tokenizer._next_fill]; unfold bind at 1, get;
  cbn [Tokenizer.pos Tokenizer.line];
  rewrite (nth_error_not_end _ _ _ H0); cbn [ret];
  unfold bind at 1, get; cbn [Tokenizer.pos Tokenizer.line]; rewrite H0.

Lemma _next_loop_blank fuel f (line : pystr) pos ln msgs c :
  nth_error line pos = Some c -> c = 9%N \/ c = ch " " ->
  Tokenizer._next_loop (S (S fuel)) (Tokenizer.mk f line pos ln msgs)
  = Tokenizer._next_loop (S fuel) (Tokenizer.mk f line (S pos) ln msgs).
Proof.
  intros H0 Hc. next_turn H0.
  destruct Hc as [-> | ->]; reflexivity.
Qed.

Lemma _next_loop_comment fuel f (line : pystr) pos ln msgs :
  nth_error line pos = Some (ch "#") ->
  Tokenizer._next_loop (S (S fuel)) (Tokenizer.mk f line pos ln msgs)
  = Tokenizer._next_loop (S fuel) (Tokenizer.mk f line (length line) ln msgs).
Proof. intros H0. next_turn H0. reflexivity. Qed.

(** X5.  [__next__] passes over blanks, tabs and comments: at a blank or
    a tab it does what it does one column further, and at [#] what it does
    at the end of the line; the character adds no diagnostic. *)
Theorem next_skips_blanks_and_comments f (line : pystr) pos ln msgs c :
  nth_error line pos = Some c ->
  c = 9%N \/ c = ch " " \/ c = ch "#" ->
  Tokenizer.__next__ (Tokenizer.mk f line pos ln msgs)
  = Tokenizer.__next__
      (Tokenizer.mk f line (if (c =? ch "#")%N then length line else S pos) ln msgs).
Proof.
  intros H0 Hc.
  assert (Hlt : pos < length line) by (apply nth_error_Some; congruence).
  unfold Tokenizer.__next__, try_except; f_equal.
  unfold Tokenizer._next_body at 1.
  destruct Hc as [Hc|[Hc|Hc]].
  - rewrite (_next_loop_blank _ _ _ _ _ _ c H0 (or_introl Hc)). subst c.
    change (9 =? ch "#")%N with false. cbv iota.
    rewrite next_loop_fuel; [reflexivity|]. unfold Tokenizer.remaining. cbn. lia.
  - rewrite (_next_loop_blank _ _ _ _ _ _ c H0 (or_intror Hc)). subst c.
    change (ch " " =? ch "#")%N with false. cbv iota.
    rewrite next_loop_fuel; [reflexivity|]. unfold Tokenizer.remaining. cbn. lia.
  - subst c. rewrite (_next_loop_comment _ _ _ _ _ _ H0).
    change (ch "#" =? ch "#")%N with true. cbv iota.
    rewrite next_loop_fuel; [reflexivity|]. unfold Tokenizer.remaining. cbn. lia.
Qed.

Lemma next_skips_blanks_and_comments_witness :
  Tokenizer.__next__ (Tokenizer.mk [] (py "# note") 0 1 [])
  = Tokenizer.__next__
      (Tokenizer.mk [] (py "# note")
         (if (ch "#" =? ch "#")%N then length (py "# note") else 1) 1 []).
Proof.
  exact (next_skips_blanks_and_comments [] (py "# note") 0 1 [] (ch "#") eq_refl
           (or_intror (or_intror eq_refl))).
Defined.

(** X6.  At the end of the last line [__next__] raises [StopIteration]
    and leaves the line empty but the column as it was.  A further call
    raises [StopIteration] again only when that column is 0; otherwise the
    test [self.pos == len(self.line)] fails and [self.line[self.pos]]
    raises [IndexError]. *)
Theorem next_at_end_of_input (line : pystr) ln msgs :
  Tokenizer.__next__ (Tokenizer.mk [] line (length line) ln msgs)
  = (Raise StopIteration, Tokenizer.mk [] [] (length line) ln msgs)
  /\ Tokenizer.__next__ (Tokenizer.mk [] [] (length line) ln msgs)
     = (Raise (match line with [] => StopIteration | _ :: _ => IndexError end),
        Tokenizer.mk [] [] (length line) ln msgs).
Proof.
  split.
  - unfold Tokenizer.__next__, try_except, Tokenizer._next_body, Tokenizer.remaining.
    cbn [Tokenizer.line Tokenizer.pos Tokenizer.f fold_right].
    rewrite Nat.sub_diag. cbn [plus Tokenizer._next_loop Tokenizer._next_fill].
    unfold bind, get, Tokenizer._read_line.
    cbn [Tokenizer.line Tokenizer.pos Tokenizer.f]. rewrite Nat.eqb_refl. reflexivity.
  - destruct line as [|c line]; [reflexivity|].
    unfold Tokenizer.__next__, try_except, Tokenizer._next_body, Tokenizer.remaining.
    cbn [Tokenizer.line Tokenizer.pos Tokenizer.f fold_right length Nat.sub plus].
    cbn [Tokenizer._next_loop Tokenizer._next_fill].
    unfold bind, get. cbn [Tokenizer.line Tokenizer.pos Nat.eqb nth_error ret].
    reflexivity.
Qed.

(** ** Names, numbers and stray characters *)

Lemma _next_loop_other fuel f (line : pystr) pos ln msgs c :
  nth_error line pos = Some c -> is_special c = false ->
  Tokenizer._next_loop (S (S fuel)) (Tokenizer.mk f line pos ln msgs)
  = (r <- Tokenizer._next_other c ;;;
     match r with
     | Some token => ret token
     | None => Tokenizer._next_loop (S fuel)
     end) (Tokenizer.mk f line pos ln msgs).
Proof.
  intros H0 Hs. next_turn H0. unfold is_special in Hs.
  repeat (apply orb_false_elim in Hs as [Hs ?]).
  repeat match goal with H : (_ =? _)%N = false |- _ => rewrite H; clear H end.
  reflexivity.
Qed.

Lemma name_start_not_special c : is_name_start c = true -> is_special c = false.
Proof.
  intros H. apply not_true_is_false. intros Hs. revert H Hs.
  unfold is_name_start, is_special, in_range. codes.
  rewrite !orb_true_iff, !andb_true_iff, !N.leb_le, !N.eqb_eq. lia.
Qed.

Lemma digit_not_special c : is_digit c = true -> is_special c = false.
Proof.
  intros H. apply not_true_is_false. intros Hs. revert H Hs.
  unfold is_digit, is_special, in_range. codes.
  rewrite !orb_true_iff, !andb_true_iff, !N.leb_le, !N.eqb_eq. lia.
Qed.

Lemma digit_not_name_start c : is_digit c = true -> is_name_start c = false.
Proof.
  intros H. apply not_true_is_false. intros Hs. revert H Hs.
  unfold is_digit, is_name_start, in_range. codes.
  rewrite !orb_true_iff, !andb_true_iff, !N.leb_le, !N.eqb_eq. lia.
Qed.

Lemma digit_not_sign c : is_digit c = true -> is_sign c = false.
Proof.
  intros H. apply not_true_is_false. intros Hs. revert H Hs.
  unfold is_digit, is_sign, in_range. codes.
  rewrite !orb_true_iff, !andb_true_iff, !N.leb_le, !N.eqb_eq. lia.
Qed.

Lemma nth_error_skipn (line : pystr) pos c :
  nth_error line pos = Some c -> exists rest, skipn pos line = c :: rest.
Proof.
  revert line. induction pos as [|pos IH]; intros [|x line] H; cbn in *; try discriminate.
  - injection H as ->. eauto.
  - apply IH. exact H.
Qed.

Lemma name_regex_match (line : pystr) pos c cs rest :
  skipn pos line = c :: cs ++ rest ->
  is_name_start c = true -> forallb is_name_char cs = true ->
  match rest with x :: _ => is_name_char x = false | [] => True end ->
  Re.match_ _NAME_REGEX line pos = Some (pos + S (length cs), []).
Proof.
  intros Hs Hc Hcs Hrest. unfold Re.match_, _NAME_REGEX, Re.star. rewrite Hs.
  cbn [Re.run]. rewrite Hc.
  apply rep_greedy; auto; cbn; try lia. do 2 f_equal. lia.
Qed.

(** X7.  At a letter or an underscore followed by letters, digits and
    underscores, as many as there are, [__next__] returns one token at that
    position and leaves the tokenizer after the run: a [BOOLEAN] when the
    text is exactly [true] or [false], a [NAME] with the text as its value
    otherwise; no diagnostic is appended. *)
Theorem next_name_or_boolean f (line : pystr) pos ln msgs c (cs rest : pystr) :
  skipn pos line = c :: cs ++ rest ->
  is_name_start c = true -> forallb is_name_char cs = true ->
  match rest with x :: _ => is_name_char x = false | [] => True end ->
  Tokenizer.__next__ (Tokenizer.mk f line pos ln msgs)
  = (Return (Token.mk (name_lexeme (c :: cs)) ln pos),
     Tokenizer.mk f line (pos + S (length cs)) ln msgs).
Proof.
  intros Hs Hc Hcs Hrest.
  pose proof (name_regex_match _ _ _ _ _ Hs Hc Hcs Hrest) as Hm.
  pose proof Hs as Hs0. apply skipn_cons_inv in Hs0 as (H0 & _ & _).
  unfold Tokenizer.__next__, try_except, Tokenizer._next_body.
  rewrite (_next_loop_other _ _ _ _ _ _ c H0 (name_start_not_special c Hc)).
  unfold bind at 1, Tokenizer._next_other. unfold bind at 1, get.
  cbn [Tokenizer.line Tokenizer.pos Tokenizer.line_number]. rewrite Hm.
  unfold bind at 1, Tokenizer.set_pos.
  cbn [Tokenizer.f Tokenizer.line Tokenizer.pos Tokenizer.line_number Tokenizer.messages].
  replace (pos + S (length cs) - pos) with (S (length cs)) by lia.
  rewrite Hs. cbn [firstn]. rewrite firstn_app, Nat.sub_diag, firstn_all, app_nil_r.
  unfold name_lexeme.
  destruct (pystr_eqb (c :: cs) (py "false")); [reflexivity|].
  destruct (pystr_eqb (c :: cs) (py "true")); reflexivity.
Qed.

Lemma next_name_or_boolean_witness :
  Tokenizer.__next__ (Tokenizer.mk [] (py "true {") 0 1 [])
  = (Return (Token.mk (name_lexeme (py "true")) 1 0),
     Tokenizer.mk [] (py "true {") (0 + S (length (py "rue"))) 1 []).
Proof.
  exact (next_name_or_boolean [] (py "true {") 0 1 [] (ch "t") (py "rue") (py " {")
           eq_refl eq_refl eq_refl eq_refl).
Defined.

Lemma number_regex_no_match (s : pystr) c i :
  is_digit c = false -> is_sign c = false -> c <> ch "." ->
  Re.run _NUMBER_REGEX (c :: s) i [] (fun _ i g => Some (i, g)) = None.
Proof.
  intros Hd Hsg Hdot. unfold _NUMBER_REGEX, Re.plus, Re.star, Re.lit.
  cbn [Re.seq Re.run Re.rep]. rewrite Hsg, Hd.
  fold (ch "."). rewrite (proj2 (N.eqb_neq (ch ".") c)) by congruence. reflexivity.
Qed.

(** X8.  At a character that starts no token (it is not a blank, a tab,
    [#], the quote or a punctuation token, not a letter or an underscore,
    not a digit, a sign or a dot), [__next__] appends the one warning
    "Unexpected character ... in file" at the position of the character and
    goes on with the next column. *)
Theorem next_unexpected_character f (line : pystr) pos ln msgs c :
  nth_error line pos = Some c ->
  is_special c = false -> is_name_start c = false ->
  is_digit c = false -> is_sign c = false -> c <> ch "." ->
  Tokenizer.__next__ (Tokenizer.mk f line pos ln msgs)
  = Tokenizer.__next__
      (Tokenizer.mk f line (S pos) ln (msgs ++ [unexpected_character ln pos c])).
Proof.
  intros H0 Hsp Hn Hd Hsg Hdot.
  assert (Hlt : pos < length line) by (apply nth_error_Some; congruence).
  destruct (nth_error_skipn _ _ _ H0) as [rest Hs].
  unfold Tokenizer.__next__, try_except; f_equal.
  unfold Tokenizer._next_body at 1.
  rewrite (_next_loop_other _ _ _ _ _ _ c H0 Hsp).
  unfold bind at 1, Tokenizer._next_other. unfold bind at 1, get.
  cbn [Tokenizer.line Tokenizer.pos Tokenizer.line_number].
  unfold Re.match_. rewrite Hs.
  unfold _NAME_REGEX at 1. cbn [Re.run]. rewrite Hn.
  rewrite (number_regex_no_match _ _ _ Hd Hsg Hdot).
  unfold bind, Tokenizer._warn, Tokenizer.set_pos, ret.
  cbn [Tokenizer.f Tokenizer.line Tokenizer.pos Tokenizer.line_number Tokenizer.messages].
  fold (unexpected_character ln pos c).
  rewrite next_loop_fuel; [reflexivity|]. unfold Tokenizer.remaining. cbn. lia.
Qed.

Lemma next_unexpected_character_witness :
  Tokenizer.__next__ (Tokenizer.mk [] (py "@ x") 0 1 [])
  = Tokenizer.__next__
      (Tokenizer.mk [] (py "@ x") 1 1 ([] ++ [unexpected_character 1 0 (ch "@")])).
Proof.
  refine (next_unexpected_character [] (py "@ x") 0 1 [] (ch "@") eq_refl eq_refl eq_refl
            eq_refl eq_refl _).
  vm_compute. discriminate.
Defined.

Lemma number_regex_digits (ds rest : pystr) i :
  ds <> [] -> forallb is_digit ds = true ->
  match rest with
  | x :: _ => is_digit x = false /\ x <> ch "." /\ is_exp_mark x = false
  | [] => True
  end ->
  Re.run _NUMBER_REGEX (ds ++ rest) i [] (fun _ i g => Some (i, g))
  = Some (i + length ds, []).
Proof.
  intros Hne Hds Hrest. destruct ds as [|d ds']; [congruence|].
  pose proof Hds as Hd. cbn [forallb] in Hd. apply andb_prop in Hd as [Hd _].
  unfold _NUMBER_REGEX, Re.plus, Re.star, Re.lit. cbn [Re.seq].
  cbn [Re.run app]. rewrite (digit_not_sign d Hd).
  change (d :: ds' ++ rest) with ((d :: ds') ++ rest).
  erewrite rep_greedy; [reflexivity|exact Hds| | |exact I|].
  - destruct rest as [|x rest']; [exact I|tauto].
  - cbn. lia.
  - destruct rest as [|x rest']; [reflexivity|].
    destruct Hrest as (_ & Hdot & He). fold (ch ".").
    rewrite (proj2 (N.eqb_neq (ch ".") x)) by congruence. rewrite He. reflexivity.
Qed.

(** X9.  At a run of decimal digits that is followed neither by a digit,
    a dot nor an exponent mark, [__next__] returns one [NUMBER] token at
    that position and leaves the tokenizer after the run.  The value is the
    integer the digits denote, unless there are more digits than [int]
    converts (4300): then [int] raises [ValueError] and the value is the
    [float] of the text. *)
Theorem next_integer_literal f (line : pystr) pos ln msgs (ds rest : pystr) :
  skipn pos line = ds ++ rest ->
  ds <> [] -> forallb is_digit ds = true ->
  match rest with
  | x :: _ => is_digit x = false /\ x <> ch "." /\ is_exp_mark x = false
  | [] => True
  end ->
  Tokenizer.__next__ (Tokenizer.mk f line pos ln msgs)
  = (Return
       (Token.mk
          (T_NUMBER (if length ds <=? int_max_str_digits
                     then Int (digits_val ds) else Float (py_float ds)))
          ln pos),
     Tokenizer.mk f line (pos + length ds) ln msgs).
Proof.
  intros Hs Hne Hds Hrest.
  pose proof (number_regex_digits ds rest pos Hne Hds Hrest) as Hm.
  destruct ds as [|d ds'] eqn:Eds; [congruence|]. rewrite <- Eds in *.
  assert (Hd : is_digit d = true).
  { rewrite Eds in Hds. cbn [forallb] in Hds. apply andb_prop in Hds as [Hd _]. exact Hd. }
  assert (Hs0 : skipn pos line = d :: ds' ++ rest) by (rewrite Hs, Eds; reflexivity).
  pose proof Hs0 as H0. apply skipn_cons_inv in H0 as (H0 & _ & _).
  unfold Tokenizer.__next__, try_except, Tokenizer._next_body.
  rewrite (_next_loop_other _ _ _ _ _ _ d H0 (digit_not_special d Hd)).
  unfold bind at 1, Tokenizer._next_other. unfold bind at 1, get.
  cbn [Tokenizer.line Tokenizer.pos Tokenizer.line_number].
  unfold Re.match_. rewrite Hs0.
  unfold _NAME_REGEX at 1. cbn [Re.run]. rewrite (digit_not_name_start d Hd).
  rewrite <- Hs0, Hs, Hm.
  unfold bind at 1, Tokenizer.set_pos.
  cbn [Tokenizer.f Tokenizer.line Tokenizer.pos Tokenizer.line_number Tokenizer.messages].
  replace (pos + length ds - pos) with (length ds) by lia.
  rewrite firstn_app, Nat.sub_diag, firstn_all, app_nil_r.
  assert (Hint : py_int ds
                 = if length ds <=? int_max_str_digits then Some (digits_val ds) else None).
  { pose proof (digit_not_sign d Hd) as Hsg. unfold is_sign in Hsg.
    apply orb_false_elim in Hsg as [Hplus Hminus].
    rewrite Eds at 1. unfold py_int. rewrite Hminus, Hplus. rewrite <- Eds.
    unfold unsigned_int. rewrite Hds. rewrite Eds at 1. reflexivity. }
  rewrite Hint. destruct (length ds <=? int_max_str_digits); reflexivity.
Qed.

Lemma next_integer_literal_witness :
  Tokenizer.__next__ (Tokenizer.mk [] (py "42 ]") 0 1 [])
  = (Return
       (Token.mk
          (T_NUMBER (if length (py "42") <=? int_max_str_digits
                     then Int (digits_val (py "42")) else Float (py_float (py "42"))))
          1 0),
     Tokenizer.mk [] (py "42 ]") (0 + length (py "42")) 1 []).
Proof.
  refine (next_integer_literal [] (py "42 ]") 0 1 [] (py "42") (py " ]")
            eq_refl _ eq_refl _).
  - discriminate.
  - vm_compute. repeat split. discriminate.
Defined.

(** ** The tokens of a file come in the order of their positions *)

Lemma lexer_step_read_string_loop_from start fuel : forall l p output tk,
  le2 start (l, p) -> lt2 (l, p) (cur tk) ->
  lexer_step (token_from start) tk (Tokenizer._read_string_loop fuel l p output tk).
Proof.
  induction fuel as [|fuel IH]; intros l p output tk Hstart Hlp;
    [apply lexer_step_out_of_fuel|].
  cbn [Tokenizer._read_string_loop].
  apply (lexer_step_bind anything); [apply lexer_step_read_string_fill|].
  intros _ tk1 _ Hle1. apply lexer_step_get.
  assert (Hlp1 : lt2 (l, p) (cur tk1)) by (eapply lt2_le2_trans; eauto).
  destruct (nth_error (Tokenizer.line tk1) (Tokenizer.pos tk1)) as [c|];
    [|apply lexer_step_raise; reflexivity].
  apply (lexer_step_bind anything); [apply lexer_step_set_pos; [lia|exact I]|].
  intros _ tk2 _ Hle2.
  assert (Hlp2 : lt2 (l, p) (cur tk2)) by (eapply lt2_le2_trans; eauto).
  destruct (c =? 34)%N; [apply lexer_step_ret; split; [exact Hstart|exact Hlp2]|].
  apply (lexer_step_bind anything).
  { destruct (c =? ch "\")%N; [apply lexer_step_parse_escape|apply lexer_step_ret; exact I]. }
  intros c' tk3 _ Hle3.
  assert (Hlp3 : lt2 (l, p) (cur tk3)) by (eapply lt2_le2_trans; eauto).
  apply (lexer_step_bind anything).
  { destruct (Tokenizer.pystr_eqb_opt c' [65533%N]);
      [apply lexer_step_warn; intros; exact I|apply lexer_step_ret; exact I]. }
  intros _ tk4 _ Hle4.
  destruct c' as [w|]; [|apply lexer_step_raise; reflexivity].
  apply IH; [exact Hstart|]. eapply lt2_le2_trans; eauto.
Qed.

Lemma lexer_step_read_string_from start fuel tk :
  le2 start (cur tk) ->
  lexer_step (token_from start) tk (Tokenizer._read_string fuel tk).
Proof.
  intros Hstart. unfold Tokenizer._read_string. apply lexer_step_get.
  apply (lexer_step_bind (fun _ tk1 => cur tk1
           = (Tokenizer.line_number tk, S (Tokenizer.pos tk))));
    [apply lexer_step_set_pos; [lia|reflexivity]|].
  intros _ tk1 Hcur _. apply lexer_step_read_string_loop_from; [exact Hstart|].
  rewrite Hcur. unfold lt2. cbn. lia.
Qed.

Lemma lexer_step_single_from start l tk :
  le2 start (cur tk) ->
  lexer_step (token_from start) tk (Tokenizer.single l tk).
Proof.
  intros Hstart. unfold Tokenizer.single. apply lexer_step_get.
  apply (lexer_step_bind (fun _ tk1 => cur tk1
           = (Tokenizer.line_number tk, S (Tokenizer.pos tk))));
    [apply lexer_step_set_pos; [lia|reflexivity]|].
  intros _ tk1 Hcur _. apply lexer_step_ret. split; [exact Hstart|].
  unfold tkey, lt2. rewrite Hcur. cbn. lia.
Qed.

Lemma lexer_step_next_other_from start c tk :
  le2 start (cur tk) ->
  Tokenizer.pos tk <= length (Tokenizer.line tk) ->
  lexer_step (option_from start) tk (Tokenizer._next_other c tk).
Proof.
  intros Hstart Hpos. unfold Tokenizer._next_other. apply lexer_step_get.
  assert (Hret : forall e (token : Token.t) tk1,
            Tokenizer.pos tk + 1 <= e -> tkey token = cur tk ->
            cur tk1 = (Tokenizer.line_number tk, e) ->
            lexer_step (option_from start) tk1 (ret (Some token) tk1)).
  { intros e token tk1 He Hkey Hcur. apply lexer_step_ret.
    unfold option_from, token_from. rewrite Hkey, Hcur. split; [exact Hstart|].
    unfold lt2, cur. cbn. lia. }
  destruct (Re.match_ _NAME_REGEX (Tokenizer.line tk) (Tokenizer.pos tk))
    as [[e g]|] eqn:Hname.
  - apply match_advance in Hname; [|exact Hpos]. rewrite min_len_name in Hname.
    apply (lexer_step_bind (fun _ tk1 => cur tk1 = (Tokenizer.line_number tk, e)));
      [apply lexer_step_set_pos; [lia|reflexivity]|].
    intros _ tk1 Hcur _.
    repeat match goal with |- context [if ?b then _ else _] => destruct b end;
      apply (Hret e); try reflexivity; try assumption; lia.
  - destruct (Re.match_ _NUMBER_REGEX (Tokenizer.line tk) (Tokenizer.pos tk))
      as [[e g]|] eqn:Hnum.
    + apply match_advance in Hnum; [|exact Hpos]. rewrite min_len_number in Hnum.
      apply (lexer_step_bind (fun _ tk1 => cur tk1 = (Tokenizer.line_number tk, e)));
        [apply lexer_step_set_pos; [lia|reflexivity]|].
      intros _ tk1 Hcur _. apply (Hret e); try reflexivity; try assumption; lia.
    + apply (lexer_step_bind (fun _ tk1 => Tokenizer.pos tk1 = Tokenizer.pos tk));
        [apply lexer_step_warn; intros; reflexivity|].
      intros _ tk1 Hp1 _.
      apply (lexer_step_bind anything);
        [apply lexer_step_set_pos; [lia|exact I]|].
      intros. apply lexer_step_ret. exact I.
Qed.

Lemma lexer_step_next_loop_from start fuel : forall tk,
  le2 start (cur tk) ->
  lexer_step (token_from start) tk (Tokenizer._next_loop fuel tk).
Proof.
  induction fuel as [|fuel IH]; intros tk Hstart; [apply lexer_step_out_of_fuel|].
  cbn [Tokenizer._next_loop].
  apply (lexer_step_bind anything); [apply lexer_step_next_fill|].
  intros _ tk1 _ Hle1. apply lexer_step_get.
  assert (Hstart1 : le2 start (cur tk1)) by (eapply le2_trans; eauto).
  destruct (nth_error (Tokenizer.line tk1) (Tokenizer.pos tk1)) as [c|] eqn:Hc;
    [|apply lexer_step_raise; reflexivity].
  assert (Hlt : Tokenizer.pos tk1 < length (Tokenizer.line tk1))
    by (apply nth_error_Some; congruence).
  repeat match goal with
         | |- context [if ?b then _ else _] => destruct b
         end;
    try (apply lexer_step_single_from; exact Hstart1);
    try (apply lexer_step_read_string_from; exact Hstart1).
  - apply (lexer_step_bind anything); [apply lexer_step_set_pos; [lia|exact I]|].
    intros _ tk2 _ Hle2. apply IH. eapply le2_trans; eauto.
  - apply (lexer_step_bind anything); [apply lexer_step_set_pos; [lia|exact I]|].
    intros _ tk2 _ Hle2. apply IH. eapply le2_trans; eauto.
  - apply (lexer_step_bind (option_from start));
      [apply lexer_step_next_other_from; [exact Hstart1|lia]|].
    intros [token|] tk2 Hb Hle2; [apply lexer_step_ret; exact Hb|].
    apply IH. eapply le2_trans; eauto.
Qed.

(** What a call of [__next__] does, whatever the state. *)
Lemma next_from tk :
  lexer_step (token_from (cur tk)) tk (Tokenizer._next_body tk).
Proof. apply lexer_step_next_loop_from, le2_refl. Qed.

(** X10.  A call of [__next__] never moves the position of the Tokenizer
    back; it only appends diagnostics, each at or after the position the
    call started from; a token it returns starts at or after that position
    and before the position the Tokenizer is left at, so that the tokens
    of a file come in the strict order of their positions; and it never
    lets a [ParsingError] out. *)
Theorem next_positions_in_order tk :
  let (r, tk') := Tokenizer.__next__ tk in
  le2 (cur tk) (cur tk')
  /\ (exists added,
        Tokenizer.messages tk' = Tokenizer.messages tk ++ added
        /\ Forall (fun m => le2 (cur tk) (key m)) added)
  /\ match r with
     | Return token => le2 (cur tk) (tkey token) /\ lt2 (tkey token) (cur tk')
     | Raise e => is_ParsingError e = false
     | OutOfFuel => False
     end.
Proof.
  pose proof (next_from tk) as Hs.
  pose proof (ends_next_loop (S (S (Tokenizer.remaining tk))) tk ltac:(lia)) as He.
  unfold Tokenizer.__next__, try_except. unfold Tokenizer._next_body in *.
  unfold ends in He.
  destruct (Tokenizer._next_loop (S (S (Tokenizer.remaining tk))) tk) as [r0 tk0].
  destruct Hs as (Hle & added & Hm & Hk & Hr). cbn [fst] in He.
  destruct r0 as [token|e|]; [| |contradiction].
  - destruct Hr as [_ Hr]. repeat split; eauto; apply Hr.
  - destruct e; cbn [is_ParsingError raise]; repeat split; eauto.
Qed.

(** ** The report: [messages] sorts, and the sort is stable *)

Lemma insert_perm m l : TokenFileParser.insert m l ≡ₚ m :: l.
Proof.
  induction l as [|x l IH]; cbn; [reflexivity|].
  destruct (key_ltb (key x) (key m)); [|reflexivity].
  rewrite IH. apply Permutation_swap.
Qed.

Lemma sort_perm l : sort l ≡ₚ l.
Proof.
  induction l as [|m l IH]; cbn; [reflexivity|]. rewrite insert_perm, IH. reflexivity.
Qed.

Lemma insert_ordered m l : ordered l -> ordered (TokenFileParser.insert m l).
Proof.
  induction l as [|x l IH]; intros Hs; cbn [TokenFileParser.insert].
  - cbn. auto.
  - destruct Hs as [Hx Hs].
    destruct (key_ltb (key x) (key m)) eqn:Hlt.
    + split; [|apply IH; exact Hs].
      rewrite insert_perm. constructor; [|exact Hx].
      apply key_ltb_lt2 in Hlt. apply lt2_le2. exact Hlt.
    + apply key_ltb_le2 in Hlt.
      split; [|split; assumption].
      constructor; [exact Hlt|].
      eapply Forall_impl; [exact Hx|]. intros y Hy. eapply le2_trans; eauto.
Qed.

Lemma sort_ordered l : ordered (sort l).
Proof.
  induction l as [|m l IH]; cbn [sort]; [exact I|]. apply insert_ordered, IH.
Qed.

Lemma at_key_insert k m l :
  at_key k (TokenFileParser.insert m l) = at_key k (m :: l).
Proof.
  unfold at_key. induction l as [|x l IH]; cbn [TokenFileParser.insert]; [reflexivity|].
  destruct (key_ltb (key x) (key m)) eqn:Hlt; [|reflexivity].
  rewrite filter_cons, IH, !filter_cons.
  destruct (decide (key x = k)) as [Hx|Hx]; [|reflexivity].
  destruct (decide (key m = k)) as [Hm|Hm]; [|reflexivity].
  apply key_ltb_lt2 in Hlt. rewrite Hx, Hm in Hlt. unfold lt2 in Hlt. lia.
Qed.

Lemma at_key_sort k l : at_key k (sort l) = at_key k l.
Proof.
  induction l as [|m l IH]; cbn [sort]; [reflexivity|].
  rewrite at_key_insert. unfold at_key in *. rewrite !filter_cons, IH. reflexivity.
Qed.

(** X11.  The property [messages] returns the diagnostics of the
    tokenizer followed by those of the parser, rearranged: the result is a
    permutation of them, it is in the order of (line, column), and the
    diagnostics of one position keep the order they have in that list (the
    sort is stable), those of the tokenizer before those of the parser. *)
Theorem messages_sorted_and_stable p :
  messages p ≡ₚ Tokenizer.messages (tokenizer p) ++ _messages p
  /\ ordered (messages p)
  /\ forall k,
       at_key k (messages p)
       = at_key k (Tokenizer.messages (tokenizer p)) ++ at_key k (_messages p).
Proof.
  unfold messages. split; [apply sort_perm|]. split; [apply sort_ordered|].
  intros k. rewrite at_key_sort. unfold at_key. apply filter_app.
Qed.

(** Two lists in the order of (line, column) that hold the same
    diagnostics at every position, in the same order, are equal. *)
Lemma sorted_at_key_eq l1 : forall l2,
  ordered l1 -> ordered l2 ->
  (forall k, at_key k l1 = at_key k l2) -> l1 = l2.
Proof.
  unfold at_key.
  induction l1 as [|a l1 IH]; intros l2 H1 H2 Hk.
  - destruct l2 as [|b l2]; [reflexivity|].
    specialize (Hk (key b)). rewrite filter_cons in Hk.
    destruct (decide (key b = key b)); [discriminate|congruence].
  - destruct l2 as [|b l2].
    { specialize (Hk (key a)). rewrite filter_cons in Hk.
      destruct (decide (key a = key a)); [discriminate|congruence]. }
    destruct H1 as [Ha H1]. destruct H2 as [Hb H2].
    assert (Hkey : key a = key b).
    { pose proof (Hk (key a)) as Ka. pose proof (Hk (key b)) as Kb.
      rewrite !filter_cons in Ka, Kb.
      destruct (decide (key a = key a)); [|congruence].
      destruct (decide (key b = key b)); [|congruence].
      destruct (decide (key b = key a)) as [E|Nba]; [congruence|].
      destruct (decide (key a = key b)) as [E|Nab]; [congruence|].
      assert (Ina : a ∈ l2).
      { assert (a ∈ filter (fun m => key m = key a) l2) as Hin
          by (rewrite <- Ka; left).
        apply list_elem_of_filter in Hin as [_ Hin]. exact Hin. }
      assert (Inb : b ∈ l1).
      { assert (b ∈ filter (fun m => key m = key b) l1) as Hin
          by (rewrite Kb; left).
        apply list_elem_of_filter in Hin as [_ Hin]. exact Hin. }
      rewrite Forall_forall in Ha, Hb.
      specialize (Ha b Inb). specialize (Hb a Ina). unfold before, le2 in Ha, Hb.
      destruct (key a) as [a1 a2], (key b) as [b1 b2]. cbn in *.
      f_equal; lia. }
    assert (a = b).
    { pose proof (Hk (key a)) as Ka. rewrite !filter_cons in Ka.
      destruct (decide (key a = key a)); [|congruence].
      destruct (decide (key b = key a)); [|congruence]. congruence. }
    subst b. f_equal. apply IH; auto.
    intros k. specialize (Hk k). rewrite !filter_cons in Hk.
    destruct (decide (key a = k)); congruence.
Qed.

(** ** [_skip_structure] *)

Lemma pulls_app tk tokens1 tokens2 tk' :
  pulls tk (tokens1 ++ tokens2) tk' <->
  exists tk1, pulls tk tokens1 tk1 /\ pulls tk1 tokens2 tk'.
Proof.
  revert tk. induction tokens1 as [|token tokens1 IH]; intros tk; cbn [app].
  - split.
    + intros H. exists tk. split; [constructor|exact H].
    + intros (tk1 & H1 & H2). inversion H1; subst. exact H2.
  - split.
    + intros H. inversion H as [|? ? tk0 ? ? Hn Hp]; subst.
      apply IH in Hp as (tk1 & H1 & H2). exists tk1. split; [|exact H2].
      econstructor; eauto.
    + intros (tk1 & H1 & H2). inversion H1 as [|? ? tk0 ? ? Hn Hp]; subst.
      econstructor; [exact Hn|]. apply IH. eauto.
Qed.

(** A turn of the loop of [_skip_structure] on a token that is no bracket. *)
Lemma _skip_structure_loop_token fuel top stack tk ms lg token tk' :
  Tokenizer.__next__ tk = (Return token, tk') ->
  opens token = None -> closes token = None ->
  _skip_structure_loop (S fuel) (top :: stack) (mk tk ms None lg)
  = _skip_structure_loop fuel (top :: stack) (mk tk' ms None (lg ++ lexed tk tk')).
Proof.
  intros Hn Ho Hc. cbn [_skip_structure_loop]. pull Hn.
  unfold opens, closes in *. destruct (Token.lex token); try discriminate; reflexivity.
Qed.

Lemma _skip_structure_loop_open fuel top stack tk ms lg token tk' kind :
  Tokenizer.__next__ tk = (Return token, tk') ->
  opens token = Some kind ->
  _skip_structure_loop (S fuel) (top :: stack) (mk tk ms None lg)
  = _skip_structure_loop fuel (kind :: top :: stack)
      (mk tk' ms None (lg ++ lexed tk tk')).
Proof.
  intros Hn Ho. cbn [_skip_structure_loop]. pull Hn.
  unfold opens, Token.kind in *.
  destruct (Token.lex token); try discriminate; injection Ho as <-; reflexivity.
Qed.

Lemma _skip_structure_loop_close fuel top stack tk ms lg token tk' kind :
  Tokenizer.__next__ tk = (Return token, tk') ->
  closes token = Some kind ->
  _skip_structure_loop (S fuel) (top :: stack) (mk tk ms None lg)
  = (if bool_decide (top = kind) then _skip_structure_loop fuel stack
     else mismatch token) (mk tk' ms None (lg ++ lexed tk tk')).
Proof.
  intros Hn Hc. cbn [_skip_structure_loop]. pull Hn.
  unfold closes in *.
  destruct (Token.lex token); try discriminate; injection Hc as <-; reflexivity.
Qed.

(** The loop passes over well nested tokens with the stack it started
    with, one turn for each token. *)
Lemma _skip_structure_loop_balanced tokens :
  balanced tokens ->
  forall fuel top stack tk ms lg tk',
    pulls tk tokens tk' ->
    exists lg',
      _skip_structure_loop (length tokens + fuel) (top :: stack) (mk tk ms None lg)
      = _skip_structure_loop fuel (top :: stack) (mk tk' ms None lg').
Proof.
  induction 1 as [|token tokens Ho Hc Hb IH
                  |opening inner closing tokens kind Ho Hc Hi IHi Ht IHt];
    intros fuel top stack tk ms lg tk' Hp.
  - inversion Hp; subst. eexists. reflexivity.
  - inversion Hp as [|? ? tk1 ? ? Hn Hp1]; subst.
    destruct (IH fuel top stack tk1 ms (lg ++ lexed tk tk1) tk' Hp1) as [lg' E].
    exists lg'. cbn [length plus].
    rewrite (_skip_structure_loop_token _ _ _ _ _ _ _ _ Hn Ho Hc). exact E.
  - inversion Hp as [|? ? tk1 ? ? Hn Hp1]; subst.
    apply pulls_app in Hp1 as (tk2 & Hp2 & Hp3).
    inversion Hp3 as [|? ? tk3 ? ? Hn3 Hp4]; subst.
    cbn [length plus]. rewrite length_app. cbn [length].
    rewrite (_skip_structure_loop_open _ _ _ _ _ _ _ _ _ Hn Ho).
    replace (length inner + S (length tokens) + fuel)
      with (length inner + S (length tokens + fuel)) by lia.
    destruct (IHi (S (length tokens + fuel)) kind (top :: stack) tk1 ms
                (lg ++ lexed tk tk1) tk2 Hp2) as [lg2 E2].
    rewrite E2.
    rewrite (_skip_structure_loop_close _ _ _ _ _ _ _ _ _ Hn3 Hc).
    rewrite bool_decide_eq_true_2 by reflexivity.
    apply IHt. exact Hp4.
Qed.

(** X12.  [_skip_structure], called after an opening bracket, passes over
    well nested tokens and stops at the closing bracket that follows them.
    When that bracket is of the kind of the opening one, the call returns,
    having read exactly these tokens and appended no diagnostic of the
    parser; otherwise it appends the one error "Mismatched nesting" at the
    closing bracket and raises [ParsingError]. *)
Theorem _skip_structure_balanced :
  forall fuel open_token inner closing kind tk ms lg tk',
    balanced inner ->
    closes closing = Some kind ->
    pulls tk (inner ++ [closing]) tk' ->
    length inner + 1 < fuel ->
    exists lg',
      _skip_structure fuel open_token (mk tk ms None lg)
      = (if bool_decide (open_token = kind) then Return tt
         else Raise (ParsingError [Lit "Mismatched nesting"]),
         mk tk' (ms ++ if bool_decide (open_token = kind) then [] else [mismatched closing])
            None lg').
Proof.
  intros fuel open_token inner closing kind tk ms lg tk' Hb Hc Hp Hfuel.
  apply pulls_app in Hp as (tk1 & Hp1 & Hp2).
  inversion Hp2 as [|? ? tk2 ? ? Hn Hp3]; subst. inversion Hp3; subst.
  unfold _skip_structure.
  replace fuel with (length inner + S (S (fuel - length inner - 2))) by lia.
  destruct (_skip_structure_loop_balanced inner Hb (S (S (fuel - length inner - 2)))
              open_token [] tk ms lg tk1 Hp1) as [lg1 E].
  rewrite E. rewrite (_skip_structure_loop_close _ _ _ _ _ _ _ _ _ Hn Hc).
  destruct (bool_decide (open_token = kind)).
  - eexists. cbn [_skip_structure_loop ret]. rewrite app_nil_r. reflexivity.
  - eexists. rewrite mismatch_eq. reflexivity.
Qed.

Lemma _skip_structure_balanced_witness :
  exists lg',
    _skip_structure 5 START_ARRAY
      (mk (Tokenizer.mk [] (py "[ 1 { } ] x") 1 1 []) [] None [])
    = (if bool_decide (START_ARRAY = START_ARRAY) then Return tt
       else Raise (ParsingError [Lit "Mismatched nesting"]),
       mk (Tokenizer.mk [] (py "[ 1 { } ] x") 9 1 [])
          ([] ++ if bool_decide (START_ARRAY = START_ARRAY) then []
                 else [mismatched (Token.mk T_END_ARRAY 1 8)])
          None lg').
Proof.
  refine (_skip_structure_balanced 5 START_ARRAY
            [Token.mk (T_NUMBER (Int 1)) 1 2; Token.mk T_START_OBJECT 1 4;
             Token.mk T_END_OBJECT 1 6]
            (Token.mk T_END_ARRAY 1 8) START_ARRAY _ [] [] _ _ eq_refl _ _).
  - apply balanced_token; [reflexivity|reflexivity|].
    apply (balanced_bracket _ [] _ [] START_OBJECT);
      [reflexivity|reflexivity|constructor|constructor].
  - pulls_now.
  - cbn. lia.
Defined.

Lemma _skip_structure_returns fuel open_token inner closing tk ms lg tk' :
  balanced inner ->
  closes closing = Some open_token ->
  pulls tk (inner ++ [closing]) tk' ->
  length inner + 1 < fuel ->
  exists lg',
    _skip_structure fuel open_token (mk tk ms None lg) = (Return tt, mk tk' ms None lg').
Proof.
  intros Hb Hc Hp Hfuel.
  apply pulls_app in Hp as (tk1 & Hp1 & Hp2).
  inversion Hp2 as [|? ? tk2 ? ? Hn Hp3]; subst. inversion Hp3; subst.
  unfold _skip_structure.
  replace fuel with (length inner + S (S (fuel - length inner - 2))) by lia.
  destruct (_skip_structure_loop_balanced inner Hb (S (S (fuel - length inner - 2)))
              open_token [] tk ms lg tk1 Hp1) as [lg1 E].
  rewrite E. rewrite (_skip_structure_loop_close _ _ _ _ _ _ _ _ _ Hn Hc).
  rewrite bool_decide_eq_true_2 by reflexivity. eexists. reflexivity.
Qed.

(** ** [_check_vector] with a range of lengths *)

Lemma _check_vector_loop_between h property_name lo hi nums :
  forall fuel tk ms lg k close tk',
    Forall is_number nums ->
    Token.lex close = T_END_ARRAY ->
    pulls tk (nums ++ [close]) tk' ->
    length nums < fuel ->
    exists lg',
      _check_vector_loop h fuel property_name (Between lo hi) k (mk tk ms None lg)
      = (Return tt,
         mk tk' (ms ++ element_messages h property_name nums
                    ++ count_warning lo hi close (k + length nums)) None lg').
Proof.
  induction nums as [|tok nums IH]; intros fuel tk ms lg k close tk' Hnum Hclose Hp Hfuel.
  - destruct fuel as [|fuel]; [cbn in Hfuel; lia|].
    inversion Hp as [|? ? ? ? ? Hn Hp']; subst. inversion Hp'; subst.
    cbn [_check_vector_loop]. pull Hn. rewrite Hclose.
    cbn [element_messages flat_map length app]. rewrite Nat.add_0_r.
    unfold count_warning, count_piece.
    destruct ((lo <=? k) && (k <=? hi)); eexists; [rewrite app_nil_r|]; reflexivity.
  - destruct fuel as [|fuel]; [cbn in Hfuel; lia|].
    inversion Hp as [|? ? ? ? ? Hn Hp']; subst.
    inversion Hnum as [|? ? Htok Hnum']; subst.
    cbn [_check_vector_loop].
    unfold is_number in Htok.
    destruct (Token.lex tok) eqn:Hlex; try contradiction.
    edestruct (IH fuel tk1) as [lg' IH']; [exact Hnum'|exact Hclose|exact Hp'| |].
    { cbn in Hfuel. lia. }
    exists lg'. pull Hn. rewrite Hlex. unfold validate_number. steps.
    rewrite IH'.
    cbn [length element_messages flat_map]. rewrite Hlex.
    rewrite <- !app_assoc, Nat.add_succ_r. reflexivity.
Qed.

(** X13.  After the [[] of a vector whose length may range from [lo] to
    [hi] (a color has 3 or 4 elements), when numbers follow up to the
    closing bracket, [_check_vector] hands each number to
    [_validate_number] and returns; it appends one warning at the closing
    bracket, which reports the range and the number of elements found,
    exactly when that number lies outside the range. *)
Theorem _check_vector_range :
  forall h fuel property_name lo hi tk ms lg nums close tk',
    Forall is_number nums ->
    Token.lex close = T_END_ARRAY ->
    pulls tk (nums ++ [close]) tk' ->
    length nums < fuel ->
    exists lg',
      _check_vector h fuel property_name (Between lo hi) (mk tk ms None lg)
      = (Return tt,
         mk tk' (ms ++ element_messages h property_name nums
                    ++ count_warning lo hi close (length nums)) None lg').
Proof.
  intros h fuel property_name lo hi tk ms lg nums close tk' Hnum Hclose Hp Hfuel.
  unfold _check_vector.
  exact (_check_vector_loop_between h property_name lo hi nums fuel tk ms lg 0 close tk'
           Hnum Hclose Hp Hfuel).
Qed.

Lemma _check_vector_range_witness :
  exists lg',
    _check_vector base 3 (py "__color") (Between 3 4)
      (mk (Tokenizer.mk [] (py "[ 1 2 ]") 1 1 []) [] None [])
    = (Return tt,
       mk (Tokenizer.mk [] (py "[ 1 2 ]") 7 1 [])
          ([] ++ element_messages base (py "__color")
                   [Token.mk (T_NUMBER (Int 1)) 1 2; Token.mk (T_NUMBER (Int 2)) 1 4]
              ++ count_warning 3 4 (Token.mk T_END_ARRAY 1 6)
                   (length [Token.mk (T_NUMBER (Int 1)) 1 2;
                            Token.mk (T_NUMBER (Int 2)) 1 4]))
          None lg').
Proof.
  refine (_check_vector_range base 3 (py "__color") 3 4 _ [] []
            [Token.mk (T_NUMBER (Int 1)) 1 2; Token.mk (T_NUMBER (Int 2)) 1 4]
            (Token.mk T_END_ARRAY 1 6) _ _ eq_refl _ _).
  - repeat constructor.
  - pulls_now.
  - cbn. lia.
Defined.

(** ** [_check_units] on a block of unit names *)

Lemma _check_units_loop_names expected_units names :
  forall fuel tk ms lg has_unit close tk',
    Forall is_name names ->
    Token.lex close = T_END_UNITS ->
    pulls tk (names ++ [close]) tk' ->
    length names < fuel ->
    exists lg',
      _check_units_loop fuel expected_units has_unit (mk tk ms None lg)
      = (Return tt,
         mk tk'
            (ms ++ unit_messages expected_units has_unit names
                ++ match names with
                   | [] => if has_unit then [] else [warning close [Lit "Empty unit block"]]
                   | _ :: _ => []
                   end)
            None lg').
Proof.
  induction names as [|name names IH];
    intros fuel tk ms lg has_unit close tk' Hnames Hclose Hp Hfuel.
  - destruct fuel as [|fuel]; [cbn in Hfuel; lia|].
    inversion Hp as [|? ? ? ? ? Hn Hp']; subst. inversion Hp'; subst.
    cbn [_check_units_loop]. pull Hn. rewrite Hclose. cbn [unit_messages app].
    destruct has_unit; eexists; [rewrite app_nil_r|]; reflexivity.
  - destruct fuel as [|fuel]; [cbn in Hfuel; lia|].
    inversion Hp as [|? ? ? ? ? Hn Hp']; subst.
    inversion Hnames as [|? ? Hname Hnames']; subst.
    unfold is_name in Hname.
    destruct (Token.lex name) eqn:Hlex; try contradiction.
    assert (Hlen : length names < fuel) by (cbn in Hfuel; lia).
    cbn [_check_units_loop]. pull Hn. rewrite Hlex.
    cbn [unit_messages]. rewrite Hlex.
    assert (Htail : unit_messages expected_units true names
                    ++ match names with
                       | [] => []
                       | _ :: _ => []
                       end
                    = unit_messages expected_units true names ++ [])
      by (destruct names; reflexivity).
    assert (Hrest : forall ms1 lg1,
              exists lg',
                _check_units_loop fuel expected_units true (mk tk1 ms1 None lg1)
                = (Return tt,
                   mk tk' (ms1 ++ unit_messages expected_units true names) None lg')).
    { intros ms1 lg1.
      destruct (IH fuel tk1 ms1 lg1 true close tk' Hnames' Hclose Hp' Hlen) as [lg' E].
      exists lg'. rewrite E, Htail, app_nil_r. reflexivity. }
    destruct (_UNIT_TYPES !! value) as [actual_units|];
      [destruct (negb (bool_decide (actual_units = expected_units)));
       [|destruct has_unit]|];
      cbv iota; steps;
      match goal with
      | |- context [_check_units_loop fuel expected_units true (mk tk1 ?ms1 None ?lg1)] =>
          destruct (Hrest ms1 lg1) as [lg' E]
      end;
      exists lg'; rewrite E, ?app_nil_r, <- ?app_assoc; reflexivity.
Qed.

(** X14.  After the [<] of the units block of a property whose units are
    lengths, times, angles or masses, when unit names follow up to the [>],
    [_check_units] returns.  A block without a name gets the one warning
    "Empty unit block".  Otherwise each name that is no unit is reported as
    unknown, each unit of another category as unexpected, and a unit of the
    right category is accepted only when it is the first name of the block:
    after any name, even an unknown one, it is reported as "Multiple units
    found". *)
Theorem _check_units_names :
  forall fuel expected_units tk ms lg names close tk',
    expected_units <> SPHERICAL ->
    Forall is_name names ->
    Token.lex close = T_END_UNITS ->
    pulls tk (names ++ [close]) tk' ->
    length names < fuel ->
    exists lg',
      _check_units fuel expected_units (mk tk ms None lg)
      = (Return tt,
         mk tk'
            (ms ++ match names with
                   | [] => [warning close [Lit "Empty unit block"]]
                   | _ :: _ => unit_messages expected_units false names
                   end)
            None lg').
Proof.
  intros fuel expected_units tk ms lg names close tk' Hsph Hnames Hclose Hp Hfuel.
  destruct (_check_units_loop_names expected_units names fuel tk ms lg false close tk'
              Hnames Hclose Hp Hfuel) as [lg' E].
  exists lg'.
  assert (Hloop : _check_units fuel expected_units
                  = _check_units_loop fuel expected_units false)
    by (destruct expected_units; try reflexivity; congruence).
  rewrite Hloop, E. destruct names; [reflexivity|]. rewrite app_nil_r. reflexivity.
Qed.

Lemma _check_units_names_witness :
  exists lg',
    _check_units 3 LENGTH (mk (Tokenizer.mk [] (py "<foo km>") 1 1 []) [] None [])
    = (Return tt,
       mk (Tokenizer.mk [] (py "<foo km>") 8 1 [])
          ([] ++ unit_messages LENGTH false
                   [Token.mk (T_NAME (py "foo")) 1 1; Token.mk (T_NAME (py "km")) 1 5])
          None lg').
Proof.
  refine (_check_units_names 3 LENGTH _ [] []
            [Token.mk (T_NAME (py "foo")) 1 1; Token.mk (T_NAME (py "km")) 1 5]
            (Token.mk T_END_UNITS 1 7) _ _ _ eq_refl _ _).
  - discriminate.
  - repeat constructor.
  - pulls_now.
  - cbn. lia.
Defined.

(** ** [_check_object_list] on what is no object *)

(** X15.  In the array of a property that is a list of objects, a
    units block that comes just before the closing bracket ends the walk,
    although every bracket is closed by its own kind:
    [_check_object_list] reports the [<] as "Expected object" and hands it
    to [_skip_value], which skips the block, reads the []] that closes the
    list and reports it as "Mismatched nesting", raising [ParsingError]. *)
Theorem _check_object_list_units_block :
  forall h fuel object_name properties tk ms lg units_open inner units_close closing tk',
    Token.lex units_open = T_START_UNITS ->
    balanced inner ->
    Token.lex units_close = T_END_UNITS ->
    Token.lex closing = T_END_ARRAY ->
    pulls tk (units_open :: inner ++ [units_close; closing]) tk' ->
    length inner + 2 < fuel ->
    exists lg',
      _check_object_list h fuel object_name properties (mk tk ms None lg)
      = (Raise (ParsingError [Lit "Mismatched nesting"]),
         mk tk' (ms ++ [warning units_open [Lit "Expected object"]; mismatched closing])
            None lg').
Proof.
  intros h fuel object_name properties tk ms lg u inner c e tk' Hu Hb Hc He Hp Hfuel.
  inversion Hp as [|? ? tk1 ? ? Hn1 Hp1]; subst.
  change [c; e] with ([c] ++ [e]) in Hp1. rewrite app_assoc in Hp1.
  apply pulls_app in Hp1 as (tk2 & Hp2 & Hp3).
  inversion Hp3 as [|? ? tk3 ? ? Hn3 Hp4]; subst. inversion Hp4; subst.
  destruct fuel as [|fuel]; [lia|].
  cbn [_check_object_list]. pull Hn1. rewrite Hu. rewrite ?bind_bind. steps.
  unfold _skip_value. rewrite ?bind_bind. steps. rewrite Hu. rewrite ?bind_bind.
  edestruct (_skip_structure_returns fuel START_UNITS inner c tk1) as [lg2 E];
    [exact Hb|unfold closes; rewrite Hc; reflexivity|exact Hp2|lia|].
  unfold bind at 1. rewrite E. pull Hn3. steps. rewrite He.
  unfold bind. rewrite mismatch_eq. cbn zeta. eexists.
  rewrite <- app_assoc. reflexivity.
Qed.

Lemma _check_object_list_units_block_witness :
  exists lg',
    _check_object_list base 4 (py "Timeline") ∅
      (mk (Tokenizer.mk [] (py "[ < km > ]") 1 1 []) [] None [])
    = (Raise (ParsingError [Lit "Mismatched nesting"]),
       mk (Tokenizer.mk [] (py "[ < km > ]") 10 1 [])
          ([] ++ [warning (Token.mk T_START_UNITS 1 2) [Lit "Expected object"];
                  mismatched (Token.mk T_END_ARRAY 1 9)])
          None lg').
Proof.
  refine (_check_object_list_units_block base 4 (py "Timeline") ∅ _ [] []
            (Token.mk T_START_UNITS 1 2) [Token.mk (T_NAME (py "km")) 1 4]
            (Token.mk T_END_UNITS 1 7) (Token.mk T_END_ARRAY 1 9) _
            eq_refl _ eq_refl eq_refl _ _).
  - apply balanced_token; [reflexivity|reflexivity|constructor].
  - pulls_now.
  - cbn. lia.
Defined.

(** A name that was pushed back is pushed back again by [_skip_value]. *)
Lemma _check_object_list_stuck h object_name properties token value :
  Token.lex token = T_NAME value ->
  forall fuel tk ms lg,
    fst (_check_object_list h fuel object_name properties (mk tk ms (Some token) lg))
    = OutOfFuel.
Proof.
  intros Hlex. induction fuel as [|fuel IH]; intros tk ms lg; [reflexivity|].
  cbn [_check_object_list]. steps. rewrite Hlex. rewrite ?bind_bind. steps.
  unfold _skip_value. rewrite ?bind_bind. steps. rewrite Hlex.
  rewrite ?bind_bind. steps. rewrite Hlex. steps. apply IH.
Qed.

(** X16.  In the array of a property that is a list of objects, a
    name makes [_check_object_list] loop for ever: it reports the name as
    "Expected object", pushes it back and calls [_skip_value], which reads
    it and pushes it back again, so the next turn meets the same name.  No
    amount of fuel ends the call. *)
Theorem _check_object_list_name_never_ends :
  forall h object_name properties tk ms lg token value tk',
    Tokenizer.__next__ tk = (Return token, tk') ->
    Token.lex token = T_NAME value ->
    forall fuel,
      fst (_check_object_list h fuel object_name properties (mk tk ms None lg))
      = OutOfFuel.
Proof.
  intros h object_name properties tk ms lg token value tk' Hn Hlex fuel.
  destruct fuel as [|fuel]; [reflexivity|].
  cbn [_check_object_list]. pull Hn. rewrite Hlex. rewrite ?bind_bind. steps.
  unfold _skip_value. rewrite ?bind_bind. steps. rewrite Hlex.
  rewrite ?bind_bind. steps. rewrite Hlex. steps.
  apply (_check_object_list_stuck h object_name properties token value Hlex).
Qed.

Lemma _check_object_list_name_never_ends_witness :
  fst (_check_object_list base 1000 (py "Timeline") ∅
         (mk (Tokenizer.mk [] (py "[ x ]") 1 1 []) [] None []))
  = OutOfFuel.
Proof.
  refine (_check_object_list_name_never_ends base (py "Timeline") ∅ _ [] []
            (Token.mk (T_NAME (py "x")) 1 2) (py "x")
            (Tokenizer.mk [] (py "[ x ]") 3 1 []) _ eq_refl 1000).
  vm_compute. reflexivity.
Defined.

(** ** The report is the stable sort of the history *)

Lemma lexer_part_app a b : lexer_part (a ++ b) = lexer_part a ++ lexer_part b.
Proof. apply flat_map_app. Qed.

Lemma engine_part_app a b : engine_part (a ++ b) = engine_part a ++ engine_part b.
Proof. apply flat_map_app. Qed.

Lemma lexer_part_engine l : lexer_part (map (pair Engine) l) = [].
Proof. induction l; cbn; auto. Qed.

Lemma engine_part_engine l : engine_part (map (pair Engine) l) = l.
Proof. induction l; cbn; f_equal; auto. Qed.

Lemma lexer_part_lexer l : lexer_part (map (pair Lexer) l) = l.
Proof. induction l; cbn; f_equal; auto. Qed.

Lemma engine_part_lexer l : engine_part (map (pair Lexer) l) = [].
Proof. induction l; cbn; auto. Qed.

Lemma separated_app a b :
  separated (a ++ b)
  <-> separated a /\ separated b
      /\ Forall (fun m => Forall (fun m' => lt2 (key m) (key m')) (lexer_part b))
           (engine_part a).
Proof.
  induction a as [|[[] m] a IH]; cbn [app separated engine_part flat_map fst snd].
  - split; [intros H; repeat split; auto|tauto].
  - exact IH.
  - fold (engine_part a). rewrite IH, lexer_part_app, Forall_app, Forall_cons. tauto.
Qed.

Lemma separated_engine l : separated (map (pair Engine) l).
Proof.
  induction l as [|m l IH]; cbn; [exact I|]. split; [|exact IH].
  fold (lexer_part (map (pair Engine) l)). rewrite lexer_part_engine. constructor.
Qed.

Lemma separated_lexer l : separated (map (pair Lexer) l).
Proof. induction l as [|m l IH]; cbn; auto. Qed.

Lemma at_key_history k lg :
  separated lg ->
  at_key k (map snd lg) = at_key k (lexer_part lg) ++ at_key k (engine_part lg).
Proof.
  unfold at_key.
  induction lg as [|[[] m] lg IH]; intros Hs; cbn [map snd separated] in *.
  - reflexivity.
  - change (lexer_part ((Lexer, m) :: lg)) with (m :: lexer_part lg).
    change (engine_part ((Lexer, m) :: lg)) with (engine_part lg).
    rewrite !filter_cons, IH by exact Hs. destruct (decide (key m = k)); reflexivity.
  - destruct Hs as [Hm Hs].
    change (lexer_part ((Engine, m) :: lg)) with (lexer_part lg).
    change (engine_part ((Engine, m) :: lg)) with (m :: engine_part lg).
    rewrite !filter_cons, IH by exact Hs.
    destruct (decide (key m = k)) as [E|]; [|reflexivity].
    assert (Hnone : filter (fun m0 => key m0 = k) (lexer_part lg) = []).
    { clear IH. induction Hm as [|m' l Hlt Hm IHm]; [reflexivity|].
      rewrite filter_cons, IHm. destruct (decide (key m' = k)) as [E'|]; [|reflexivity].
      rewrite E, E' in Hlt. unfold lt2 in Hlt. lia. }
    rewrite Hnone. reflexivity.
Qed.

(** On a good history the report is the stable sort of the diagnostics in
    the order in which they were appended. *)
Lemma messages_of_history p :
  good p -> messages p = sort (map snd (emitted p)).
Proof.
  intros (Hl & He & Hs). unfold messages.
  apply sorted_at_key_eq; [apply sort_ordered|apply sort_ordered|].
  intros k. rewrite !at_key_sort, at_key_history by exact Hs.
  rewrite Hl, He. unfold at_key. apply filter_app.
Qed.

(** ** What the methods of the parser keep *)

Lemma token_behind_mono token tk tk' :
  token_behind token tk -> le2 (cur tk) (cur tk') -> token_behind token tk'.
Proof. unfold token_behind. intros. eapply lt2_le2_trans; eauto. Qed.

Lemma good_emit p l :
  good p ->
  good (mk (tokenizer p) (_messages p ++ l) (saved_token p)
          (emitted p ++ map (pair Engine) l)).
Proof.
  intros (Hl & He & Hs). unfold good. cbn [emitted tokenizer _messages].
  rewrite lexer_part_app, engine_part_app, lexer_part_engine, engine_part_engine, app_nil_r.
  repeat split; [exact Hl|congruence|].
  apply separated_app. split; [exact Hs|]. split; [apply separated_engine|].
  rewrite lexer_part_engine. apply Forall_forall. intros; constructor.
Qed.

Section EngineStep.
Context {A : Type}.
Implicit Types (Q : A -> TokenFileParser.t -> Prop) (p : TokenFileParser.t).

Lemma engine_step_ret Q a p : good p -> ready p -> Q a p -> engine_step Q p (ret a p).
Proof. intros Hg Hr HQ. split; [apply le2_refl|]. auto. Qed.

Lemma engine_step_raise Q e p :
  good p -> is_ParsingError e = false -> engine_step Q p (raise e p).
Proof.
  intros Hg He. split; [apply le2_refl|]. split; [exact Hg|].
  destruct e; try discriminate; exact I.
Qed.

Lemma engine_step_out_of_fuel Q p : good p -> engine_step Q p (out_of_fuel p).
Proof. intros Hg. split; [apply le2_refl|]. auto. Qed.

Lemma engine_step_error Q line pos message p :
  good p -> engine_step Q p (_error line pos message p).
Proof.
  intros Hg. split; [apply le2_refl|]. split; [apply good_emit; exact Hg|].
  exists (_messages p), line, pos. reflexivity.
Qed.

Lemma engine_step_mismatch Q token p : good p -> engine_step Q p (mismatch token p).
Proof. apply engine_step_error. Qed.

Lemma engine_step_weaken Q Q' p res :
  engine_step Q p res -> (forall a p', Q a p' -> Q' a p') -> engine_step Q' p res.
Proof.
  destruct res as [r p']. intros (Hle & Hg & Hr) HQ. split; [exact Hle|].
  split; [exact Hg|]. destruct r as [a|e|]; auto. destruct Hr; auto.
Qed.

Lemma engine_step_bind {B} (Q1 : B -> TokenFileParser.t -> Prop) Q (c : M t B)
    (k : B -> M t A) p :
  engine_step Q1 p (c p) ->
  (forall b p1, good p1 -> ready p1 ->
                le2 (cur (tokenizer p)) (cur (tokenizer p1)) -> Q1 b p1 ->
                engine_step Q p1 (k b p1)) ->
  engine_step Q p (bind c k p).
Proof.
  unfold bind. destruct (c p) as [[b|e|] p1]; intros H1 Hk; [|exact H1|exact H1].
  destruct H1 as (Hle1 & Hg1 & Hr1 & HQ1).
  specialize (Hk b p1 Hg1 Hr1 Hle1 HQ1). destruct (k b p1) as [r p2].
  destruct Hk as (Hle2 & Hk). split; [eapply le2_trans; eauto|exact Hk].
Qed.

End EngineStep.

Lemma engine_step_emit l p :
  good p -> ready p ->
  Forall (fun m => lt2 (key m) (cur (tokenizer p))) l ->
  engine_step any p (emit l p).
Proof.
  intros Hg [Hb Hs] Hl. split; [apply le2_refl|]. split; [apply good_emit; exact Hg|].
  split; [|exact I]. split; [apply Forall_app; auto|exact Hs].
Qed.

Lemma engine_step_emit_at token l p :
  good p -> ready p -> token_behind token (tokenizer p) ->
  Forall (fun m => key m = tkey token) l ->
  engine_step any p (emit l p).
Proof.
  intros Hg Hr Hb Hl. apply engine_step_emit; auto.
  eapply Forall_impl; [exact Hl|]. intros m ->. exact Hb.
Qed.

Lemma engine_step_warn_at token message p :
  good p -> ready p -> token_behind token (tokenizer p) ->
  engine_step any p (warn_at token message p).
Proof.
  intros Hg Hr Hb. apply (engine_step_emit_at token); auto; repeat constructor.
Qed.

Lemma engine_step_push_back token p :
  good p -> ready p -> token_behind token (tokenizer p) ->
  engine_step any p (_push_back token p).
Proof.
  intros Hg [Hb Hs] Ht. split; [apply le2_refl|]. split; [exact Hg|].
  split; [|exact I]. split; [exact Hb|exact Ht].
Qed.

Lemma engine_step_ret_token token p :
  good p -> ready p -> token_behind token (tokenizer p) ->
  engine_step behind_tokenizer p (ret token p).
Proof. intros. apply engine_step_ret; auto. Qed.

Lemma engine_step_ret_any {A} (a : A) p :
  good p -> ready p -> engine_step any p (ret a p).
Proof. intros. apply engine_step_ret; auto. exact I. Qed.

Lemma skipn_length_app {A} (l added : list A) : skipn (length l) (l ++ added) = added.
Proof. rewrite skipn_app, skipn_all, Nat.sub_diag. reflexivity. Qed.

(** [next(self.tokenizer, None)] *)
Lemma engine_step_next_or_None p :
  good p -> ready p -> saved_token p = None ->
  engine_step (fun r p' => option_behind r (tokenizer p') /\ saved_token p' = None) p
    (next_or_None p).
Proof.
  intros (Hl & He & Hs) [Hb Hsv] Hnone. unfold next_or_None.
  destruct (Tokenizer.__next__ (tokenizer p)) as [r tk'] eqn:Hn.
  apply next_spec in Hn as (Hle & (added & Hm & Hk) & Htok & Hpe).
  set (p' := mk tk' (_messages p) (saved_token p)
                (emitted p ++ lexed (tokenizer p) tk')).
  assert (Hlexed : lexed (tokenizer p) tk' = map (pair Lexer) added).
  { unfold lexed. rewrite Hm, skipn_length_app. reflexivity. }
  assert (Hg' : good p').
  { unfold good, p'. cbn [emitted tokenizer _messages]. rewrite Hlexed.
    rewrite lexer_part_app, engine_part_app, lexer_part_lexer, engine_part_lexer,
      app_nil_r.
    repeat split; [congruence|exact He|].
    apply separated_app. split; [exact Hs|]. split; [apply separated_lexer|].
    rewrite lexer_part_lexer, He.
    eapply Forall_impl; [exact Hb|]. intros m Hmb.
    eapply Forall_impl; [exact Hk|]. intros m' Hm'.
    eapply lt2_le2_trans; [exact Hmb|exact Hm']. }
  assert (Hr' : ready p').
  { split; cbn [tokenizer _messages saved_token p'].
    - eapply Forall_impl; [exact Hb|]. intros m Hmb.
      eapply lt2_le2_trans; [exact Hmb|exact Hle].
    - rewrite Hnone. exact I. }
  destruct r as [token|e|].
  - split; [exact Hle|]. split; [exact Hg'|]. split; [exact Hr'|].
    split; [apply Htok; reflexivity|exact Hnone].
  - destruct e; try discriminate Hpe;
      (split; [exact Hle|]; split; [exact Hg'|]; auto).
    split; [exact Hr'|]. split; [exact I|exact Hnone].
  - split; [exact Hle|]. split; [exact Hg'|exact I].
Qed.

(** [_next_token]: the token returned, if any, lies before the position of
    the tokenizer; without [allow_eof] there is one. *)
Lemma engine_step__next_token kind message is_error allow_eof p :
  good p -> ready p ->
  engine_step (fun r p' => option_behind r (tokenizer p')
                           /\ (allow_eof = false -> r <> None)) p
    (_next_token kind message is_error allow_eof p).
Proof.
  intros Hg Hr. unfold _next_token. unfold bind at 1, get.
  destruct (saved_token p) as [token|] eqn:Hsv.
  - unfold bind, put, ret. destruct Hg as (Hl & He & Hs). destruct Hr as [Hb Hbs].
    rewrite Hsv in Hbs. split; [apply le2_refl|].
    split; [repeat split; assumption|]. split; [split; [exact Hb|exact I]|].
    split; [exact Hbs|discriminate].
  - eapply engine_step_bind; [apply engine_step_next_or_None; assumption|].
    intros [token|] p1 Hg1 Hr1 Hle1 [Hb1 Hsv1].
    + eapply (engine_step_bind any).
      * destruct kind as [kind|]; [|apply engine_step_ret_any; assumption].
        destruct (bool_decide (Token.kind token = kind));
          [apply engine_step_ret_any; assumption|].
        destruct is_error; [apply engine_step_error; assumption|].
        apply (engine_step_emit_at token); auto; repeat constructor.
      * intros _ p2 Hg2 Hr2 Hle2 _. apply engine_step_ret; auto;
          split; [eapply token_behind_mono; eauto|discriminate].
    + destruct allow_eof.
      * apply engine_step_ret; auto.
      * unfold bind at 1, get. apply engine_step_error. exact Hg1.
Qed.

Lemma engine_step_next_token p :
  good p -> ready p -> engine_step behind_tokenizer p (next_token p).
Proof.
  intros Hg Hr. unfold next_token.
  eapply engine_step_bind; [apply engine_step__next_token; assumption|].
  intros [token|] p1 Hg1 Hr1 Hle1 [Hb1 Hne].
  - apply engine_step_ret; auto.
  - exfalso. apply Hne; reflexivity.
Qed.

Create HintDb engine.
#[local] Hint Resolve engine_step_next_token engine_step_ret_any engine_step_ret_token
  engine_step_push_back engine_step_warn_at engine_step_out_of_fuel engine_step_mismatch
  : engine.

Ltac transport :=
  unfold behind_tokenizer in *;
  repeat match goal with
         | Hle : le2 (cur (tokenizer ?p)) (cur (tokenizer ?p1)),
           H : token_behind ?t (tokenizer ?p) |- _ =>
             lazymatch goal with
             | _ : token_behind t (tokenizer p1) |- _ => fail
             | _ => pose proof (token_behind_mono _ _ _ H Hle)
             end
         end.

Ltac engine_go :=
  repeat match goal with
         | |- engine_step _ _ (@bind _ Token.t _ _ _ _) =>
             apply (engine_step_bind behind_tokenizer);
             [|intros ? ? ? ? ? ?; transport]
         | |- engine_step _ _ (bind _ _ _) =>
             apply (engine_step_bind any); [|intros ? ? ? ? ? ?; transport]
         | |- engine_step _ _ ((if ?b then _ else _) _) => destruct b
         | |- engine_step _ _ ((match ?x with _ => _ end) _) => destruct x eqn:?
         | |- engine_step _ _ _ => solve [auto with engine]
         end.

Lemma engine_step_skip_structure_loop fuel : forall stack p,
  good p -> ready p -> engine_step any p (_skip_structure_loop fuel stack p).
Proof.
  induction fuel as [|fuel IH]; intros stack p Hg Hr; [auto with engine|].
  cbn [_skip_structure_loop]. engine_go.
Qed.

Lemma engine_step_skip_structure fuel open_token p :
  good p -> ready p -> engine_step any p (_skip_structure fuel open_token p).
Proof. apply engine_step_skip_structure_loop. Qed.

#[local] Hint Resolve engine_step_skip_structure : engine.

Lemma engine_step_skip_value fuel p :
  good p -> ready p -> engine_step any p (_skip_value fuel p).
Proof. intros Hg Hr. unfold _skip_value. engine_go. Qed.

#[local] Hint Resolve engine_step_skip_value : engine.

Lemma engine_step_check_spherical_units_loop fuel : forall a l p,
  good p -> ready p -> engine_step any p (_check_spherical_units_loop fuel a l p).
Proof.
  induction fuel as [|fuel IH]; intros a l p Hg Hr; [auto with engine|].
  cbn [_check_spherical_units_loop]. engine_go.
Qed.

Lemma engine_step_check_units_loop fuel : forall expected has_unit p,
  good p -> ready p -> engine_step any p (_check_units_loop fuel expected has_unit p).
Proof.
  induction fuel as [|fuel IH]; intros expected has_unit p Hg Hr; [auto with engine|].
  cbn [_check_units_loop]. engine_go.
Qed.

Lemma engine_step_check_units fuel expected p :
  good p -> ready p -> engine_step any p (_check_units fuel expected p).
Proof.
  intros Hg Hr. unfold _check_units, _check_spherical_units.
  destruct expected;
    auto using engine_step_check_units_loop, engine_step_check_spherical_units_loop.
Qed.

#[local] Hint Resolve engine_step_check_units : engine.

Section EngineHooks.
Context (h : Hooks) (Hh : hooks_at_token h).

Lemma engine_step_validate_number object_name property_name token value p :
  good p -> ready p -> token_behind token (tokenizer p) ->
  engine_step any p (validate_number h object_name property_name token value p).
Proof using Hh.
  intros Hg Hr Hb. apply (engine_step_emit_at token); auto. apply Hh.
Qed.

Lemma engine_step_validate_string object_name property_name token value p :
  good p -> ready p -> token_behind token (tokenizer p) ->
  engine_step any p (validate_string h object_name property_name token value p).
Proof using Hh.
  intros Hg Hr Hb. apply (engine_step_emit_at token); auto. apply Hh.
Qed.

Lemma engine_step_check_properties object_name open_token parsed disposition p :
  good p -> ready p -> token_behind open_token (tokenizer p) ->
  engine_step any p
    (emit (_check_properties h object_name open_token parsed disposition) p).
Proof using Hh.
  intros Hg Hr Hb. apply (engine_step_emit_at open_token); auto. apply Hh.
Qed.

Lemma engine_step_get_properties property_name p :
  good p -> ready p -> engine_step any p (get_properties h property_name p).
Proof using Hh.
  intros Hg Hr. unfold get_properties.
  destruct (_get_properties h property_name);
    [apply engine_step_ret_any; assumption|apply engine_step_raise; auto].
Qed.

#[local] Hint Resolve engine_step_validate_number engine_step_validate_string
  engine_step_check_properties engine_step_get_properties : engine.

Lemma engine_step_check_vector_loop fuel : forall property_name count n p,
  good p -> ready p ->
  engine_step any p (_check_vector_loop h fuel property_name count n p).
Proof using Hh.
  induction fuel as [|fuel IH]; intros property_name count n p Hg Hr;
    [auto with engine|].
  cbn [_check_vector_loop]. engine_go. apply engine_step_raise; auto.
Qed.

Lemma engine_step_check_vector fuel property_name count p :
  good p -> ready p -> engine_step any p (_check_vector h fuel property_name count p).
Proof using Hh. apply engine_step_check_vector_loop. Qed.

Lemma engine_step_check_string_list fuel : forall property_name p,
  good p -> ready p -> engine_step any p (_check_string_list h fuel property_name p).
Proof using Hh.
  induction fuel as [|fuel IH]; intros property_name p Hg Hr; [auto with engine|].
  cbn [_check_string_list]. engine_go.
Qed.

#[local] Hint Resolve engine_step_check_vector engine_step_check_string_list : engine.

Lemma engine_step_check_all fuel :
  (forall object_name open_token properties disposition parsed p,
     good p -> ready p -> token_behind open_token (tokenizer p) ->
     engine_step any p
       (_check_object_loop h fuel object_name open_token properties disposition parsed p))
  /\ (forall object_name property_name data_type token p,
        good p -> ready p -> token_behind token (tokenizer p) ->
        engine_step any p
          (_check_value_type h fuel object_name property_name data_type token p))
  /\ (forall object_name property_name data_type units_type p,
        good p -> ready p ->
        engine_step any p
          (_check_value h fuel object_name property_name data_type units_type p))
  /\ (forall object_name properties p,
        good p -> ready p ->
        engine_step any p (_check_object_list h fuel object_name properties p)).
Proof using Hh.
  induction fuel as [|fuel (IHobject & IHtype & IHvalue & IHlist)].
  { split; [|split; [|split]]; intros; apply engine_step_out_of_fuel; assumption. }
  split; [|split; [|split]].
  - intros object_name open_token properties disposition parsed p Hg Hr Hb.
    cbn [_check_object_loop]. engine_go.
  - intros object_name property_name data_type token p Hg Hr Hb.
    cbn [_check_value_type]. cbv zeta. engine_go.
  - intros object_name property_name data_type units_type p Hg Hr.
    cbn [_check_value]. engine_go.
  - intros object_name properties p Hg Hr.
    cbn [_check_object_list]. engine_go.
Qed.

Lemma engine_step_check_object fuel object_name open_token properties disposition p :
  good p -> ready p -> token_behind open_token (tokenizer p) ->
  engine_step any p
    (_check_object h fuel object_name open_token properties disposition p).
Proof using Hh. apply engine_step_check_all. Qed.

End EngineHooks.

(** ** The hooks put their diagnostics at the token *)

Lemma base_validate_string_at object_name property_name token value :
  Forall (fun m => key m = tkey token)
    (base_validate_string object_name property_name token value).
Proof.
  unfold base_validate_string.
  repeat match goal with |- context [if ?b then _ else _] => destruct b end;
    repeat constructor.
Qed.

Lemma base_validate_number_at object_name property_name token value :
  Forall (fun m => key m = tkey token)
    (base_validate_number object_name property_name token value).
Proof.
  unfold base_validate_number.
  repeat match goal with |- context [if ?b then _ else _] => destruct b end;
    cbn [app]; repeat constructor.
Qed.

Lemma base_hooks_at_token : hooks_at_token base.
Proof.
  split; [|split]; intros; cbn.
  - apply base_validate_string_at.
  - apply base_validate_number_at.
  - constructor.
Qed.

Lemma DSC_hooks_at_token : hooks_at_token DSCParser.hooks.
Proof.
  split; [|split]; intros; cbn [DSCParser.hooks _validate_string
    _validate_number _check_properties].
  - unfold DSCParser._validate_string.
    destruct (pystr_eqb object_name (py "Galaxy") && pystr_eqb property_name (py "Type"));
      [|apply base_validate_string_at].
    destruct (bool_decide (value ∈ DSCParser._GALAXY_TYPES)); repeat constructor.
  - apply base_validate_number_at.
  - unfold DSCParser._check_properties. cbv zeta.
    repeat match goal with |- context [if ?b then _ else _] => destruct b end;
      cbn [app]; repeat constructor.
Qed.

(** ** A whole run *)

Lemma good_init text : good (__init__ text) /\ ready (__init__ text).
Proof. repeat split; constructor. Qed.

Lemma engine_step_DSC_parse fuel : forall p,
  good p -> ready p -> engine_step any p (DSCParser.parse fuel p).
Proof.
  induction fuel as [|fuel IH]; intros p Hg Hr; [apply engine_step_out_of_fuel; exact Hg|].
  cbn [DSCParser.parse].
  eapply engine_step_bind; [apply engine_step__next_token; assumption|].
  intros [token|] p1 Hg1 Hr1 Hle1 [Hb1 _]; [|apply engine_step_ret_any; assumption].
  cbn [option_behind] in Hb1.
  destruct (Token.lex token) eqn:Hlex; try (apply engine_step_error; assumption).
  apply (engine_step_bind any).
  { destruct (DSCParser._DSO_PROPERTIES !! value);
      [apply engine_step_ret_any|apply engine_step_warn_at]; assumption. }
  intros _ p2 Hg2 Hr2 Hle2 _.
  eapply engine_step_bind; [apply engine_step__next_token; assumption|].
  intros [token2|] p3 Hg3 Hr3 Hle3 [Hb3 Hne3]; [|apply engine_step_raise; auto].
  apply (engine_step_bind any).
  { destruct (bool_decide (Token.kind token2 = STRING));
      [apply engine_step_ret_any; assumption|apply engine_step_error; assumption]. }
  intros _ p4 Hg4 Hr4 Hle4 _.
  eapply engine_step_bind; [apply engine_step__next_token; assumption|].
  intros [token3|] p5 Hg5 Hr5 Hle5 [Hb5 Hne5]; [|apply engine_step_raise; auto].
  cbn [option_behind] in Hb5.
  apply (engine_step_bind any).
  { destruct (DSCParser._DSO_PROPERTIES !! value).
    - apply engine_step_check_object; auto using DSC_hooks_at_token.
    - apply engine_step_skip_structure; assumption. }
  intros _ p6 Hg6 Hr6 Hle6 _. apply IH; assumption.
Qed.

(** X17.  The walk of an object by [_check_object], for a format parser
    whose hooks put their diagnostics at the token they are given: if,
    before the call, the report of the parser is its history sorted and the
    diagnostics of the parser and the opening token lie before the
    position of the tokenizer, then after the call, however it ends, the
    report is the diagnostics of the tokenizer and of the parser in the
    order of (line, column), those of one position in the order in which
    they were appended; and when the call raises [ParsingError], the error
    of that text is the last diagnostic the parser appended. *)
Theorem _check_object_report_in_order_of_emission :
  forall h fuel object_name open_token properties disposition p,
    hooks_at_token h ->
    good p -> ready p -> token_behind open_token (tokenizer p) ->
    let (r, p') := _check_object h fuel object_name open_token properties disposition p in
    messages p' = sort (map snd (emitted p'))
    /\ match r with
       | Raise (ParsingError message) => error_last message p'
       | _ => True
       end.
Proof.
  intros h fuel object_name open_token properties disposition p Hh Hg Hr Hb.
  pose proof (engine_step_check_object h Hh fuel object_name open_token properties
                disposition p Hg Hr Hb) as Hs.
  destruct (_check_object h fuel object_name open_token properties disposition p)
    as [r p'].
  destruct Hs as (_ & Hg' & Hres). split; [apply messages_of_history; exact Hg'|].
  destruct r as [a|e|]; auto.
Qed.

Lemma _check_object_report_in_order_of_emission_witness :
  let (r, p') :=
    _check_object base 5 (py "Body") (Token.mk T_START_OBJECT 1 0) ∅ ADD
      (mk (Tokenizer.mk [] (py "{ 1 }") 1 1 []) [] None []) in
  messages p' = sort (map snd (emitted p'))
  /\ match r with
     | Raise (ParsingError message) => error_last message p'
     | _ => True
     end.
Proof.
  apply (_check_object_report_in_order_of_emission base 5 (py "Body")
           (Token.mk T_START_OBJECT 1 0) ∅ ADD
           (mk (Tokenizer.mk [] (py "{ 1 }") 1 1 []) [] None [])).
  - exact base_hooks_at_token.
  - repeat split; try constructor.
  - repeat split; try constructor.
  - unfold token_behind, lt2, tkey, cur. cbn. lia.
Defined.

Lemma DSC_report_helper text fuel :
  match DSCParser.parse fuel (__init__ text) with
  | (Raise (ParsingError message), parser) => error_last message parser
  | _ => True
  end.
Proof.
  destruct (good_init text) as [Hg Hr].
  pose proof (engine_step_DSC_parse fuel (__init__ text) Hg Hr) as Hs.
  destruct (DSCParser.parse fuel (__init__ text)) as [r p'].
  destruct Hs as (_ & Hg' & Hres). destruct r as [a|e|]; auto.
Qed.

(** X18.  For every DSC file, when [parse] ends, returns or raises, the
    report [messages] is the diagnostics of the tokenizer and of the parser
    in the order of (line, column), and the diagnostics of one position are
    in the order in which they were appended during the run: ties keep the
    order of emission.  When [parse] raises [ParsingError], the error of
    that text is the last diagnostic the parser appended. *)
Theorem DSC_report_in_order_of_emission text fuel :
  let (r, parser) := DSCParser.parse fuel (__init__ text) in
  messages parser = sort (map snd (emitted parser))
  /\ match r with
     | Raise (ParsingError message) => error_last message parser
     | _ => True
     end.
Proof.
  destruct (good_init text) as [Hg Hr].
  pose proof (engine_step_DSC_parse fuel (__init__ text) Hg Hr) as Hs.
  destruct (DSCParser.parse fuel (__init__ text)) as [r p'].
  destruct Hs as (_ & Hg' & Hres). split; [apply messages_of_history; exact Hg'|].
  destruct r as [a|e|]; auto.
Qed.

(** ** The exit code *)

Lemma _process_messages_fold is_verbose messages : forall printed exit_code,
  fold_left
    (fun '(printed, exit_code) message =>
       (if is_verbose || above_INFO message then printed ++ [message] else printed,
        if above_INFO message then 1%Z else exit_code))
    messages (printed, exit_code)
  = (printed ++ List.filter (fun m => is_verbose || above_INFO m) messages,
     if existsb above_INFO messages then 1%Z else exit_code).
Proof.
  induction messages as [|m messages IH]; intros printed exit_code;
    cbn [fold_left List.filter existsb].
  - rewrite app_nil_r. reflexivity.
  - rewrite IH. destruct (above_INFO m); cbn [orb].
    + rewrite orb_true_r, <- app_assoc. cbn [app].
      destruct (existsb above_INFO messages); reflexivity.
    + rewrite orb_false_r. destruct is_verbose; [rewrite <- app_assoc|]; reflexivity.
Qed.

(** X19.  [_process_messages] prints the diagnostics of the report in
    its order, leaving out those of level [INFO] unless [is_verbose], and
    its exit code is 1 exactly when the report holds a warning or an
    error, 0 otherwise. *)
Theorem _process_messages_spec messages is_verbose :
  _process_messages messages is_verbose
  = (List.filter (fun m => is_verbose || above_INFO m) messages,
     if existsb above_INFO messages then 1%Z else 0%Z).
Proof. unfold _process_messages. apply _process_messages_fold. Qed.

Lemma error_last_reported message p :
  error_last message p -> existsb above_INFO (messages p) = true.
Proof.
  intros (ms & line & pos & Hm). apply existsb_exists.
  exists (ParsingMessage.mk line pos ERROR message). split; [|reflexivity].
  apply list_elem_of_In. unfold messages. rewrite sort_perm, Hm.
  rewrite !elem_of_app. right. right. left.
Qed.

(** X20.  A DSC file whose parsing stops with [ParsingError] is still
    reported: [_process_file] drops the exception, prints the diagnostics
    that are not of level [INFO], among them the error that stopped the
    parser, and gives the exit code 1. *)
Theorem DSC_fatal_error_exit_code text fuel is_verbose message parser :
  DSCParser.parse fuel (__init__ text) = (Raise (ParsingError message), parser) ->
  exists printed line pos,
    _process_file (DSCParser.parse fuel) text is_verbose = Return (printed, 1%Z)
    /\ In (ParsingMessage.mk line pos ERROR message) printed.
Proof.
  intros Hp. pose proof (DSC_report_helper text fuel) as Hs.
  rewrite Hp in Hs. destruct Hs as (ms & line & pos & Hm).
  unfold _process_file. rewrite Hp, _process_messages_spec.
  rewrite (error_last_reported message parser) by (exists ms, line, pos; exact Hm).
  eexists _, line, pos. split; [reflexivity|].
  apply filter_In. split; [|apply orb_true_r].
  apply list_elem_of_In. unfold messages. rewrite sort_perm, Hm.
  rewrite !elem_of_app. right. right. left.
Qed.

Lemma DSC_fatal_error_exit_code_witness :
  exists printed line pos,
    _process_file (DSCParser.parse 1) [py "}"] false = Return (printed, 1%Z)
    /\ In (ParsingMessage.mk line pos ERROR [Lit "Expected DSO type"]) printed.
Proof.
  refine (DSC_fatal_error_exit_code [py "}"] 1 false [Lit "Expected DSO type"]
            (mk (Tokenizer.mk [] (py "}") 1 1 [])
                [ParsingMessage.mk 1 0 ERROR [Lit "Expected DSO type"]] None
                [(Engine, ParsingMessage.mk 1 0 ERROR [Lit "Expected DSO type"])]) _).
  vm_compute. reflexivity.
Defined.

(** ** The head of an object in a DSC file *)

Lemma bind__next_token_pull {A} kind message is_error allow_eof token tk'
    (k : option Token.t -> M TokenFileParser.t A) tk ms lg :
  Tokenizer.__next__ tk = (Return token, tk') ->
  bind (_next_token kind message is_error allow_eof) k (mk tk ms None lg)
  = bind (match kind with
          | Some kind =>
              if bool_decide (Token.kind token = kind) then ret tt
              else if is_error
                   then TokenFileParser._error (Token.line token) (Token.pos token) message
                   else TokenFileParser._warn (Token.line token) (Token.pos token) message
          | None => ret tt
          end)
      (fun _ => k (Some token)) (mk tk' ms None (lg ++ lexed tk tk')).
Proof.
  intros Hn. unfold _next_token. unfold bind at 1. unfold bind at 1, get.
  cbn [saved_token]. unfold bind at 1, next_or_None. cbn [tokenizer]. rewrite Hn.
  cbn [_messages saved_token emitted]. unfold bind.
  destruct kind as [kind|]; [|reflexivity].
  destruct (bool_decide (Token.kind token = kind)); [reflexivity|].
  destruct is_error; reflexivity.
Qed.

(** X21.  In a DSC file, when the token after the type of an object
    is no string, [parse] reports it twice at the same position, as the
    warning "Expected DSO name" of [_next_token] and then as the error
    "Expected DSO name" of its own test, and raises [ParsingError]; before
    them comes the warning "Unknown DSO type" when the type is none of
    Galaxy, Globular, OpenCluster and Nebula. *)
Theorem DSC_name_that_is_no_string :
  forall fuel tk ms lg name object_type title tk',
    Token.lex name = T_NAME object_type ->
    Token.kind title <> STRING ->
    pulls tk [name; title] tk' ->
    exists lg',
      DSCParser.parse (S fuel) (mk tk ms None lg)
      = (Raise (ParsingError [Lit "Expected DSO name"]),
         mk tk'
            (ms ++ match DSCParser._DSO_PROPERTIES !! object_type with
                   | None => [warning name [Lit "Unknown DSO type "; Str object_type]]
                   | Some _ => []
                   end
                ++ [warning title [Lit "Expected DSO name"];
                    ParsingMessage.mk (Token.line title) (Token.pos title) ERROR
                      [Lit "Expected DSO name"]])
            None lg').
Proof.
  intros fuel tk ms lg name object_type title tk' Hname Htitle Hp.
  inversion Hp as [|? ? tk1 ? ? Hn1 Hp1]; subst.
  inversion Hp1 as [|? ? tk2 ? ? Hn2 Hp2]; subst. inversion Hp2; subst.
  cbn [DSCParser.parse].
  rewrite (bind__next_token_pull _ _ _ _ _ _ _ _ _ _ Hn1). steps. rewrite Hname.
  cbv zeta.
  destruct (DSCParser._DSO_PROPERTIES !! object_type) as [properties|]; steps;
    rewrite (bind__next_token_pull _ _ _ _ _ _ _ _ _ _ Hn2);
    rewrite !(bool_decide_eq_false_2 _ Htitle);
    unfold TokenFileParser._warn, TokenFileParser._error; steps;
    rewrite ?bind_bind; steps; eexists; unfold bind, raise; cbn;
    rewrite <- ?app_assoc; reflexivity.
Qed.

Lemma DSC_name_that_is_no_string_witness :
  exists lg',
    DSCParser.parse 1 (mk (Tokenizer.__init__ [py "Galaxy {"]) [] None [])
    = (Raise (ParsingError [Lit "Expected DSO name"]),
       mk (Tokenizer.mk [] (py "Galaxy {") 8 1 [])
          ([] ++ match DSCParser._DSO_PROPERTIES !! py "Galaxy" with
                 | None => [warning (Token.mk (T_NAME (py "Galaxy")) 1 0)
                              [Lit "Unknown DSO type "; Str (py "Galaxy")]]
                 | Some _ => []
                 end
              ++ [warning (Token.mk T_START_OBJECT 1 7) [Lit "Expected DSO name"];
                  ParsingMessage.mk 1 7 ERROR [Lit "Expected DSO name"]])
          None lg').
Proof.
  refine (DSC_name_that_is_no_string 0 _ [] [] (Token.mk (T_NAME (py "Galaxy")) 1 0)
            (py "Galaxy") (Token.mk T_START_OBJECT 1 7) _ eq_refl _ _).
  - discriminate.
  - pulls_now.
Defined.

(** X22.  In a DSC file, an object of a type that is none of Galaxy,
    Globular, OpenCluster and Nebula gets the one warning "Unknown DSO
    type" at its type; when its name is a string and its body has well
    nested brackets, the body is passed over unchecked and [parse] goes on
    with the next object. *)
Theorem DSC_unknown_type_is_skipped :
  forall fuel tk ms lg name object_type title opening inner closing tk',
    Token.lex name = T_NAME object_type ->
    DSCParser._DSO_PROPERTIES !! object_type = None ->
    Token.kind title = STRING ->
    Token.lex opening = T_START_OBJECT ->
    balanced inner ->
    Token.lex closing = T_END_OBJECT ->
    pulls tk (name :: title :: opening :: inner ++ [closing]) tk' ->
    length inner + 1 < fuel ->
    exists lg',
      DSCParser.parse (S fuel) (mk tk ms None lg)
      = DSCParser.parse fuel
          (mk tk' (ms ++ [warning name [Lit "Unknown DSO type "; Str object_type]])
             None lg').
Proof.
  intros fuel tk ms lg name object_type title opening inner closing tk'
    Hname Hnone Htitle Hopen Hb Hclose Hp Hfuel.
  inversion Hp as [|? ? tk1 ? ? Hn1 Hp1]; subst.
  inversion Hp1 as [|? ? tk2 ? ? Hn2 Hp2]; subst.
  inversion Hp2 as [|? ? tk3 ? ? Hn3 Hp3]; subst.
  cbn [DSCParser.parse].
  rewrite (bind__next_token_pull _ _ _ _ _ _ _ _ _ _ Hn1). steps. rewrite Hname.
  cbv zeta. rewrite Hnone. steps.
  rewrite (bind__next_token_pull _ _ _ _ _ _ _ _ _ _ Hn2).
  rewrite !(bool_decide_eq_true_2 _ Htitle). steps.
  rewrite (bind__next_token_pull _ _ _ _ _ _ _ _ _ _ Hn3).
  assert (Hk : Token.kind opening = START_OBJECT) by (unfold Token.kind; rewrite Hopen; reflexivity).
  rewrite !(bool_decide_eq_true_2 _ Hk). steps. rewrite Hk.
  edestruct (_skip_structure_returns fuel START_OBJECT inner closing tk3) as [lg' E];
    [exact Hb|unfold closes; rewrite Hclose; reflexivity|exact Hp3|exact Hfuel|].
  unfold bind at 1. rewrite E. eexists. reflexivity.
Qed.

Lemma DSC_unknown_type_is_skipped_witness :
  let line := py "Star " ++ 34%N :: py "x" ++ 34%N :: py " { R 1 }" in
  exists lg',
    DSCParser.parse 5 (mk (Tokenizer.mk [] line 0 1 []) [] None [])
    = DSCParser.parse 4
        (mk (Tokenizer.mk [] line 16 1 [])
           ([] ++ [warning (Token.mk (T_NAME (py "Star")) 1 0)
                     [Lit "Unknown DSO type "; Str (py "Star")]])
           None lg').
Proof.
  refine (DSC_unknown_type_is_skipped 4 _ [] [] (Token.mk (T_NAME (py "Star")) 1 0)
            (py "Star") (Token.mk (T_STRING (py "x")) 1 5) (Token.mk T_START_OBJECT 1 9)
            [Token.mk (T_NAME (py "R")) 1 11; Token.mk (T_NUMBER (Int 1)) 1 13]
            (Token.mk T_END_OBJECT 1 15) _ eq_refl _ eq_refl eq_refl _ eq_refl _ _).
  - vm_compute. reflexivity.
  - repeat (apply balanced_token; [reflexivity|reflexivity|]). constructor.
  - pulls_now.
  - cbn. lia.
Defined.
